(** * Multi-Angle Product Studio: the batch generation core

    A shallow embedding of the generation client ([services/gemini.ts], in the
    revision whose functions take the user's API key), of the image
    transcoder [resizeBase64Image] and of the orchestrating handlers of
    [App.tsx] ([handleSelectFolder], [handleGenerateBatch],
    [handleGenerateAll]), followed by the properties of the specification
    that were checked against them. The other handlers of [App.tsx] (the
    selection of generated images, the angles, the navigation, the size of
    a batch, the downloads) and [transformImage] follow, with properties
    read off the code.

    Conventions of the embedding:
    - a rejected promise / thrown exception is the [Throw] case of [result];
    - everything the browser or the remote API decides (the responses of the
      model, image decoding, canvas encoding, [fetch], [localeCompare], the
      moments at which the user clicks STOP) is a field of [Env];
    - the network activity of the client is recorded in a [World]: the
      number of remote calls made so far and the trace of calls and of
      [setTimeout] delays;
    - the template literals that build the prompts are kept as a [Prompt]
      value holding exactly the interpolated values;
    - React state is a record [AppState]; a handler is a closure over the
      values of one render (its snapshot) and acts on the store through the
      setters. *)

From Stdlib Require Import List String Ascii Arith ZArith Lia Bool.
From Stdlib Require Import Sorting.Sorted Sorting.Permutation.
From Equations Require Import Equations.
Import ListNotations.
Open Scope string_scope.
Open Scope list_scope.
Open Scope nat_scope.

Set Implicit Arguments.

(* ===================================================================== *)
(** ** JavaScript values used by the sources *)
(* ===================================================================== *)

(** An [Error] object; [status] is the HTTP status the SDK attaches to API
    errors and is absent ([None]) on every other error. *)
Record JsError := mkError { message : string; status : option nat }.

Definition Error (msg : string) : JsError := mkError msg None.

Inductive result (A : Type) : Type :=
| Ok (a : A)
| Throw (e : JsError).
Arguments Ok {A} a.
Arguments Throw {A} e.

(** [!s] on a string: only the empty string is falsy. An undefined
    environment variable is represented by the empty string, which is falsy
    as well. *)
Definition truthy (s : string) : bool := negb (String.eqb s "").

(** [a || b] on strings. *)
Definition orElse (a b : string) : string := if truthy a then a else b.

(** [s.startsWith(p)] *)
Definition startsWith (s p : string) : bool := String.prefix p s.

(** [s.split(sep)] for a one-character separator. *)
Fixpoint splitAcc (sep : ascii) (cur : string) (s : string) : list string :=
  match s with
  | EmptyString => [cur]
  | String c rest =>
      if Ascii.eqb c sep then cur :: splitAcc sep "" rest
      else splitAcc sep (cur ++ String c "")%string rest
  end.

Definition split (sep : ascii) (s : string) : list string := splitAcc sep "" s.

(** [/^\d/.test(s)] *)
Definition isDigit (c : ascii) : bool :=
  let n := nat_of_ascii c in (48 <=? n) && (n <=? 57).

Definition startsWithDigit (s : string) : bool :=
  match s with
  | EmptyString => false
  | String c _ => isDigit c
  end.

(** [Blob] and [File]: a file is a named blob; [webkitRelativePath] is set by
    the directory input and is empty on files made with [new File]. *)
Record Blob := mkBlob { blobType : string; blobData : string }.

Record File := mkFile {
  fileName : string;
  fileType : string;
  fileParts : list Blob;
  webkitRelativePath : string
}.

(** [new File(parts, name, {type})] *)
Definition newFile (parts : list Blob) (name type : string) : File :=
  mkFile name type parts "".

(* ===================================================================== *)
(** ** types.ts *)
(* ===================================================================== *)

Inductive ImageStatus := pending | processing_image | completed | failed.

Record ImageFile := mkImageFile {
  file : File;
  preview : string;
  istatus : ImageStatus;
  name : string;
  path : string;
  angle : option string
}.

Record Product := mkProduct {
  pname : string;
  images : list ImageFile;
  generatedImages : list ImageFile
}.

Record AngleConfig := mkAngle {
  aname : string;
  prompt : string;
  enabled : bool
}.

(* ===================================================================== *)
(** ** The browser and the remote API *)
(* ===================================================================== *)

(** The text sent to the model, by template and interpolated values. *)
Inductive Prompt :=
| AnglePrompt (productName : string) (referenceCount : nat)
              (angle productDescription : string) (targetWidth : nat)
| ImagenPrompt (productName angle productDescription : string)
| AllAnglesPrompt (productName : string) (referenceCount : nat)
                  (angles : list (string * string))
                  (productDescription : string) (targetWidth : nat).

(** Parts of a [generateContent] request. [data] is [result.split(',')[1]],
    which is undefined when the data URL has no comma. *)
Inductive Part :=
| InlineData (data : option string) (mimeType : string)
| Text (p : Prompt).

(** Parts of a [generateContent] response: [part.inlineData] is present with
    its [data], or the part is something else (text). *)
Inductive ResponsePart :=
| RInlineData (data : string)
| RText (t : string).

(** [generatedImage.image] of a [generateImages] response. *)
Inductive ImagenImage :=
| ImageString (s : string)
| ImageBlob (b : Blob)
| ImageOther.

(** A decoded image ([new Image()] after [onload]). *)
Record Bitmap := mkBitmap { naturalWidth : nat; naturalHeight : nat; pixels : string }.

(** [ctx.drawImage(img, dx, dy, dw, dh)] *)
Record DrawImage := mkDraw { src : Bitmap; dx : nat; dy : nat; dw : nat; dh : nat }.

Record Canvas := mkCanvas {
  width : nat;
  height : nat;
  imageSmoothingEnabled : bool;
  imageSmoothingQuality : string;
  drawn : list DrawImage
}.

Record Env := mkEnv {
  (** [import.meta.env.VITE_GEMINI_API_KEY], empty when undefined *)
  VITE_GEMINI_API_KEY : string;
  (** [ai.models.generateContent], by the number of remote calls made before;
      the answer is [response.candidates?.[0]?.content?.parts] *)
  generateContent : nat -> string -> list Part -> result (option (list ResponsePart));
  (** [ai.models.generateImages]; the answer is [response.generatedImages] *)
  generateImages : nat -> string -> Prompt -> result (option (list ImagenImage));
  (** [FileReader.readAsDataURL] on a file and on a blob *)
  readAsDataURL : File -> result string;
  readBlobAsDataURL : Blob -> result string;
  (** [img.src = url]: [Some] bitmap on [onload], [None] on [onerror] *)
  decodeImage : string -> option Bitmap;
  (** whether [canvas.getContext('2d')] returns a context *)
  getContext2d : bool;
  (** [canvas.toDataURL('image/png')] *)
  toDataURL : Canvas -> string;
  (** [fetch(url)] followed by [response.blob()] *)
  fetchBlob : string -> result Blob;
  (** [URL.createObjectURL] *)
  createObjectURL : File -> string;
  (** [a.localeCompare(b, undefined, {numeric: true, sensitivity: 'base'})] *)
  localeCompare : string -> string -> Z;
  (** whether the user clicks STOP while the n-th client call of the session
      is in flight *)
  stopClicked : nat -> bool
}.

(** What the client does on the network. *)
Inductive NetEvent :=
| GenerateContentCall (model : string) (parts : list Part)
| GenerateImagesCall (model : string) (p : Prompt)
| SetTimeout (ms : nat).

Record World := mkWorld { calls : nat; trace : list NetEvent }.

Definition isRemoteCall (ev : NetEvent) : bool :=
  match ev with
  | SetTimeout _ => false
  | _ => true
  end.

Definition delays (t : list NetEvent) : list nat :=
  flat_map (fun ev => match ev with SetTimeout ms => [ms] | _ => [] end) t.

Definition remoteCalls (t : list NetEvent) : nat :=
  List.length (filter isRemoteCall t).

(** The measure of the retry recursion: [retryCount < 3] guards every
    recursive call, which passes [retryCount + 1]. *)
Definition retriesLeft (k : nat) : nat := 3 - k.

(** [err.status >= 500 || err.status === 429]; both comparisons are false
    when [err.status] is undefined. *)
Definition retryableStatus (err : JsError) : bool :=
  match status err with
  | Some st => (500 <=? st) || (st =? 429)
  | None => false
  end.

Module Gemini.
Section Client.

Variable E : Env.

(** [model.startsWith('imagen-')] *)
Definition isImagenModel (model : string) : bool := startsWith model "imagen-".

Definition missingKeyError : JsError :=
  Error "API Key is required. Please enter your Gemini API key in the settings.".

Definition noImageError : JsError := Error "No image data returned from model.".

Definition noImagenImageError : JsError :=
  Error "No image data returned from Imagen model.".

Definition unexpectedFormatError : JsError :=
  Error "Unexpected image format from Imagen model.".

Definition loadImageError : JsError := Error "Failed to load image for resizing".

Definition canvasContextError : JsError := Error "Failed to get canvas context".

(** *** resizeBase64Image *)

Definition resizeBase64Image (base64Image : string) (targetSize : nat) : result string :=
  match decodeImage E base64Image with
  | None => Throw loadImageError
  | Some img =>
      if getContext2d E then
        Ok (toDataURL E
              (mkCanvas targetSize targetSize true "high"
                        [mkDraw img 0 0 targetSize targetSize]))
      else Throw canvasContextError
  end.

(** *** The remote calls, recorded in the world *)

Definition callGenerateContent (model : string) (parts : list Part) (w : World)
  : result (option (list ResponsePart)) * World :=
  (generateContent E (calls w) model parts,
   mkWorld (S (calls w)) (trace w ++ [GenerateContentCall model parts])).

Definition callGenerateImages (model : string) (p : Prompt) (w : World)
  : result (option (list ImagenImage)) * World :=
  (generateImages E (calls w) model p,
   mkWorld (S (calls w)) (trace w ++ [GenerateImagesCall model p])).

(** [await new Promise(resolve => setTimeout(resolve, delay))] *)
Definition setTimeout (delay : nat) (w : World) : World :=
  mkWorld (calls w) (trace w ++ [SetTimeout delay]).

(** *** Reading the reference files: [Promise.all(referenceFiles.map(...))] *)

Definition readPart (f : File) : result Part :=
  match readAsDataURL E f with
  | Throw e => Throw e
  | Ok dataUrl =>
      Ok (InlineData (nth_error (split "," dataUrl) 1) (orElse (fileType f) "image/png"))
  end.

Fixpoint readParts (files : list File) : result (list Part) :=
  match files with
  | [] => Ok []
  | f :: rest =>
      match readPart f with
      | Throw e => Throw e
      | Ok p =>
          match readParts rest with
          | Throw e => Throw e
          | Ok ps => Ok (p :: ps)
          end
      end
  end.

(** The loop over [candidate.content.parts] that keeps the data of the first
    part with [inlineData] and breaks. *)
Fixpoint firstInlineData (parts : list ResponsePart) : string :=
  match parts with
  | [] => ""
  | RInlineData data :: _ => data
  | RText _ :: rest => firstInlineData rest
  end.

Definition responseParts (r : option (list ResponsePart)) : list ResponsePart :=
  match r with
  | Some ps => ps
  | None => []
  end.

(** *** generateWithImagen *)

Definition tryGenerateWithImagen (productName productDescription angle model : string)
    (targetWidth : nat) (w : World) : result string * World :=
  let prompt := ImagenPrompt productName angle productDescription in
  let (response, w1) := callGenerateImages model prompt w in
  match response with
  | Throw e => (Throw e, w1)
  | Ok None => (Throw noImagenImageError, w1)
  | Ok (Some []) => (Throw noImagenImageError, w1)
  | Ok (Some (imageData :: _)) =>
      match imageData with
      | ImageString s =>
          if startsWith s "data:" then (resizeBase64Image s targetWidth, w1)
          else (Throw unexpectedFormatError, w1)
      | ImageBlob b =>
          match readBlobAsDataURL E b with
          | Throw e => (Throw e, w1)
          | Ok base64Image => (resizeBase64Image base64Image targetWidth, w1)
          end
      | ImageOther => (Throw unexpectedFormatError, w1)
      end
  end.

Equations? generateWithImagen (productName productDescription angle model : string)
    (targetWidth : nat) (apiKey : string) (retryCount : nat) (w : World)
  : result string * World by wf (retriesLeft retryCount) lt :=
  generateWithImagen productName productDescription angle model targetWidth apiKey retryCount w
    with truthy apiKey => {
    | false := (Throw missingKeyError, w);
    | true with tryGenerateWithImagen productName productDescription angle model targetWidth w => {
      | (Ok url, w1) := (Ok url, w1);
      | (Throw err, w1) with lt_dec retryCount 3 => {
        | left _ :=
            if retryableStatus err then
              generateWithImagen productName productDescription angle model targetWidth
                apiKey (S retryCount) (setTimeout (2 ^ retryCount * 1000) w1)
            else (Throw err, w1);
        | right _ := (Throw err, w1) } } }.
Proof. unfold retriesLeft. lia. Qed.

(** *** generateProductAngle *)

Definition tryGenerateProductAngle (referenceFiles : list File)
    (productName productDescription angle model : string) (targetWidth : nat)
    (w : World) : result string * World :=
  match readParts referenceFiles with
  | Throw e => (Throw e, w)
  | Ok imageParts =>
      let prompt :=
        AnglePrompt productName (List.length referenceFiles) angle productDescription targetWidth in
      let (response, w1) := callGenerateContent model (imageParts ++ [Text prompt]) w in
      match response with
      | Throw e => (Throw e, w1)
      | Ok candidateParts =>
          let resultBase64 := firstInlineData (responseParts candidateParts) in
          if truthy resultBase64 then
            (resizeBase64Image ("data:image/png;base64," ++ resultBase64)%string targetWidth, w1)
          else (Throw noImageError, w1)
      end
  end.

Equations? generateProductAngle (referenceFiles : list File)
    (productName productDescription angle model : string) (targetWidth : nat)
    (apiKey : string) (retryCount : nat) (w : World)
  : result string * World by wf (retriesLeft retryCount) lt :=
  generateProductAngle referenceFiles productName productDescription angle model targetWidth
      apiKey retryCount w
    with truthy (orElse apiKey (VITE_GEMINI_API_KEY E)) => {
    | false := (Throw missingKeyError, w);
    | true with isImagenModel model => {
      | true :=
          generateWithImagen productName productDescription angle model targetWidth
            (orElse apiKey (VITE_GEMINI_API_KEY E)) retryCount w;
      | false with tryGenerateProductAngle referenceFiles productName productDescription
                     angle model targetWidth w => {
        | (Ok url, w1) := (Ok url, w1);
        | (Throw err, w1) with lt_dec retryCount 3 => {
          | left _ :=
              if retryableStatus err then
                generateProductAngle referenceFiles productName productDescription angle
                  model targetWidth (orElse apiKey (VITE_GEMINI_API_KEY E)) (S retryCount)
                  (setTimeout (2 ^ retryCount * 1000) w1)
              else (Throw err, w1);
          | right _ := (Throw err, w1) } } } }.
Proof. unfold retriesLeft. lia. Qed.

(** *** generateAllProductAngles *)

(** The loop over the response parts: every part with [inlineData] is resized
    and pushed; a failing resize rejects the whole call. *)
Fixpoint extractImages (parts : list ResponsePart) (targetWidth : nat)
    (resultImages : list string) : result (list string) :=
  match parts with
  | [] => Ok resultImages
  | RInlineData data :: rest =>
      match resizeBase64Image ("data:image/png;base64," ++ data)%string targetWidth with
      | Throw e => Throw e
      | Ok resizedImage => extractImages rest targetWidth (resultImages ++ [resizedImage])
      end
  | RText _ :: rest => extractImages rest targetWidth resultImages
  end.

(** [resultImages[resultImages.length - 1]]; the array is not empty where
    the source reads it (the empty case has thrown before). *)
Definition lastImage (resultImages : list string) : string := List.last resultImages "".

Definition missingImages (n : nat) (resultImages : list string) : nat :=
  n - List.length resultImages.

(** [while (resultImages.length < angles.length) resultImages.push(last)] *)
Equations? padWithLast (resultImages : list string) (n : nat) : list string
  by wf (missingImages n resultImages) lt :=
  padWithLast resultImages n with lt_dec (List.length resultImages) n => {
    | left _ := padWithLast (resultImages ++ [lastImage resultImages]) n;
    | right _ := resultImages }.
Proof. unfold missingImages. rewrite length_app. cbn [List.length]. lia. Qed.

(** From the check for an empty result to [return resultImages.slice(0, n)]. *)
Definition completeImages (resultImages : list string) (n : nat) : result (list string) :=
  if List.length resultImages =? 0 then Throw noImageError
  else
    let resultImages1 :=
      if List.length resultImages <? n then padWithLast resultImages n else resultImages in
    Ok (firstn n resultImages1).

Definition tryGenerateAllProductAngles (referenceFiles : list File)
    (productName productDescription : string) (angles : list (string * string))
    (model : string) (targetWidth : nat) (w : World) : result (list string) * World :=
  match readParts referenceFiles with
  | Throw e => (Throw e, w)
  | Ok imageParts =>
      let prompt :=
        AllAnglesPrompt productName (List.length referenceFiles) angles productDescription
          targetWidth in
      let (response, w1) := callGenerateContent model (imageParts ++ [Text prompt]) w in
      match response with
      | Throw e => (Throw e, w1)
      | Ok candidateParts =>
          match extractImages (responseParts candidateParts) targetWidth [] with
          | Throw e => (Throw e, w1)
          | Ok resultImages => (completeImages resultImages (List.length angles), w1)
          end
      end
  end.

Equations? generateAllProductAngles (referenceFiles : list File)
    (productName productDescription : string) (angles : list (string * string))
    (model : string) (targetWidth : nat) (apiKey : string) (retryCount : nat) (w : World)
  : result (list string) * World by wf (retriesLeft retryCount) lt :=
  generateAllProductAngles referenceFiles productName productDescription angles model
      targetWidth apiKey retryCount w
    with truthy (orElse apiKey (VITE_GEMINI_API_KEY E)) => {
    | false := (Throw missingKeyError, w);
    | true with tryGenerateAllProductAngles referenceFiles productName productDescription
                  angles model targetWidth w => {
      | (Ok urls, w1) := (Ok urls, w1);
      | (Throw err, w1) with lt_dec retryCount 3 => {
        | left _ :=
            if retryableStatus err then
              generateAllProductAngles referenceFiles productName productDescription angles
                model targetWidth (orElse apiKey (VITE_GEMINI_API_KEY E)) (S retryCount)
                (setTimeout (2 ^ retryCount * 1000) w1)
            else (Throw err, w1);
        | right _ := (Throw err, w1) } } }.
Proof. unfold retriesLeft. lia. Qed.

(** *** transformImage *)

(** [prompt] is the text of the caller, carried like every text part. *)
Definition tryTransformImage (file : File) (prompt : Prompt) (model : string) (w : World)
  : result string * World :=
  match readAsDataURL E file with
  | Throw e => (Throw e, w)
  | Ok dataUrl =>
      let base64Data := nth_error (split "," dataUrl) 1 in
      let (response, w1) :=
        callGenerateContent model
          [InlineData base64Data (orElse (fileType file) "image/png"); Text prompt] w in
      match response with
      | Throw e => (Throw e, w1)
      | Ok candidateParts =>
          let resultBase64 := firstInlineData (responseParts candidateParts) in
          if truthy resultBase64 then
            (resizeBase64Image ("data:image/png;base64," ++ resultBase64)%string 800, w1)
          else (Throw noImageError, w1)
      end
  end.

Equations? transformImage (file : File) (prompt : Prompt) (model : string)
    (apiKey : string) (retryCount : nat) (w : World)
  : result string * World by wf (retriesLeft retryCount) lt :=
  transformImage file prompt model apiKey retryCount w
    with truthy (orElse apiKey (VITE_GEMINI_API_KEY E)) => {
    | false := (Throw missingKeyError, w);
    | true with tryTransformImage file prompt model w => {
      | (Ok url, w1) := (Ok url, w1);
      | (Throw err, w1) with lt_dec retryCount 3 => {
        | left _ :=
            if retryableStatus err then
              transformImage file prompt model (orElse apiKey (VITE_GEMINI_API_KEY E))
                (S retryCount) (setTimeout (2 ^ retryCount * 1000) w1)
            else (Throw err, w1);
        | right _ := (Throw err, w1) } } }.
Proof. unfold retriesLeft. lia. Qed.

End Client.
End Gemini.

(* ===================================================================== *)
(** ** The earlier revision of the client

    [generateProductAngle] as it stood before the API key became a parameter
    and before [resizeBase64Image] existed: the key is read from the build
    environment only and the image of the model is returned as received. The
    retry logic is the same. *)
(* ===================================================================== *)

Module GeminiLegacy.
Section Client.

Variable E : Env.

Definition missingEnvKeyError : JsError :=
  Error "VITE_GEMINI_API_KEY is not defined in environment variables".

Definition tryGenerateWithImagen (productName productDescription angle model : string)
    (w : World) : result string * World :=
  let prompt := ImagenPrompt productName angle productDescription in
  let (response, w1) := Gemini.callGenerateImages E model prompt w in
  match response with
  | Throw e => (Throw e, w1)
  | Ok None => (Throw Gemini.noImagenImageError, w1)
  | Ok (Some []) => (Throw Gemini.noImagenImageError, w1)
  | Ok (Some (imageData :: _)) =>
      match imageData with
      | ImageString s =>
          if startsWith s "data:" then (Ok s, w1)
          else (Throw Gemini.unexpectedFormatError, w1)
      | ImageBlob b => (readBlobAsDataURL E b, w1)
      | ImageOther => (Throw Gemini.unexpectedFormatError, w1)
      end
  end.

Equations? generateWithImagen (productName productDescription angle model : string)
    (targetWidth : nat) (retryCount : nat) (w : World)
  : result string * World by wf (retriesLeft retryCount) lt :=
  generateWithImagen productName productDescription angle model targetWidth retryCount w
    with truthy (VITE_GEMINI_API_KEY E) => {
    | false := (Throw missingEnvKeyError, w);
    | true with tryGenerateWithImagen productName productDescription angle model w => {
      | (Ok url, w1) := (Ok url, w1);
      | (Throw err, w1) with lt_dec retryCount 3 => {
        | left _ :=
            if retryableStatus err then
              generateWithImagen productName productDescription angle model targetWidth
                (S retryCount) (Gemini.setTimeout (2 ^ retryCount * 1000) w1)
            else (Throw err, w1);
        | right _ := (Throw err, w1) } } }.
Proof. unfold retriesLeft. lia. Qed.

Definition tryGenerateProductAngle (referenceFiles : list File)
    (productName productDescription angle model : string) (targetWidth : nat)
    (w : World) : result string * World :=
  match Gemini.readParts E referenceFiles with
  | Throw e => (Throw e, w)
  | Ok imageParts =>
      let prompt :=
        AnglePrompt productName (List.length referenceFiles) angle productDescription targetWidth in
      let (response, w1) := Gemini.callGenerateContent E model (imageParts ++ [Text prompt]) w in
      match response with
      | Throw e => (Throw e, w1)
      | Ok candidateParts =>
          let resultBase64 := Gemini.firstInlineData (Gemini.responseParts candidateParts) in
          if truthy resultBase64 then
            (Ok ("data:image/png;base64," ++ resultBase64)%string, w1)
          else (Throw Gemini.noImageError, w1)
      end
  end.

Equations? generateProductAngle (referenceFiles : list File)
    (productName productDescription angle model : string) (targetWidth : nat)
    (retryCount : nat) (w : World)
  : result string * World by wf (retriesLeft retryCount) lt :=
  generateProductAngle referenceFiles productName productDescription angle model targetWidth
      retryCount w
    with truthy (VITE_GEMINI_API_KEY E) => {
    | false := (Throw missingEnvKeyError, w);
    | true with Gemini.isImagenModel model => {
      | true :=
          generateWithImagen productName productDescription angle model targetWidth
            retryCount w;
      | false with tryGenerateProductAngle referenceFiles productName productDescription
                     angle model targetWidth w => {
        | (Ok url, w1) := (Ok url, w1);
        | (Throw err, w1) with lt_dec retryCount 3 => {
          | left _ :=
              if retryableStatus err then
                generateProductAngle referenceFiles productName productDescription angle
                  model targetWidth (S retryCount)
                  (Gemini.setTimeout (2 ^ retryCount * 1000) w1)
              else (Throw err, w1);
          | right _ := (Throw err, w1) } } } }.
Proof. unfold retriesLeft. lia. Qed.

End Client.
End GeminiLegacy.

(* ===================================================================== *)
(** ** App.tsx: state *)
(* ===================================================================== *)

Inductive AppStatus := StatusIdle | StatusProcessing | StatusCompleted | StatusError.

Inductive Severity := info | success | error | warning.

(** The messages of the activity log, by template and interpolated values.
    The [time] field of an entry and the measured duration of a request come
    from the wall clock and are left out. *)
Inductive LogMessage :=
| LogLoaded (count : nat)
| LogStarting
| LogProcessingProduct (productName : string)
| LogApiRequest (requestNum : nat) (angleName : string)
| LogAngleCompleted (angleName : string)
| LogAngleFailed (angleName errMessage : string)
| LogStopRequested
| LogStopped
| LogTotalRequests (totalRequests : nat)
| LogAllCompleted.

Record LogEntry := mkLog { logMessage : LogMessage; logType : Severity }.

Inductive ApiStatus :=
| ApiStatusEmpty
| ApiGenerating (angleName productName : string)
| ApiStoppedByUser
| ApiCompleted.

(** The [useState] cells of [App]. *)
Record AppState := mkAppState {
  products : list Product;
  currentProductIndex : nat;
  appStatus : AppStatus;
  errorText : string;
  apiKey : string;
  productDescription : string;
  angles : list AngleConfig;
  modelName : string;
  targetWidth : nat;
  batchSize : nat;
  totalAnglesProcessed : nat;
  totalAnglesToProcess : nat;
  apiRequestCount : nat;
  stopRequested : bool;
  currentApiStatus : ApiStatus;
  activityLog : list LogEntry
}.

(** One call of the generation client, as the orchestrator issued it. *)
Record ClientCall := mkCall { callProduct : string; callAngle : string; callKey : string }.

(** What a running handler acts on: the React store, the network, and the
    record of the client calls it has awaited. *)
Record Run := mkRun {
  store : AppState;
  world : World;
  clientCalls : list ClientCall
}.

Module App.

(** *** Setters *)

Definition setProducts (v : list Product) (s : AppState) : AppState :=
  mkAppState v (currentProductIndex s) (appStatus s) (errorText s) (apiKey s)
    (productDescription s) (angles s) (modelName s) (targetWidth s) (batchSize s)
    (totalAnglesProcessed s) (totalAnglesToProcess s) (apiRequestCount s)
    (stopRequested s) (currentApiStatus s) (activityLog s).

Definition setCurrentProductIndex (v : nat) (s : AppState) : AppState :=
  mkAppState (products s) v (appStatus s) (errorText s) (apiKey s)
    (productDescription s) (angles s) (modelName s) (targetWidth s) (batchSize s)
    (totalAnglesProcessed s) (totalAnglesToProcess s) (apiRequestCount s)
    (stopRequested s) (currentApiStatus s) (activityLog s).

Definition setStatus (v : AppStatus) (s : AppState) : AppState :=
  mkAppState (products s) (currentProductIndex s) v (errorText s) (apiKey s)
    (productDescription s) (angles s) (modelName s) (targetWidth s) (batchSize s)
    (totalAnglesProcessed s) (totalAnglesToProcess s) (apiRequestCount s)
    (stopRequested s) (currentApiStatus s) (activityLog s).

Definition setError (v : string) (s : AppState) : AppState :=
  mkAppState (products s) (currentProductIndex s) (appStatus s) v (apiKey s)
    (productDescription s) (angles s) (modelName s) (targetWidth s) (batchSize s)
    (totalAnglesProcessed s) (totalAnglesToProcess s) (apiRequestCount s)
    (stopRequested s) (currentApiStatus s) (activityLog s).

(** [setTotalAnglesProcessed(prev => f(prev))]; a plain value is the constant
    function. *)
Definition setTotalAnglesProcessed (f : nat -> nat) (s : AppState) : AppState :=
  mkAppState (products s) (currentProductIndex s) (appStatus s) (errorText s) (apiKey s)
    (productDescription s) (angles s) (modelName s) (targetWidth s) (batchSize s)
    (f (totalAnglesProcessed s)) (totalAnglesToProcess s) (apiRequestCount s)
    (stopRequested s) (currentApiStatus s) (activityLog s).

Definition setTotalAnglesToProcess (v : nat) (s : AppState) : AppState :=
  mkAppState (products s) (currentProductIndex s) (appStatus s) (errorText s) (apiKey s)
    (productDescription s) (angles s) (modelName s) (targetWidth s) (batchSize s)
    (totalAnglesProcessed s) v (apiRequestCount s)
    (stopRequested s) (currentApiStatus s) (activityLog s).

Definition setApiRequestCount (f : nat -> nat) (s : AppState) : AppState :=
  mkAppState (products s) (currentProductIndex s) (appStatus s) (errorText s) (apiKey s)
    (productDescription s) (angles s) (modelName s) (targetWidth s) (batchSize s)
    (totalAnglesProcessed s) (totalAnglesToProcess s) (f (apiRequestCount s))
    (stopRequested s) (currentApiStatus s) (activityLog s).

Definition setStopRequested (v : bool) (s : AppState) : AppState :=
  mkAppState (products s) (currentProductIndex s) (appStatus s) (errorText s) (apiKey s)
    (productDescription s) (angles s) (modelName s) (targetWidth s) (batchSize s)
    (totalAnglesProcessed s) (totalAnglesToProcess s) (apiRequestCount s)
    v (currentApiStatus s) (activityLog s).

Definition setCurrentApiStatus (v : ApiStatus) (s : AppState) : AppState :=
  mkAppState (products s) (currentProductIndex s) (appStatus s) (errorText s) (apiKey s)
    (productDescription s) (angles s) (modelName s) (targetWidth s) (batchSize s)
    (totalAnglesProcessed s) (totalAnglesToProcess s) (apiRequestCount s)
    (stopRequested s) v (activityLog s).

Definition setActivityLog (f : list LogEntry -> list LogEntry) (s : AppState) : AppState :=
  mkAppState (products s) (currentProductIndex s) (appStatus s) (errorText s) (apiKey s)
    (productDescription s) (angles s) (modelName s) (targetWidth s) (batchSize s)
    (totalAnglesProcessed s) (totalAnglesToProcess s) (apiRequestCount s)
    (stopRequested s) (currentApiStatus s) (f (activityLog s)).

(** [prev.slice(-n)]: the last [n] elements. *)
Definition sliceLast {A : Type} (n : nat) (l : list A) : list A :=
  skipn (List.length l - n) l.

(** [arr.slice(start, end)] for [0 <= start] and [0 <= end]. *)
Definition slice {A : Type} (start stop : nat) (l : list A) : list A :=
  firstn (stop - start) (skipn start l).

(** [addLog]: keeps the last ten entries and appends the new one. *)
Definition addLog (msg : LogMessage) (type : Severity) (s : AppState) : AppState :=
  setActivityLog (fun prev => sliceLast 10 prev ++ [mkLog msg type]) s.

(** The [onClick] of the STOP button. *)
Definition handleStopClick (s : AppState) : AppState :=
  addLog LogStopRequested warning (setStopRequested true s).

(** *** The handler monad: state passing over [Run] *)

Definition M (A : Type) : Type := Run -> A * Run.

Definition ret {A : Type} (a : A) : M A := fun run => (a, run).

Definition bind {A B : Type} (c : M A) (k : A -> M B) : M B :=
  fun run => let (a, run1) := c run in k a run1.

(** A setter call. *)
Definition set (f : AppState -> AppState) : M unit :=
  fun run => (tt, mkRun (f (store run)) (world run) (clientCalls run)).

Declare Scope handler_scope.
Delimit Scope handler_scope with handler.
Notation "x <- c ;; k" := (bind c (fun x => k))
  (at level 61, c at next level, right associativity) : handler_scope.
Notation "c ;; k" := (bind c (fun _ => k))
  (at level 61, right associativity) : handler_scope.
Open Scope handler_scope.

(** An early [return] out of the loops of a handler. *)
Inductive Flow (A : Type) : Type :=
| Continue (a : A)
| Return.
Arguments Continue {A} a.
Arguments Return {A}.

Section Handlers.

Variable E : Env.

(** *** handleSelectFolder *)

(** A JavaScript [Map] with string keys: insertion order is iteration
    order, and [set] on a present key keeps the key's place. *)
Definition JsMap (V : Type) : Type := list (string * V).

Fixpoint mapHas {V : Type} (k : string) (m : JsMap V) : bool :=
  match m with
  | [] => false
  | (k1, _) :: rest => if String.eqb k1 k then true else mapHas k rest
  end.

Fixpoint mapGet {V : Type} (k : string) (m : JsMap V) : option V :=
  match m with
  | [] => None
  | (k1, v) :: rest => if String.eqb k1 k then Some v else mapGet k rest
  end.

Fixpoint mapSet {V : Type} (k : string) (v : V) (m : JsMap V) : JsMap V :=
  match m with
  | [] => [(k, v)]
  | (k1, v1) :: rest =>
      if String.eqb k1 k then (k1, v) :: rest else (k1, v1) :: mapSet k v rest
  end.

(** [if (!m.has(k)) m.set(k, init); m.get(k)!] followed by an update in place
    of the value found. *)
Definition mapUpdate {V : Type} (k : string) (init : V) (f : V -> V) (m : JsMap V) : JsMap V :=
  let m1 := if mapHas k m then m else mapSet k init m in
  match mapGet k m1 with
  | Some v => mapSet k (f v) m1
  | None => m1
  end.

(** The body of [for (const file of files)]. *)
Definition addFile (folderMap : JsMap (JsMap (list File))) (f : File)
  : JsMap (JsMap (list File)) :=
  if negb (startsWith (fileType f) "image/") then folderMap
  else
    let pathParts := split "/" (webkitRelativePath f) in
    if List.length pathParts <? 2 then folderMap
    else
      let productName := nth 1 pathParts "" in
      let hasSubfolder := 3 <? List.length pathParts in
      let key := if hasSubfolder then nth 2 pathParts "" else "default" in
      mapUpdate productName [] (mapUpdate key [] (fun fs => fs ++ [f])) folderMap.

Definition toImageFile (f : File) : ImageFile :=
  mkImageFile f (createObjectURL E f) pending (fileName f) (webkitRelativePath f) None.

Definition groupName (productName colorName : string) : string :=
  if String.eqb colorName "default" then productName
  else (productName ++ " - " ++ colorName)%string.

(** The two nested loops that build [productsList]. *)
Definition colorGroups (productName : string) (colorMap : JsMap (list File)) : list Product :=
  flat_map
    (fun entry : string * list File =>
       let (colorName, files) := entry in
       let images := map toImageFile files in
       if 0 <? List.length images
       then [mkProduct (groupName productName colorName) images []]
       else [])
    colorMap.

Definition buildProductsList (folderMap : JsMap (JsMap (list File))) : list Product :=
  flat_map
    (fun entry : string * JsMap (list File) =>
       let (productName, colorMap) := entry in colorGroups productName colorMap)
    folderMap.

(** The comparator of [productsList.sort]. *)
Definition compareProducts (a b : Product) : Z :=
  let aStartsWithNumber := startsWithDigit (pname a) in
  let bStartsWithNumber := startsWithDigit (pname b) in
  if aStartsWithNumber && negb bStartsWithNumber then (-1)%Z
  else if negb aStartsWithNumber && bStartsWithNumber then 1%Z
  else localeCompare E (pname a) (pname b).

(** [Array.prototype.sort]: a stable sort by the comparator. Elements are
    taken from left to right and each is placed after the elements that do
    not compare greater than it. *)
Fixpoint sortInsert {A : Type} (cmp : A -> A -> Z) (x : A) (sorted : list A) : list A :=
  match sorted with
  | [] => [x]
  | y :: rest =>
      if (cmp x y <? 0)%Z then x :: y :: rest else y :: sortInsert cmp x rest
  end.

Definition jsSort {A : Type} (cmp : A -> A -> Z) (l : list A) : list A :=
  fold_left (fun sorted x => sortInsert cmp x sorted) l [].

Definition scanFolder (files : list File) : list Product :=
  jsSort compareProducts (buildProductsList (fold_left addFile files [])).

(** [input.onchange] of [handleSelectFolder], given [target.files]. *)
Definition handleSelectFolder (files : list File) : M unit :=
  if List.length files =? 0 then ret tt
  else
    set (setStatus StatusProcessing) ;;
    set (setError "Processing files...") ;;
    let productsList := scanFolder files in
    set (setProducts productsList) ;;
    set (setCurrentProductIndex 0) ;;
    set (setStatus StatusIdle) ;;
    set (setError "") ;;
    set (addLog (LogLoaded (List.length productsList)) success).

(** *** The generation loops *)

(** The handlers are closures made by one call of [App()]: a name such as
    [stopRequested], [apiKey] or [apiRequestCount] in their body is the
    [const] that this call destructured from [useState], and keeps its value
    for as long as the handler runs, across every [await]. The handlers
    below take these values as [r]. What a setter writes goes to the store
    and is seen by the next render, that is by the handlers created after
    it; the functional setters ([prev => ...]) read the store.

    [await generateProductAngle(...)]: the call runs on the network; while
    it is in flight the page stays live, so a click on STOP is handled then
    and reaches the store. *)
Definition awaitGenerateProductAngle (referenceFiles : list File)
    (productName description anglePrompt model : string) (width : nat) (key : string)
  : M (result string) :=
  fun run =>
    let n := List.length (clientCalls run) in
    let (res, w1) :=
      Gemini.generateProductAngle E referenceFiles productName description anglePrompt
        model width key 0 (world run) in
    let store1 := if stopClicked E n then handleStopClick (store run) else store run in
    (res, mkRun store1 w1 (clientCalls run ++ [mkCall productName anglePrompt key])).

Definition completedImage (product : Product) (a : AngleConfig) (blob : Blob)
    (blobUrl : string) : ImageFile :=
  mkImageFile (newFile [blob] (aname a ++ ".png")%string "image/png") blobUrl completed
    (aname a ++ ".png")%string (pname product ++ "/" ++ aname a ++ ".png")%string
    (Some (aname a)).

Definition failedImage (product : Product) (a : AngleConfig) : ImageFile :=
  mkImageFile (newFile [] (aname a ++ ".png")%string "") "" failed
    (aname a ++ ".png")%string (pname product ++ "/" ++ aname a ++ ".png")%string
    (Some (aname a)).

(** The four setter calls made when the stop flag is seen set. *)
Definition stopBatch : M unit :=
  set (addLog LogStopped warning) ;;
  set (setStatus StatusCompleted) ;;
  set (setCurrentApiStatus ApiStoppedByUser) ;;
  set (setStopRequested false).

(** [handleGenerateBatch]: the [catch] block of one angle. *)
Definition catchBatch (product : Product) (a : AngleConfig) (err : JsError)
    (generatedImages : list ImageFile) : M (list ImageFile) :=
  set (setApiRequestCount (fun prev => prev + 1)) ;;
  set (addLog (LogAngleFailed (aname a) (message err)) error) ;;
  set (setTotalAnglesProcessed (fun prev => prev + 1)) ;;
  ret (generatedImages ++ [failedImage product a]).

(** [handleGenerateBatch]: the [try]/[catch] of one angle. [r] holds the
    values the handler closed over when it was created. *)
Definition generateAngleBatch (r : AppState) (product : Product) (a : AngleConfig)
    (generatedImages : list ImageFile) : M (list ImageFile) :=
  let requestNum := apiRequestCount r + 1 in
  set (setCurrentApiStatus (ApiGenerating (aname a) (pname product))) ;;
  set (addLog (LogApiRequest requestNum (aname a)) info) ;;
  res <- awaitGenerateProductAngle (map file (images product)) (pname product)
           (orElse (productDescription r) "A high-quality product") (prompt a)
           (modelName r) (targetWidth r) (apiKey r) ;;
  match res with
  | Throw err => catchBatch product a err generatedImages
  | Ok blobUrl =>
      set (setApiRequestCount (fun prev => prev + 1)) ;;
      set (addLog (LogAngleCompleted (aname a)) success) ;;
      match fetchBlob E blobUrl with
      | Throw err => catchBatch product a err generatedImages
      | Ok blob =>
          set (setTotalAnglesProcessed (fun prev => prev + 1)) ;;
          ret (generatedImages ++ [completedImage product a blob blobUrl])
      end
  end.

(** [for (const angle of enabledAngles)] of [handleGenerateBatch]. *)
Fixpoint angleLoopBatch (r : AppState) (product : Product) (enabledAngles : list AngleConfig)
    (generatedImages : list ImageFile) : M (Flow (list ImageFile)) :=
  match enabledAngles with
  | [] => ret (Continue generatedImages)
  | a :: rest =>
      if stopRequested r then stopBatch ;; ret Return
      else
        generatedImages1 <- generateAngleBatch r product a generatedImages ;;
        angleLoopBatch r product rest generatedImages1
  end.

(** [updatedProducts[productIndex].generatedImages = generatedImages]. The
    index is always in range: it is below [endIndex <= products.length]. *)
Fixpoint setGeneratedImages (productIndex : nat) (generated : list ImageFile)
    (updatedProducts : list Product) : list Product :=
  match updatedProducts, productIndex with
  | [], _ => []
  | p :: rest, 0 => mkProduct (pname p) (images p) generated :: rest
  | p :: rest, S k => p :: setGeneratedImages k generated rest
  end.

(** [for (let i = 0; i < productsToProcess.length; i++)] of
    [handleGenerateBatch]; [todo] is what is left of [productsToProcess]
    from index [i] on. The product objects of [updatedProducts] are those of
    the state, and the new array is handed to [setProducts] right after each
    assignment. *)
Fixpoint productLoopBatch (r : AppState) (enabledAngles : list AngleConfig)
    (startIndex i : nat) (todo : list Product) (updatedProducts : list Product)
  : M (Flow (list Product)) :=
  match todo with
  | [] => ret (Continue updatedProducts)
  | product :: rest =>
      if stopRequested r then stopBatch ;; ret Return
      else
        set (addLog (LogProcessingProduct (pname product)) info) ;;
        flow <- angleLoopBatch r product enabledAngles [] ;;
        match flow with
        | Return => ret Return
        | Continue generatedImages =>
            let updatedProducts1 :=
              setGeneratedImages (startIndex + i) generatedImages updatedProducts in
            set (setProducts updatedProducts1) ;;
            productLoopBatch r enabledAngles startIndex (S i) rest updatedProducts1
        end
  end.

Definition enabledAnglesOf (r : AppState) : list AngleConfig := filter enabled (angles r).

(** [products.slice(startIndex, Math.min(startIndex + batchSize, products.length))] *)
Definition productsToProcess (r : AppState) : list Product :=
  let startIndex := currentProductIndex r in
  let endIndex := Nat.min (startIndex + batchSize r) (List.length (products r)) in
  slice startIndex endIndex (products r).

(** [handleGenerateBatch] from [setStatus('processing')] to the first
    [addLog]: what happens before the loop is entered. *)
Definition startBatch (r : AppState) : M unit :=
  set (setStatus StatusProcessing) ;;
  set (setError "") ;;
  let totalAngles := List.length (productsToProcess r) * List.length (enabledAnglesOf r) in
  set (setTotalAnglesToProcess totalAngles) ;;
  set (setTotalAnglesProcessed (fun _ => 0)) ;;
  set (setApiRequestCount (fun _ => 0)) ;;
  set (setActivityLog (fun _ => [])) ;;
  set (addLog LogStarting info).

Definition handleGenerateBatch (r : AppState) : M unit :=
  if List.length (products r) =? 0 then ret tt
  else
    startBatch r ;;
    flow <- productLoopBatch r (enabledAnglesOf r) (currentProductIndex r) 0
              (productsToProcess r) (products r) ;;
    match flow with
    | Return => ret tt
    | Continue _ =>
        let totalRequests := apiRequestCount r + List.length (productsToProcess r) in
        set (addLog (LogTotalRequests totalRequests) success) ;;
        set (addLog LogAllCompleted success) ;;
        set (setCurrentApiStatus ApiCompleted) ;;
        set (setStatus StatusCompleted)
    end.

(** *** handleGenerateAll *)

Definition stopAll : M unit :=
  set (addLog LogStopped warning) ;;
  set (setStatus StatusCompleted) ;;
  set (setStopRequested false).

Definition catchAll (product : Product) (a : AngleConfig)
    (generatedImages : list ImageFile) : M (list ImageFile) :=
  set (setTotalAnglesProcessed (fun prev => prev + 1)) ;;
  ret (generatedImages ++ [failedImage product a]).

Definition generateAngleAll (r : AppState) (product : Product) (a : AngleConfig)
    (generatedImages : list ImageFile) : M (list ImageFile) :=
  res <- awaitGenerateProductAngle (map file (images product)) (pname product)
           (orElse (productDescription r) "A high-quality product") (prompt a)
           (modelName r) (targetWidth r) (apiKey r) ;;
  match res with
  | Throw _ => catchAll product a generatedImages
  | Ok blobUrl =>
      match fetchBlob E blobUrl with
      | Throw _ => catchAll product a generatedImages
      | Ok blob =>
          set (setTotalAnglesProcessed (fun prev => prev + 1)) ;;
          ret (generatedImages ++ [completedImage product a blob blobUrl])
      end
  end.

Fixpoint angleLoopAll (r : AppState) (product : Product) (enabledAngles : list AngleConfig)
    (generatedImages : list ImageFile) : M (Flow (list ImageFile)) :=
  match enabledAngles with
  | [] => ret (Continue generatedImages)
  | a :: rest =>
      if stopRequested r then stopAll ;; ret Return
      else
        generatedImages1 <- generateAngleAll r product a generatedImages ;;
        angleLoopAll r product rest generatedImages1
  end.

(** [for (let productIndex = 0; productIndex < updatedProducts.length; ...)];
    [todo] is [updatedProducts] from [productIndex] on, as it was on entry:
    the loop reads [name] and [images] only, which are never assigned. *)
Fixpoint productLoopAll (r : AppState) (enabledAngles : list AngleConfig)
    (productIndex : nat) (todo : list Product) (updatedProducts : list Product)
  : M (Flow (list Product)) :=
  match todo with
  | [] => ret (Continue updatedProducts)
  | product :: rest =>
      if stopRequested r then stopAll ;; ret Return
      else
        flow <- angleLoopAll r product enabledAngles [] ;;
        match flow with
        | Return => ret Return
        | Continue generatedImages =>
            let updatedProducts1 :=
              setGeneratedImages productIndex generatedImages updatedProducts in
            set (setProducts updatedProducts1) ;;
            productLoopAll r enabledAngles (S productIndex) rest updatedProducts1
        end
  end.

Definition handleGenerateAll (r : AppState) : M unit :=
  if List.length (products r) =? 0 then ret tt
  else
    set (setStatus StatusProcessing) ;;
    set (setError "") ;;
    let totalAngles := List.length (products r) * List.length (enabledAnglesOf r) in
    set (setTotalAnglesToProcess totalAngles) ;;
    set (setTotalAnglesProcessed (fun _ => 0)) ;;
    flow <- productLoopAll r (enabledAnglesOf r) 0 (products r) (products r) ;;
    match flow with
    | Return => ret tt
    | Continue _ => set (setStatus StatusCompleted)
    end.

End Handlers.

(** *** The selection of generated images

    [selectedImages] is a [Map] from product names to [Set]s of image names.
    It is a cell of its own, read by the downloads and written by
    [handleToggleImageSelection] only; the functions below take it as an
    argument. *)

(** A JavaScript [Set] of strings: insertion order is iteration order. *)
Definition JsSet : Type := list string.

Definition setHas (x : string) (s : JsSet) : bool := existsb (String.eqb x) s.

Definition setAdd (x : string) (s : JsSet) : JsSet := if setHas x s then s else s ++ [x].

Definition setDelete (x : string) (s : JsSet) : JsSet :=
  filter (fun y => negb (String.eqb y x)) s.

Definition setSize (s : JsSet) : nat := List.length s.

(** [m.delete(k)] *)
Definition mapDelete {V : Type} (k : string) (m : JsMap V) : JsMap V :=
  filter (fun entry => negb (String.eqb (fst entry) k)) m.

(** The updater that [handleToggleImageSelection] hands to
    [setSelectedImages], applied to [prev]. *)
Definition handleToggleImageSelection (productName imageName : string) (prev : JsMap JsSet)
  : JsMap JsSet :=
  let newMap := prev in
  let productSelections :=
    match mapGet productName newMap with
    | Some s => s
    | None => []
    end in
  let productSelections1 :=
    if setHas imageName productSelections then setDelete imageName productSelections
    else setAdd imageName productSelections in
  if setSize productSelections1 =? 0 then mapDelete productName newMap
  else mapSet productName productSelections1 newMap.

(** [selectedImages.get(currentProduct.name)?.has(img.name) || false], the
    [isSelected] of an [ImageCard]. *)
Definition isSelected (selectedImages : JsMap JsSet) (productName imageName : string) : bool :=
  match mapGet productName selectedImages with
  | Some productSelections => setHas imageName productSelections
  | None => false
  end.

(** *** The angles *)

Definition DEFAULT_ANGLES : list AngleConfig :=
  [mkAngle "Front" "Front view of the product" true;
   mkAngle "Back" "Back view of the product" true;
   mkAngle "Side" "Side view of the product" true].

Definition setAngles (v : list AngleConfig) (s : AppState) : AppState :=
  mkAppState (products s) (currentProductIndex s) (appStatus s) (errorText s) (apiKey s)
    (productDescription s) v (modelName s) (targetWidth s) (batchSize s)
    (totalAnglesProcessed s) (totalAnglesToProcess s) (apiRequestCount s)
    (stopRequested s) (currentApiStatus s) (activityLog s).

(** White space and line terminators of [String.prototype.trim] among the
    characters a [string] holds (the code units below 256): TAB, LF, VT, FF,
    CR, SP and NBSP. *)
Definition isWhiteSpace (c : ascii) : bool :=
  let n := nat_of_ascii c in ((9 <=? n) && (n <=? 13)) || (n =? 32) || (n =? 160).

Fixpoint trimStart (s : string) : string :=
  match s with
  | EmptyString => EmptyString
  | String c rest => if isWhiteSpace c then trimStart rest else s
  end.

Fixpoint trimEnd (s : string) : string :=
  match s with
  | EmptyString => EmptyString
  | String c rest =>
      match trimEnd rest with
      | EmptyString => if isWhiteSpace c then EmptyString else String c EmptyString
      | t => String c t
      end
  end.

(** [s.trim()] *)
Definition trim (s : string) : string := trimEnd (trimStart s).

(** [arr.map((x, i) => f(x, i))] and [arr.filter((x, i) => f(x, i))], the
    first element having index [i]. *)
Fixpoint mapWithIndex {A B : Type} (f : A -> nat -> B) (i : nat) (l : list A) : list B :=
  match l with
  | [] => []
  | x :: rest => f x i :: mapWithIndex f (S i) rest
  end.

Fixpoint filterWithIndex {A : Type} (f : A -> nat -> bool) (i : nat) (l : list A) : list A :=
  match l with
  | [] => []
  | x :: rest =>
      if f x i then x :: filterWithIndex f (S i) rest else filterWithIndex f (S i) rest
  end.

(** [handleAddCustomAngle]; the cell [customAngle] is passed in and its
    content afterwards is the result. *)
Definition handleAddCustomAngle (r : AppState) (customAngle : string) : M string :=
  if truthy (trim customAngle) then
    set (setAngles
           (angles r ++
            [mkAngle customAngle (customAngle ++ " view of the product")%string true])) ;;
    ret ""
  else ret customAngle.

Definition handleRemoveAngle (r : AppState) (index : nat) : M unit :=
  set (setAngles (filterWithIndex (fun _ i => negb (i =? index)) 0 (angles r))).

Definition handleToggleAngle (r : AppState) (index : nat) : M unit :=
  set (setAngles
         (mapWithIndex
            (fun angle i =>
               if i =? index then mkAngle (aname angle) (prompt angle) (negb (enabled angle))
               else angle)
            0 (angles r))).

(** *** Navigation and the size of a batch *)

Definition goToNextProduct (r : AppState) : M unit :=
  if (Z.of_nat (currentProductIndex r) <? Z.of_nat (List.length (products r)) - 1)%Z
  then set (setCurrentProductIndex (currentProductIndex r + 1))
  else ret tt.

Definition goToPreviousProduct (r : AppState) : M unit :=
  if 0 <? currentProductIndex r
  then set (setCurrentProductIndex (currentProductIndex r - 1))
  else ret tt.

(** [Math.min(batchSize, products.length - currentProductIndex)] *)
Definition getRemainingProducts (r : AppState) : Z :=
  Z.min (Z.of_nat (batchSize r))
        (Z.of_nat (List.length (products r)) - Z.of_nat (currentProductIndex r)).

(** [batchSize] is kept as a natural number; the three controls below hand
    [setBatchSize] the result of [Math.max] and [Math.min], which is never
    negative. *)
Definition setBatchSize (v : Z) (s : AppState) : AppState :=
  mkAppState (products s) (currentProductIndex s) (appStatus s) (errorText s) (apiKey s)
    (productDescription s) (angles s) (modelName s) (targetWidth s) (Z.to_nat v)
    (totalAnglesProcessed s) (totalAnglesToProcess s) (apiRequestCount s)
    (stopRequested s) (currentApiStatus s) (activityLog s).

(** The [onClick] of the minus button of the batch size. *)
Definition decreaseBatchSize (r : AppState) : M unit :=
  set (setBatchSize (Z.max 1 (Z.of_nat (batchSize r) - 1))).

(** The [onClick] of the plus button of the batch size. *)
Definition increaseBatchSize (r : AppState) : M unit :=
  set (setBatchSize
         (Z.min (Z.of_nat (List.length (products r))) (Z.of_nat (batchSize r) + 1))).

(** [parseInt(e.target.value) || 1]: [parsed] is the integer that [parseInt]
    found, [None] for [NaN]. *)
Definition parsedOrOne (parsed : option Z) : Z :=
  match parsed with
  | Some n => if (n =? 0)%Z then 1%Z else n
  | None => 1%Z
  end.

(** The [onChange] of the input of the batch size. *)
Definition changeBatchSize (r : AppState) (parsed : option Z) : M unit :=
  set (setBatchSize
         (Z.max 1 (Z.min (Z.of_nat (List.length (products r))) (parsedOrOne parsed)))).

(** *** The downloads *)

Inductive DownloadAlert :=
| AlertNoGeneratedImages
| AlertNoCompletedImages
| AlertNoImagesSelected (productName : string)
| AlertSelectedNotFound (productName : string).

(** [img.status === 'completed'] *)
Definition isCompleted (img : ImageFile) : bool :=
  match istatus img with
  | completed => true
  | _ => false
  end.

(** [handleDownloadProduct] from its entry to the check of
    [imagesToDownload]: the alert it returns with, or the images it goes on
    to put into the archive. *)
Definition imagesToDownload (selectedImages : JsMap JsSet) (product : Product)
  : DownloadAlert + list ImageFile :=
  if List.length (generatedImages product) =? 0 then inl AlertNoGeneratedImages
  else
    let completedImages := filter isCompleted (generatedImages product) in
    if List.length completedImages =? 0 then inl AlertNoCompletedImages
    else
      match mapGet (pname product) selectedImages with
      | None => inl (AlertNoImagesSelected (pname product))
      | Some productSelections =>
          if setSize productSelections =? 0 then inl (AlertNoImagesSelected (pname product))
          else
            let imagesToDownload :=
              filter (fun img => setHas (name img) productSelections) completedImages in
            if List.length imagesToDownload =? 0
            then inl (AlertSelectedNotFound (pname product))
            else inr imagesToDownload
      end.






(** The first loop of [handleDownloadAll], which counts: the body for one
    product, on [(totalImages, productsWithImages)]. *)
Definition countProduct (selectedImages : JsMap JsSet) (counts : nat * nat) (product : Product)
  : nat * nat :=
  let (totalImages, productsWithImages) := counts in
  if 0 <? List.length (generatedImages product) then
    let completedImages := filter isCompleted (generatedImages product) in
    match mapGet (pname product) selectedImages with
    | Some productSelections =>
        if 0 <? setSize productSelections then
          let selectedCount :=
            List.length
              (filter (fun img => setHas (name img) productSelections) completedImages) in
          if 0 <? selectedCount then (totalImages + selectedCount, productsWithImages + 1)
          else counts
        else counts
    | None => counts
    end
  else counts.

Definition countSelectedImages (selectedImages : JsMap JsSet) (products : list Product)
  : nat * nat :=
  fold_left (countProduct selectedImages) products (0, 0).

(** The second loop of [handleDownloadAll], which fills the archive: the
    folders made with [zip.folder], each with the images taken up by
    [for (const img of imagesToDownload)], and [processedImages], which is
    incremented for each of them before its conversion is tried. *)
Definition archiveProduct (selectedImages : JsMap JsSet)
    (archive : list (string * list ImageFile) * nat) (product : Product)
  : list (string * list ImageFile) * nat :=
  let (folders, processedImages) := archive in
  if 0 <? List.length (generatedImages product) then
    let completedImages := filter isCompleted (generatedImages product) in
    match mapGet (pname product) selectedImages with
    | None => archive
    | Some productSelections =>
        if setSize productSelections =? 0 then archive
        else
          let imagesToDownload :=
            filter (fun img => setHas (name img) productSelections) completedImages in
          if 0 <? List.length imagesToDownload then
            (folders ++ [(pname product, imagesToDownload)],
             fold_left (fun processedImages1 _ => processedImages1 + 1) imagesToDownload
               processedImages)
          else archive
    end
  else archive.

Definition archiveSelectedImages (selectedImages : JsMap JsSet) (products : list Product)
  : list (string * list ImageFile) * nat :=
  fold_left (archiveProduct selectedImages) products ([], 0).

(** What [handleDownloadAll] has decided when it starts the compression. *)
Inductive DownloadAllOutcome :=
| AllNoProducts
| AllNoImages
| AllArchived (totalImages productsWithImages processedImages : nat)
              (folders : list (string * list ImageFile)).

Definition downloadAllOutcome (selectedImages : JsMap JsSet) (products : list Product)
  : DownloadAllOutcome :=
  if List.length products =? 0 then AllNoProducts
  else
    let (totalImages, productsWithImages) := countSelectedImages selectedImages products in
    if totalImages =? 0 then AllNoImages
    else
      let (folders, processedImages) := archiveSelectedImages selectedImages products in
      AllArchived totalImages productsWithImages processedImages folders.

End App.

(* ===================================================================== *)
(** ** The earlier folder selection

    [handleSelectFolder] as it stood when the folder was chosen with the
    directory picker and walked entry by entry, before the file input and
    its relative paths replaced it. Only the walk is kept here (the picker
    has answered with the entries of the chosen directory). *)
(* ===================================================================== *)

(** An entry of a directory handle: [kind] is ['file'] or ['directory']. *)
#[warnings="-register-all"]
Inductive Entry :=
| FileEntry (f : File)
| DirectoryEntry (entryName : string) (entries : list Entry).

Module AppLegacy.
Section Handlers.

Variable E : Env.

Definition isDirectory (e : Entry) : bool :=
  match e with
  | DirectoryEntry _ _ => true
  | FileEntry _ => false
  end.

(** The images pushed while iterating the entries of one directory;
    [folderPath] is the prefix of their [path]. *)
Definition imagesOf (folderPath : string) (entries : list Entry) : list ImageFile :=
  flat_map
    (fun e =>
       match e with
       | FileEntry f =>
           if startsWith (fileType f) "image/" then
             [mkImageFile f (createObjectURL E f) pending (fileName f)
                (folderPath ++ "/" ++ fileName f)%string None]
           else []
       | DirectoryEntry _ _ => []
       end)
    entries.

(** The first loop over the entries of a product folder, which fills
    [colorFolders]. *)
Definition colorFoldersOf (productName : string) (entries : list Entry)
  : App.JsMap (list ImageFile) :=
  fold_left
    (fun colorFolders e =>
       match e with
       | DirectoryEntry colorName fileEntries =>
           let images := imagesOf (productName ++ "/" ++ colorName)%string fileEntries in
           if 0 <? List.length images then App.mapSet colorName images colorFolders
           else colorFolders
       | FileEntry _ => colorFolders
       end)
    entries [].

(** The body of [for await (const productEntry of handle.values())]. *)
Definition productGroups (productEntry : Entry) : list Product :=
  match productEntry with
  | FileEntry _ => []
  | DirectoryEntry productName entries =>
      let colorFolders := colorFoldersOf productName entries in
      let hasColorSubfolders := existsb isDirectory entries in
      if hasColorSubfolders && (0 <? List.length colorFolders) then
        map (fun entry : string * list ImageFile =>
               let (colorName, images) := entry in
               mkProduct (productName ++ " - " ++ colorName)%string images [])
          colorFolders
      else
        let images := imagesOf productName entries in
        if 0 <? List.length images then [mkProduct productName images []] else []
  end.

Definition scanDirectory (rootEntries : list Entry) : list Product :=
  flat_map productGroups rootEntries.

Definition handleSelectFolder (rootEntries : list Entry) : App.M unit :=
  App.bind (App.set (App.setStatus StatusProcessing)) (fun _ =>
  App.bind (App.set (App.setError "Scanning folders...")) (fun _ =>
  App.bind (App.set (App.setProducts (scanDirectory rootEntries))) (fun _ =>
  App.bind (App.set (App.setCurrentProductIndex 0)) (fun _ =>
  App.bind (App.set (App.setStatus StatusIdle)) (fun _ =>
  App.set (App.setError "")))))).

End Handlers.
End AppLegacy.

(* ===================================================================== *)
(** ** Definitions used to state the properties *)
(* ===================================================================== *)

(** The retry loop shared by the three client functions, over an arbitrary
    attempt: what the [catch] blocks do, without the body of the [try]. *)
Section Retry.

Context {A : Type}.
Variable attempt : World -> result A * World.

Equations? withRetry (retryCount : nat) (w : World) : result A * World
  by wf (retriesLeft retryCount) lt :=
  withRetry retryCount w with attempt w => {
    | (Ok a, w1) := (Ok a, w1);
    | (Throw err, w1) with lt_dec retryCount 3 => {
      | left _ :=
          if retryableStatus err then
            withRetry (S retryCount) (Gemini.setTimeout (2 ^ retryCount * 1000) w1)
          else (Throw err, w1);
      | right _ := (Throw err, w1) } }.
Proof. unfold retriesLeft. lia. Qed.

End Retry.

(** The failure categories of the specification, read off the status
    signal: 5xx is a server error, 429 a rate limit, anything else (no
    status at all included) is another failure. *)
Inductive ErrorCategory := ServerError | RateLimited | OtherFailure.

Definition errorCategory (err : JsError) : ErrorCategory :=
  match status err with
  | Some st =>
      if (500 <=? st) && (st <=? 599) then ServerError
      else if st =? 429 then RateLimited
      else OtherFailure
  | None => OtherFailure
  end.

(** HTTP status codes have three digits and the classes end at 5xx. *)
Definition httpStatus (err : JsError) : Prop :=
  match status err with
  | Some st => st <= 599
  | None => True
  end.

(** The remote requests for [model] fail with a server error or a rate
    limit, whenever and however they are made. *)
Definition remoteAlwaysFails (E : Env) (model : string) : Prop :=
  (forall n parts, exists err,
      generateContent E n model parts = Throw err /\ errorCategory err <> OtherFailure) /\
  (forall n p, exists err,
      generateImages E n model p = Throw err /\ errorCategory err <> OtherFailure).

(** The body of the [try] that a call of [generateProductAngle] runs. *)
Definition firstAttempt (E : Env) (referenceFiles : list File)
    (productName description anglePrompt model : string) (width : nat) (w : World)
  : result string * World :=
  if Gemini.isImagenModel model
  then Gemini.tryGenerateWithImagen E productName description anglePrompt model width w
  else Gemini.tryGenerateProductAngle E referenceFiles productName description anglePrompt
         model width w.

(** The raw images the remote model hands back for [model]: the first
    inline image of a [generateContent] response, as the data URL the client
    makes of it, or the first image of a [generateImages] response. *)
Inductive RawImage (E : Env) (model : string) : string -> Prop :=
| RawInline (n : nat) (parts : list Part) (resp : option (list ResponsePart)) :
    generateContent E n model parts = Ok resp ->
    RawImage E model
      ("data:image/png;base64," ++ Gemini.firstInlineData (Gemini.responseParts resp))%string
| RawImagenString (n : nat) (p : Prompt) (s : string) (rest : list ImagenImage) :
    generateImages E n model p = Ok (Some (ImageString s :: rest)) ->
    RawImage E model s
| RawImagenBlob (n : nat) (p : Prompt) (b : Blob) (s : string) (rest : list ImagenImage) :
    generateImages E n model p = Ok (Some (ImageBlob b :: rest)) ->
    readBlobAsDataURL E b = Ok s ->
    RawImage E model s.

(** The number of images in a [generateContent] response. *)
Definition inlineImages (parts : list ResponsePart) : nat :=
  List.length (filter (fun part => match part with RInlineData _ => true | RText _ => false end)
                 parts).

(** *** The two loops of the handlers, stated once *)

(** [handleGenerateBatch] and [handleGenerateAll] are two copies of the same
    pair of loops; they differ in what is done when the stop flag is seen,
    before a product, and for one angle. The loops are stated once over
    these three and each handler is shown to be an instance. *)
Section Loops.

Variable stop : bool.
Variable onStop : App.M unit.
Variable beforeProduct : Product -> App.M unit.
Variable generateAngle : Product -> AngleConfig -> list ImageFile -> App.M (list ImageFile).

Fixpoint angleLoop (product : Product) (enabledAngles : list AngleConfig)
    (generatedImages : list ImageFile) : App.M (App.Flow (list ImageFile)) :=
  match enabledAngles with
  | [] => App.ret (App.Continue generatedImages)
  | a :: rest =>
      if stop then App.bind onStop (fun _ => App.ret App.Return)
      else
        App.bind (generateAngle product a generatedImages)
          (fun generatedImages1 => angleLoop product rest generatedImages1)
  end.

Fixpoint productLoop (enabledAngles : list AngleConfig) (index : nat) (todo : list Product)
    (updatedProducts : list Product) : App.M (App.Flow (list Product)) :=
  match todo with
  | [] => App.ret (App.Continue updatedProducts)
  | product :: rest =>
      if stop then App.bind onStop (fun _ => App.ret App.Return)
      else
        App.bind (beforeProduct product) (fun _ =>
        App.bind (angleLoop product enabledAngles []) (fun flow =>
          match flow with
          | App.Return => App.ret App.Return
          | App.Continue generatedImages =>
              let updatedProducts1 :=
                App.setGeneratedImages index generatedImages updatedProducts in
              App.bind (App.set (App.setProducts updatedProducts1)) (fun _ =>
                productLoop enabledAngles (S index) rest updatedProducts1)
          end))
  end.

End Loops.

(** *** Runs *)

(** Whether STOP is clicked during one of [count] client calls, the first of
    which is call number [from] of the session. *)
Definition clickedDuring (E : Env) (from count : nat) : bool :=
  existsb (stopClicked E) (seq from count).

(** The client call a handler created at state [r] issues for a unit. *)
Definition callOf (r : AppState) (product : Product) (a : AngleConfig) : ClientCall :=
  mkCall (pname product) (prompt a) (apiKey r).

Definition callsOf (r : AppState) (enabledAngles : list AngleConfig) (todo : list Product)
  : list ClientCall :=
  flat_map (fun product => map (callOf r product) enabledAngles) todo.

(** The two result entries a unit can leave. *)
Definition resultFor (product : Product) (a : AngleConfig) (img : ImageFile) : Prop :=
  img = App.failedImage product a \/
  exists blob blobUrl, img = App.completedImage product a blob blobUrl.

(** From [run] to [run'] the client calls [cs] were made and accounted
    for, each adding between [lo] and [hi] to the request counter; nothing
    else touched the counters or the stop flag; [Qw] relates the network
    before and after. *)
Definition Advanced (E : Env) (lo hi : nat) (Qw : World -> World -> Prop)
    (cs : list ClientCall) (run run' : Run) : Prop :=
  totalAnglesProcessed (store run') = totalAnglesProcessed (store run) + List.length cs /\
  apiRequestCount (store run) + lo * List.length cs <= apiRequestCount (store run') /\
  apiRequestCount (store run') <= apiRequestCount (store run) + hi * List.length cs /\
  totalAnglesToProcess (store run') = totalAnglesToProcess (store run) /\
  stopRequested (store run') =
    stopRequested (store run) || clickedDuring E (List.length (clientCalls run)) (List.length cs) /\
  clientCalls run' = clientCalls run ++ cs /\
  Qw (world run) (world run').

(** What one unit does: one entry, of which [R] holds, is appended, and one
    client call is made. *)
Definition UnitSpec (E : Env) (r : AppState) (lo hi : nat)
    (R : Product -> AngleConfig -> ImageFile -> Prop) (Qw : World -> World -> Prop)
    (generateAngle : Product -> AngleConfig -> list ImageFile -> App.M (list ImageFile))
  : Prop :=
  forall product a generatedImages run,
  exists entry run',
    generateAngle product a generatedImages run = (generatedImages ++ [entry], run') /\
    R product a entry /\
    Advanced E lo hi Qw [callOf r product a] run run' /\
    products (store run') = products (store run).

(** What is done before the angles of a product leaves counters and catalog
    alone. *)
Definition BeforeSpec (E : Env) (lo hi : nat) (Qw : World -> World -> Prop)
    (beforeProduct : Product -> App.M unit) : Prop :=
  forall product run,
    Advanced E lo hi Qw [] run (snd (beforeProduct product run)) /\
    products (store (snd (beforeProduct product run))) = products (store run).

(** The results written for the products of [todo], starting at [index]. *)
Inductive Committed (R : Product -> AngleConfig -> ImageFile -> Prop)
    (enabledAngles : list AngleConfig)
  : nat -> list Product -> list Product -> list Product -> Prop :=
| Committed_nil (index : nat) (updated : list Product) :
    Committed R enabledAngles index [] updated updated
| Committed_cons (index : nat) (product : Product) (todo : list Product)
    (updated updated' : list Product) (entries : list ImageFile) :
    Forall2 (R product) enabledAngles entries ->
    Committed R enabledAngles (S index) todo
      (App.setGeneratedImages index entries updated) updated' ->
    Committed R enabledAngles index (product :: todo) updated updated'.

(** What a completed run of either handler leaves, [todo] being the
    products it went through, the first of them at [start], and
    [requestsBefore] the request counter when the first unit began. *)
Definition Completed (E : Env) (r : AppState) (lo hi : nat)
    (R : Product -> AngleConfig -> ImageFile -> Prop) (Qw : World -> World -> Prop)
    (start : nat) (todo : list Product) (requestsBefore : nat) (run run' : Run) : Prop :=
  let units := List.length todo * List.length (App.enabledAnglesOf r) in
  clientCalls run' = clientCalls run ++ callsOf r (App.enabledAnglesOf r) todo /\
  totalAnglesProcessed (store run') = units /\
  totalAnglesToProcess (store run') = units /\
  requestsBefore + lo * units <= apiRequestCount (store run') /\
  apiRequestCount (store run') <= requestsBefore + hi * units /\
  stopRequested (store run') =
    stopRequested (store run) || clickedDuring E (List.length (clientCalls run)) units /\
  appStatus (store run') = StatusCompleted /\
  Qw (world run) (world run') /\
  (forall k product, nth_error todo k = Some product ->
     exists entries,
       Forall2 (R product) (App.enabledAnglesOf r) entries /\
       nth_error (products (store run')) (start + k) =
         Some (mkProduct (pname product) (images product) entries)) /\
  (todo <> [] ->
   forall j, j < start \/ start + List.length todo <= j ->
             nth_error (products (store run')) j = nth_error (products r) j).

(** *** One unit, exactly *)

(** The outcome of the client call for a unit. *)
Definition clientResult (E : Env) (r : AppState) (product : Product) (a : AngleConfig)
    (run : Run) : result string :=
  fst (Gemini.generateProductAngle E (map file (images product)) (pname product)
         (orElse (productDescription r) "A high-quality product") (prompt a)
         (modelName r) (targetWidth r) (apiKey r) 0 (world run)).

Definition noLogEntry : LogEntry := mkLog LogStarting info.

(** What one unit of [handleGenerateBatch] does, by the outcome of the
    client call and of the fetch of its result. *)
Definition UnitOutcomeBatch (E : Env) (r : AppState) (product : Product) (a : AngleConfig)
    (generatedImages : list ImageFile) (run : Run) : Prop :=
  let out := App.generateAngleBatch E r product a generatedImages run in
  let run' := snd out in
  clientCalls run' = clientCalls run ++ [callOf r product a] /\
  totalAnglesProcessed (store run') = totalAnglesProcessed (store run) + 1 /\
  match clientResult E r product a run with
  | Ok blobUrl =>
      match fetchBlob E blobUrl with
      | Ok blob =>
          fst out = generatedImages ++ [App.completedImage product a blob blobUrl] /\
          apiRequestCount (store run') = apiRequestCount (store run) + 1
      | Throw err =>
          fst out = generatedImages ++ [App.failedImage product a] /\
          apiRequestCount (store run') = apiRequestCount (store run) + 2 /\
          List.last (activityLog (store run')) noLogEntry =
            mkLog (LogAngleFailed (aname a) (message err)) error
      end
  | Throw err =>
      fst out = generatedImages ++ [App.failedImage product a] /\
      apiRequestCount (store run') = apiRequestCount (store run) + 1 /\
      List.last (activityLog (store run')) noLogEntry =
        mkLog (LogAngleFailed (aname a) (message err)) error
  end.

(** The same for [handleGenerateAll], which neither counts requests nor
    logs. *)
Definition UnitOutcomeAll (E : Env) (r : AppState) (product : Product) (a : AngleConfig)
    (generatedImages : list ImageFile) (run : Run) : Prop :=
  let out := App.generateAngleAll E r product a generatedImages run in
  let run' := snd out in
  clientCalls run' = clientCalls run ++ [callOf r product a] /\
  totalAnglesProcessed (store run') = totalAnglesProcessed (store run) + 1 /\
  apiRequestCount (store run') = apiRequestCount (store run) /\
  match clientResult E r product a run with
  | Ok blobUrl =>
      match fetchBlob E blobUrl with
      | Ok blob => fst out = generatedImages ++ [App.completedImage product a blob blobUrl]
      | Throw _ => fst out = generatedImages ++ [App.failedImage product a]
      end
  | Throw _ => fst out = generatedImages ++ [App.failedImage product a]
  end.

(** *** The catalog *)

(** The order a comparator of [Array.prototype.sort] stands for: [a] may
    come before [b]. *)
Definition notAfter {A : Type} (cmp : A -> A -> Z) (a b : A) : Prop := (cmp a b <= 0)%Z.

(** [file.type.startsWith('image/')] *)
Definition isImageFile (f : File) : bool := startsWith (fileType f) "image/".

(** *** Concrete environments for the examples *)

Definition lengthCompare (a b : string) : Z :=
  (Z.of_nat (String.length a) - Z.of_nat (String.length b))%Z.

(** A browser and a model that always succeed: the model answers with one
    inline image, every image decodes to a 640 x 480 bitmap. *)
Definition demoEnv : Env :=
  mkEnv ""
    (fun _ _ _ => Ok (Some [RText "here"; RInlineData "iVBORw0KGgo="]))
    (fun _ _ _ => Ok (Some [ImageString "data:image/png;base64,iVBORw0KGgo="]))
    (fun _ => Ok "data:image/png;base64,UkVG")
    (fun _ => Ok "data:image/png;base64,QkxPQg==")
    (fun url => Some (mkBitmap 640 480 url))
    true
    (fun c => ("canvas:" ++ match drawn c with
                            | d :: _ => pixels (src d)
                            | [] => ""
                            end)%string)
    (fun url => Ok (mkBlob "image/png" url))
    (fun f => ("blob:" ++ fileName f)%string)
    lengthCompare
    (fun _ => false).

(** The same with images that decode to 800 x 800 bitmaps. *)
Definition squareImagesEnv : Env :=
  mkEnv "" (generateContent demoEnv) (generateImages demoEnv)
    (readAsDataURL demoEnv) (readBlobAsDataURL demoEnv)
    (fun url => Some (mkBitmap 800 800 url))
    true (toDataURL demoEnv) (fetchBlob demoEnv) (createObjectURL demoEnv)
    lengthCompare (fun _ => false).

(** The same with a remote API that answers every request with status 500. *)
Definition failingEnv : Env :=
  mkEnv ""
    (fun _ _ _ => Throw (mkError "Internal error" (Some 500)))
    (fun _ _ _ => Throw (mkError "Internal error" (Some 500)))
    (readAsDataURL demoEnv) (readBlobAsDataURL demoEnv) (decodeImage demoEnv)
    true (toDataURL demoEnv) (fetchBlob demoEnv) (createObjectURL demoEnv)
    lengthCompare (fun _ => false).

(** The same with a remote API that refuses every request with status 400. *)
Definition refusingEnv : Env :=
  mkEnv ""
    (fun _ _ _ => Throw (mkError "Bad request" (Some 400)))
    (fun _ _ _ => Throw (mkError "Bad request" (Some 400)))
    (readAsDataURL demoEnv) (readBlobAsDataURL demoEnv) (decodeImage demoEnv)
    true (toDataURL demoEnv) (fetchBlob demoEnv) (createObjectURL demoEnv)
    lengthCompare (fun _ => false).

(** A model that answers a request for several views with two images. *)
Definition twoImagesEnv : Env :=
  mkEnv ""
    (fun _ _ _ => Ok (Some [RInlineData "QQ=="; RText "and"; RInlineData "Qg=="]))
    (generateImages demoEnv)
    (readAsDataURL demoEnv) (readBlobAsDataURL demoEnv) (decodeImage demoEnv)
    true (toDataURL demoEnv) (fetchBlob demoEnv) (createObjectURL demoEnv)
    lengthCompare (fun _ => false).

Definition emptyWorld : World := mkWorld 0 [].

Definition referencePhoto : File :=
  mkFile "front.jpg" "image/jpeg" [mkBlob "image/jpeg" "REF"] "shoot/Mug/front.jpg".

Definition threeViews : list (string * string) :=
  [("Front", "Front view of the product"); ("Back", "Back view of the product");
   ("Side", "Side view of the product")].

(** *** Examples of states *)

Definition demoAngles : list AngleConfig :=
  [mkAngle "Front" "Front view of the product" true;
   mkAngle "Back" "Back view of the product" true;
   mkAngle "Side" "Side view of the product" false].

Definition demoProducts : list Product :=
  [mkProduct "Mug"
     [mkImageFile referencePhoto "blob:front.jpg" pending "front.jpg" "shoot/Mug/front.jpg" None]
     [];
   mkProduct "Cap" [] []].

(** Two products loaded, a key entered, two of three angles enabled, one
    product per batch, nothing generated yet. *)
Definition demoState : AppState :=
  mkAppState demoProducts 0 StatusIdle "" "secret" "" demoAngles "gemini-2.5-flash-image"
    800 1 0 0 0 false ApiStatusEmpty [].

Definition withApiKey (key : string) (s : AppState) : AppState :=
  mkAppState (products s) (currentProductIndex s) (appStatus s) (errorText s) key
    (productDescription s) (angles s) (modelName s) (targetWidth s) (batchSize s)
    (totalAnglesProcessed s) (totalAnglesToProcess s) (apiRequestCount s)
    (stopRequested s) (currentApiStatus s) (activityLog s).

(** A handler is started from the render of the current state. *)
Definition startOf (s : AppState) : Run := mkRun s emptyWorld [].

(** The user clicks STOP while the first client call is in flight. *)
Definition clickEnv : Env :=
  mkEnv "" (generateContent demoEnv) (generateImages demoEnv)
    (readAsDataURL demoEnv) (readBlobAsDataURL demoEnv) (decodeImage demoEnv)
    true (toDataURL demoEnv) (fetchBlob demoEnv) (createObjectURL demoEnv)
    lengthCompare (fun n => n =? 0).

(** A remote API that refuses every request with status 403, with another
    message than [refusingEnv]. *)
Definition forbiddingEnv : Env :=
  mkEnv ""
    (fun _ _ _ => Throw (mkError "Permission denied" (Some 403)))
    (fun _ _ _ => Throw (mkError "Permission denied" (Some 403)))
    (readAsDataURL demoEnv) (readBlobAsDataURL demoEnv) (decodeImage demoEnv)
    true (toDataURL demoEnv) (fetchBlob demoEnv) (createObjectURL demoEnv)
    lengthCompare (fun _ => false).

Definition stoppedState : AppState := App.setStopRequested true demoState.

Definition photo (relativePath : string) : File :=
  mkFile "photo.jpg" "image/jpeg" [mkBlob "image/jpeg" "JPEG"] relativePath.

Definition demoFolder : list File :=
  [photo "shoot/Mug/a.jpg"; photo "shoot/Cap/Red/a.jpg"; photo "shoot/7up/a.jpg";
   mkFile "notes.txt" "text/plain" [] "shoot/Mug/notes.txt"].

(** *** The activity log *)

(** The log holds no more than the eleven entries that [addLog] keeps. *)
Definition logBounded (s : AppState) : Prop := List.length (activityLog s) <= 11.

(** The number that a log entry announcing a request carries. *)
Definition requestNumberOf (entry : LogEntry) : option nat :=
  match logMessage entry with
  | LogApiRequest requestNum _ => Some requestNum
  | _ => None
  end.

(** The requests announced in the log carry the number [n]. *)
Definition numberedBy (n : nat) (s : AppState) : Prop :=
  forall entry m, In entry (activityLog s) -> requestNumberOf entry = Some m -> m = n.

(** *** The state after a handler *)

(** The state after the handler [h], created by the render of [s], has run. *)
Definition after {A : Type} (h : AppState -> App.M A) (s : AppState) : AppState :=
  store (snd (h s (startOf s))).

(** The current product exists. *)
Definition validIndex (s : AppState) : Prop :=
  currentProductIndex s < List.length (products s).

(** The batch size is between one and the size of the catalog. *)
Definition validBatchSize (s : AppState) : Prop :=
  1 <= batchSize s <= List.length (products s).

(** *** The selection and the downloads *)

(** No product is recorded with an empty set of selected images. *)
Definition noEmptySelection (selectedImages : App.JsMap App.JsSet) : Prop :=
  Forall (fun entry => snd entry <> []) selectedImages.

(** An image that a download takes: generated with success and selected. *)
Definition downloadable (selectedImages : App.JsMap App.JsSet) (product : Product)
    (img : ImageFile) : bool :=
  App.isCompleted img && App.isSelected selectedImages (pname product) (name img).

(** The folder that [handleDownloadAll] makes for a product, if any. *)
Definition folderOf (selectedImages : App.JsMap App.JsSet) (product : Product)
  : list (string * list ImageFile) :=
  match filter (downloadable selectedImages product) (generatedImages product) with
  | [] => []
  | imgs => [(pname product, imgs)]
  end.


(** *** The catalog, continued *)

(** A file that [handleSelectFolder] files under a group: an image whose
    relative path has two parts at least. *)
Definition isCatalogued (f : File) : bool :=
  isImageFile f && negb (List.length (split "/" (webkitRelativePath f)) <? 2).

(** The files of a catalog, group after group. *)
Definition filesOfCatalog (catalog : list Product) : list File :=
  flat_map (fun p => map file (images p)) catalog.

(** The groups of [new] are those of [old], in the same order, with the
    same names and the same reference images. *)
Definition sameGroups (old new : list Product) : Prop :=
  map pname new = map pname old /\ map images new = map images old.

(** *** The network activity of one call of the client *)

(** The delays of the back-off, in milliseconds. *)
Definition backoff : list nat := [1000; 2000; 4000].

(** From [w] to [w'] a call of the client has made [t] on the network: at
    most four remote requests, each of which satisfies [P], with the first
    [k] delays of the back-off between them; the index of the remote calls
    has advanced by the number of requests. *)
Definition NetworkBound (P : NetEvent -> Prop) (w w' : World) : Prop :=
  exists t k,
    w' = mkWorld (calls w + remoteCalls t) (trace w ++ t) /\
    k <= 3 /\
    delays t = firstn k backoff /\
    remoteCalls t <= k + 1 /\
    Forall (fun ev => isRemoteCall ev = true -> P ev) t.

(** [part.inlineData.mimeType] of a request part, empty on a text part. *)
Definition mimeTypeOf (part : Part) : string :=
  match part with
  | InlineData _ mimeType => mimeType
  | Text _ => ""
  end.

(** *** The groups of the earlier folder scan *)

(** An image entry as a folder scan makes it of its file. *)
Definition scannedImage (E : Env) (img : ImageFile) : Prop :=
  isImageFile (file img) = true /\
  istatus img = pending /\
  preview img = createObjectURL E (file img) /\
  name img = fileName (file img).

(** Where a group of the earlier scan of the folder [productName] comes
    from: the folder itself, or one of its subfolders. *)
Definition groupOrigin (E : Env) (productName : string) (entries : list Entry) (p : Product)
  : Prop :=
  (pname p = productName /\ images p = AppLegacy.imagesOf E productName entries) \/
  (exists colorName fileEntries,
     In (DirectoryEntry colorName fileEntries) entries /\
     pname p = (productName ++ " - " ++ colorName)%string /\
     images p = AppLegacy.imagesOf E (productName ++ "/" ++ colorName)%string fileEntries).

(** *** The actions on the angles that the page offers *)

(** The controls of the angle list: the input and its button, the
    checkbox of an angle, and the remove button of an angle, which is
    rendered for the angles from the fourth on ([index >= 3]). *)
Inductive AngleAction :=
| AddAngle (customAngle : string)
| ToggleAngle (index : nat)
| RemoveAngle (index : nat).

Definition offered (action : AngleAction) : bool :=
  match action with
  | RemoveAngle index => 3 <=? index
  | _ => true
  end.

Definition applyAngleAction (s : AppState) (action : AngleAction) : AppState :=
  match action with
  | AddAngle customAngle => after (fun r => App.handleAddCustomAngle r customAngle) s
  | ToggleAngle index => after (fun r => App.handleToggleAngle r index) s
  | RemoveAngle index => after (fun r => App.handleRemoveAngle r index) s
  end.

(** The names and prompts of the first three angles. *)
Definition firstThree (s : AppState) : list (string * string) :=
  map (fun a => (aname a, prompt a)) (firstn 3 (angles s)).

(* ===================================================================== *)
(** ** The generation client: properties *)
(* ===================================================================== *)

Lemma orElse_idem (a b : string) : orElse (orElse a b) b = orElse a b.
Proof.
  unfold orElse. destruct (truthy a) eqn:Ha.
  - rewrite Ha. reflexivity.
  - destruct (truthy b); reflexivity.
Qed.

(** One unfolding of the retry loop. *)
Lemma withRetry_step {A : Type} (attempt : World -> result A * World)
    (retryCount : nat) (w : World) :
  withRetry attempt retryCount w =
  match attempt w with
  | (Ok a, w1) => (Ok a, w1)
  | (Throw err, w1) =>
      if (retryCount <? 3) && retryableStatus err then
        withRetry attempt (S retryCount) (Gemini.setTimeout (2 ^ retryCount * 1000) w1)
      else (Throw err, w1)
  end.
Proof.
  funelim (withRetry attempt retryCount w).
  - rewrite Heq. reflexivity.
  - rewrite Heq0. destruct (Nat.ltb_spec retryCount 3); [ | lia ]. simpl.
    destruct (retryableStatus err); reflexivity.
  - rewrite Heq0. destruct (Nat.ltb_spec retryCount 3); [ lia | ]. reflexivity.
Qed.

(** A successful call ends with a successful attempt. *)
Lemma withRetry_Ok {A : Type} (attempt : World -> result A * World)
    (retryCount : nat) (w : World) (a : A) (w' : World) :
  withRetry attempt retryCount w = (Ok a, w') ->
  exists w0, attempt w0 = (Ok a, w').
Proof.
  funelim (withRetry attempt retryCount w); intros Hres.
  - exists w. rewrite Heq. exact Hres.
  - destruct (retryableStatus err).
    + apply H. exact Hres.
    + discriminate Hres.
  - discriminate Hres.
Qed.

(** A failure that is not retryable ends the call at the first attempt. *)
Lemma withRetry_propagates {A : Type} (attempt : World -> result A * World)
    (retryCount : nat) (w : World) (err : JsError) (w1 : World) :
  attempt w = (Throw err, w1) ->
  retryableStatus err = false ->
  withRetry attempt retryCount w = (Throw err, w1).
Proof.
  intros Hatt Hno. rewrite withRetry_step, Hatt, Hno, andb_false_r. reflexivity.
Qed.

(** Four attempts, with delays of 1 s, 2 s and 4 s between them, when every
    attempt makes the same remote call and fails with a retryable status;
    [P] is anything known of the errors of the attempts. *)
Lemma withRetry_exhausts {A : Type} (attempt : World -> result A * World)
    (P : JsError -> Prop) (ev : NetEvent) (w : World) :
  (forall w0, exists err,
      attempt w0 = (Throw err, mkWorld (S (calls w0)) (trace w0 ++ [ev])) /\
      retryableStatus err = true /\ P err) ->
  exists err,
    withRetry attempt 0 w =
      (Throw err,
       mkWorld (calls w + 4)
         (trace w ++ [ev; SetTimeout 1000; ev; SetTimeout 2000; ev; SetTimeout 4000; ev])) /\
    P err.
Proof.
  intros Hfail.
  destruct (Hfail w) as [e0 [H0 [R0 _]]].
  rewrite withRetry_step, H0, R0. cbn [Nat.ltb Nat.leb andb].
  set (w1 := Gemini.setTimeout _ _).
  destruct (Hfail w1) as [e1 [H1 [R1 _]]].
  rewrite withRetry_step, H1, R1. cbn [Nat.ltb Nat.leb andb].
  set (w2 := Gemini.setTimeout _ _).
  destruct (Hfail w2) as [e2 [H2 [R2 _]]].
  rewrite withRetry_step, H2, R2. cbn [Nat.ltb Nat.leb andb].
  set (w3 := Gemini.setTimeout _ _).
  destruct (Hfail w3) as [e3 [H3 [_ P3]]].
  rewrite withRetry_step, H3. cbn [Nat.ltb Nat.leb andb].
  exists e3. split; [ | exact P3 ].
  subst w3 w2 w1. unfold Gemini.setTimeout. cbn [calls trace].
  repeat rewrite <- app_assoc. cbn [app Nat.pow Nat.mul Nat.add].
  f_equal. f_equal. lia.
Qed.

(** The client functions are the key check followed by the retry loop. *)
Lemma generateWithImagen_withRetry E pn pd an model tw key rc w :
  Gemini.generateWithImagen E pn pd an model tw key rc w =
  if truthy key then withRetry (Gemini.tryGenerateWithImagen E pn pd an model tw) rc w
  else (Throw Gemini.missingKeyError, w).
Proof.
  funelim (Gemini.generateWithImagen E pn pd an model tw key rc w).
  - rewrite Heq. reflexivity.
  - rewrite Heq0, withRetry_step, Heq. reflexivity.
  - rewrite Heq1, withRetry_step, Heq0.
    destruct (Nat.ltb_spec retryCount 3); [ | lia ]. simpl.
    destruct (retryableStatus err); [ | reflexivity ].
    rewrite H, Heq1. reflexivity.
  - rewrite Heq1, withRetry_step, Heq0.
    destruct (Nat.ltb_spec retryCount 3); [ lia | ]. reflexivity.
Qed.

Lemma generateProductAngle_withRetry E refs pn pd an model tw key rc w :
  Gemini.generateProductAngle E refs pn pd an model tw key rc w =
  if truthy (orElse key (VITE_GEMINI_API_KEY E)) then
    if Gemini.isImagenModel model then
      withRetry (Gemini.tryGenerateWithImagen E pn pd an model tw) rc w
    else withRetry (Gemini.tryGenerateProductAngle E refs pn pd an model tw) rc w
  else (Throw Gemini.missingKeyError, w).
Proof.
  funelim (Gemini.generateProductAngle E refs pn pd an model tw key rc w).
  - rewrite Heq. reflexivity.
  - rewrite Heq0, Heq, generateWithImagen_withRetry, Heq0. reflexivity.
  - rewrite Heq1, Heq0, withRetry_step, Heq. reflexivity.
  - rewrite Heq2, Heq1, withRetry_step, Heq0.
    destruct (Nat.ltb_spec retryCount 3); [ | lia ]. simpl.
    destruct (retryableStatus err); [ | reflexivity ].
    rewrite H, orElse_idem, Heq2, Heq1. reflexivity.
  - rewrite Heq2, Heq1, withRetry_step, Heq0.
    destruct (Nat.ltb_spec retryCount 3); [ lia | ]. reflexivity.
Qed.

Lemma generateAllProductAngles_withRetry E refs pn pd angs model tw key rc w :
  Gemini.generateAllProductAngles E refs pn pd angs model tw key rc w =
  if truthy (orElse key (VITE_GEMINI_API_KEY E)) then
    withRetry (Gemini.tryGenerateAllProductAngles E refs pn pd angs model tw) rc w
  else (Throw Gemini.missingKeyError, w).
Proof.
  funelim (Gemini.generateAllProductAngles E refs pn pd angs model tw key rc w).
  - rewrite Heq. reflexivity.
  - rewrite Heq0, withRetry_step, Heq. reflexivity.
  - rewrite Heq1, withRetry_step, Heq0.
    destruct (Nat.ltb_spec retryCount 3); [ | lia ]. simpl.
    destruct (retryableStatus err); [ | reflexivity ].
    rewrite H, orElse_idem, Heq1. reflexivity.
  - rewrite Heq1, withRetry_step, Heq0.
    destruct (Nat.ltb_spec retryCount 3); [ lia | ]. reflexivity.
Qed.

(** Without a key the call fails at once and the network is not touched. *)
Lemma generateProductAngle_missing_key E refs pn pd an model tw key rc w :
  truthy (orElse key (VITE_GEMINI_API_KEY E)) = false ->
  Gemini.generateProductAngle E refs pn pd an model tw key rc w =
    (Throw Gemini.missingKeyError, w).
Proof. intros Hkey. rewrite generateProductAngle_withRetry, Hkey. reflexivity. Qed.

(** *** The transcoder *)

(** C7. [resizeBase64Image] draws the decoded input over the whole of a
    canvas of [targetSize] by [targetSize] pixels, whatever the dimensions of
    the input, and returns the encoding of that canvas; an input that does
    not decode makes it fail with the load error, and no result is
    returned. (The only other failure is a browser without a 2d context.) *)
Theorem resizeBase64Image_forces_square (E : Env) (base64Image : string) (targetSize : nat) :
  match decodeImage E base64Image with
  | None => Gemini.resizeBase64Image E base64Image targetSize = Throw Gemini.loadImageError
  | Some img =>
      if getContext2d E then
        exists c : Canvas,
          Gemini.resizeBase64Image E base64Image targetSize = Ok (toDataURL E c) /\
          width c = targetSize /\ height c = targetSize /\
          drawn c = [mkDraw img 0 0 targetSize targetSize]
      else
        Gemini.resizeBase64Image E base64Image targetSize = Throw Gemini.canvasContextError
  end.
Proof.
  unfold Gemini.resizeBase64Image.
  destruct (decodeImage E base64Image) as [img | ]; [ | reflexivity ].
  destruct (getContext2d E); [ | reflexivity ].
  eexists. split; [ reflexivity | ]. cbn. auto.
Qed.

(** A 640 x 480 input comes out as an 800 x 800 canvas. *)
Example resizeBase64Image_distorts :
  Gemini.resizeBase64Image demoEnv "data:image/png;base64,AAAA" 800 =
  Ok (toDataURL demoEnv
        (mkCanvas 800 800 true "high"
           [mkDraw (mkBitmap 640 480 "data:image/png;base64,AAAA") 0 0 800 800])).
Proof. reflexivity. Qed.

(** An input that has the target size already is drawn and encoded again. *)
Example resizeBase64Image_is_unconditional :
  Gemini.resizeBase64Image squareImagesEnv "data:image/png;base64,AAAA" 800 =
  Ok (toDataURL squareImagesEnv
        (mkCanvas 800 800 true "high"
           [mkDraw (mkBitmap 800 800 "data:image/png;base64,AAAA") 0 0 800 800])).
Proof. reflexivity. Qed.

Lemma resizeBase64Image_Ok (E : Env) (raw : string) (targetSize : nat) (url : string) :
  Gemini.resizeBase64Image E raw targetSize = Ok url ->
  exists img,
    decodeImage E raw = Some img /\
    url = toDataURL E (mkCanvas targetSize targetSize true "high"
                         [mkDraw img 0 0 targetSize targetSize]).
Proof.
  unfold Gemini.resizeBase64Image.
  destruct (decodeImage E raw) as [img | ]; [ | discriminate ].
  destruct (getContext2d E); [ | discriminate ].
  intros H. injection H as <-. exists img. auto.
Qed.

(** *** Normalization of every successful result *)

Lemma tryGenerateWithImagen_resized E pn pd an model tw w url w1 :
  Gemini.tryGenerateWithImagen E pn pd an model tw w = (Ok url, w1) ->
  exists raw, RawImage E model raw /\ Gemini.resizeBase64Image E raw tw = Ok url.
Proof.
  unfold Gemini.tryGenerateWithImagen, Gemini.callGenerateImages.
  destruct (generateImages E (calls w) model (ImagenPrompt pn an pd)) as [[[ | im rest] | ] | e] eqn:Hresp;
    try discriminate.
  destruct im as [s | b | ].
  - destruct (startsWith s "data:"); [ | discriminate ].
    intros H. injection H as H _. exists s. split; [ | exact H ].
    eapply RawImagenString. exact Hresp.
  - destruct (readBlobAsDataURL E b) as [s | e] eqn:Hblob; [ | discriminate ].
    intros H. injection H as H _. exists s. split; [ | exact H ].
    eapply RawImagenBlob; eassumption.
  - discriminate.
Qed.

Lemma tryGenerateProductAngle_resized E refs pn pd an model tw w url w1 :
  Gemini.tryGenerateProductAngle E refs pn pd an model tw w = (Ok url, w1) ->
  exists raw, RawImage E model raw /\ Gemini.resizeBase64Image E raw tw = Ok url.
Proof.
  unfold Gemini.tryGenerateProductAngle, Gemini.callGenerateContent.
  destruct (Gemini.readParts E refs) as [parts | e]; [ | discriminate ].
  match goal with
  | |- context [generateContent E ?n ?m ?ps] =>
      destruct (generateContent E n m ps) as [resp | e] eqn:Hresp
  end; [ | discriminate ].
  destruct (truthy (Gemini.firstInlineData (Gemini.responseParts resp))); [ | discriminate ].
  intros H. injection H as H _.
  eexists. split; [ | exact H ].
  eapply RawInline. exact Hresp.
Qed.

(** C6. Whenever [generateProductAngle] succeeds, what it returns is the
    encoding of a [targetWidth] by [targetWidth] canvas on which a raw image
    of the remote model was drawn: the result of [resizeBase64Image] on that
    raw image. No condition on the dimensions of the raw image enters. *)
Theorem generateProductAngle_normalizes (E : Env) (referenceFiles : list File)
    (productName description anglePrompt model : string) (width : nat) (key : string)
    (retryCount : nat) (w : World) (url : string) (w' : World) :
  Gemini.generateProductAngle E referenceFiles productName description anglePrompt model
    width key retryCount w = (Ok url, w') ->
  exists raw img,
    RawImage E model raw /\
    decodeImage E raw = Some img /\
    Gemini.resizeBase64Image E raw width = Ok url /\
    url = toDataURL E (mkCanvas width width true "high" [mkDraw img 0 0 width width]).
Proof.
  rewrite generateProductAngle_withRetry.
  destruct (truthy (orElse key (VITE_GEMINI_API_KEY E))); [ | discriminate ].
  intros Hres.
  assert (Hraw : exists raw, RawImage E model raw /\
                             Gemini.resizeBase64Image E raw width = Ok url).
  { destruct (Gemini.isImagenModel model);
      apply withRetry_Ok in Hres; destruct Hres as [w0 Hatt].
    - eapply tryGenerateWithImagen_resized; eassumption.
    - eapply tryGenerateProductAngle_resized; eassumption. }
  destruct Hraw as [raw [Hraw Hresize]].
  destruct (resizeBase64Image_Ok _ _ _ Hresize) as [img [Hdec Hurl]].
  exists raw, img. auto.
Qed.

Lemma generateProductAngle_normalizes_witness :
  exists raw img,
    RawImage demoEnv "gemini-2.5-flash-image" raw /\
    decodeImage demoEnv raw = Some img /\
    Gemini.resizeBase64Image demoEnv raw 800 =
      Ok "canvas:data:image/png;base64,iVBORw0KGgo=" /\
    "canvas:data:image/png;base64,iVBORw0KGgo=" =
      toDataURL demoEnv (mkCanvas 800 800 true "high" [mkDraw img 0 0 800 800]).
Proof.
  apply (@generateProductAngle_normalizes demoEnv [referencePhoto] "Mug" "A mug"
           "Front view of the product" "gemini-2.5-flash-image" 800 "secret" 0 emptyWorld
           "canvas:data:image/png;base64,iVBORw0KGgo="
           (mkWorld 1 [GenerateContentCall "gemini-2.5-flash-image"
                         [InlineData (Some "UkVG") "image/jpeg";
                          Text (AnglePrompt "Mug" 1 "Front view of the product" "A mug" 800)]])).
  vm_compute. reflexivity.
Defined.

(** The earlier revision returned the image of the model as received. *)
Example legacy_generateProductAngle_returns_raw :
  fst (GeminiLegacy.generateProductAngle
         (mkEnv "build-key" (generateContent demoEnv) (generateImages demoEnv)
            (readAsDataURL demoEnv) (readBlobAsDataURL demoEnv) (decodeImage demoEnv) true
            (toDataURL demoEnv) (fetchBlob demoEnv) (createObjectURL demoEnv)
            lengthCompare (fun _ => false))
         [referencePhoto] "Mug" "A mug" "Front view of the product"
         "gemini-2.5-flash-image" 800 0 emptyWorld)
  = Ok "data:image/png;base64,iVBORw0KGgo=".
Proof. vm_compute. reflexivity. Qed.

(** *** The retry policy *)

Lemma retryable_of_category (err : JsError) :
  errorCategory err <> OtherFailure -> retryableStatus err = true.
Proof.
  unfold errorCategory, retryableStatus.
  destruct (status err) as [st | ]; [ | congruence ].
  destruct (Nat.leb_spec 500 st); cbn [andb orb]; [ reflexivity | ].
  destruct (Nat.eqb_spec st 429); [ reflexivity | congruence ].
Qed.

Lemma not_retryable_of_category (err : JsError) :
  errorCategory err = OtherFailure -> httpStatus err -> retryableStatus err = false.
Proof.
  unfold errorCategory, retryableStatus, httpStatus.
  destruct (status err) as [st | ]; [ | reflexivity ].
  destruct (Nat.leb_spec 500 st); cbn [andb orb].
  - destruct (Nat.leb_spec st 599); [ discriminate | lia ].
  - destruct (Nat.eqb_spec st 429); [ discriminate | reflexivity ].
Qed.

(** An attempt leaves the world as it is or adds one remote call to it. *)
Lemma firstAttempt_world E refs pn pd an model tw w res w1 :
  firstAttempt E refs pn pd an model tw w = (res, w1) ->
  w1 = w \/ exists ev, isRemoteCall ev = true /\
                       w1 = mkWorld (S (calls w)) (trace w ++ [ev]).
Proof.
  unfold firstAttempt, Gemini.tryGenerateWithImagen, Gemini.tryGenerateProductAngle,
    Gemini.callGenerateImages, Gemini.callGenerateContent.
  destruct (Gemini.isImagenModel model).
  - intros H. right. eexists. split; [ | ].
    2: { destruct (generateImages E (calls w) model (ImagenPrompt pn an pd))
           as [[[ | [s | b | ] rest] | ] | e];
         try destruct (startsWith s "data:");
         try destruct (readBlobAsDataURL E b);
         injection H as _ H; symmetry; exact H. }
    reflexivity.
  - destruct (Gemini.readParts E refs) as [parts | e].
    + intros H. right. eexists. split; [ | ].
      2: { match type of H with
           | context [generateContent E ?n ?m ?ps] =>
               destruct (generateContent E n m ps) as [resp | e]
           end;
           try destruct (truthy (Gemini.firstInlineData (Gemini.responseParts resp)));
           injection H as _ H; symmetry; exact H. }
      reflexivity.
    + intros H. left. injection H as _ H. auto.
Qed.

Lemma delays_app (t1 t2 : list NetEvent) : delays (t1 ++ t2) = delays t1 ++ delays t2.
Proof. unfold delays. apply flat_map_app. Qed.

Lemma remoteCalls_app (t1 t2 : list NetEvent) :
  remoteCalls (t1 ++ t2) = remoteCalls t1 + remoteCalls t2.
Proof. unfold remoteCalls. rewrite filter_app, length_app. reflexivity. Qed.

(** C3. A call of the generation client with a key present:
    - when the remote requests always fail with a 5xx or a 429 status (and
      the reference files can be read), the same request is made exactly
      four times, a delay of 1000 ms, 2000 ms and 4000 ms precedes the second,
      third and fourth attempt, and the failure of the fourth is what the
      call throws;
    - when the attempt fails in any other way, whatever the retry count,
      that failure is thrown at once: no delay is added and at most the one
      request of the attempt was made. *)
Theorem generateProductAngle_retry_policy (E : Env) (referenceFiles : list File)
    (productName description anglePrompt model : string) (width : nat) (key : string)
    (w : World)
    (Hkey : truthy (orElse key (VITE_GEMINI_API_KEY E)) = true) :
  (remoteAlwaysFails E model ->
   (exists parts, Gemini.readParts E referenceFiles = Ok parts) ->
   exists err ev,
     Gemini.generateProductAngle E referenceFiles productName description anglePrompt model
       width key 0 w =
       (Throw err,
        mkWorld (calls w + 4)
          (trace w ++ [ev; SetTimeout 1000; ev; SetTimeout 2000; ev; SetTimeout 4000; ev])) /\
     isRemoteCall ev = true /\
     errorCategory err <> OtherFailure)
  /\
  (forall retryCount err w1,
     firstAttempt E referenceFiles productName description anglePrompt model width w =
       (Throw err, w1) ->
     errorCategory err = OtherFailure ->
     httpStatus err ->
     Gemini.generateProductAngle E referenceFiles productName description anglePrompt model
       width key retryCount w = (Throw err, w1) /\
     delays (trace w1) = delays (trace w) /\
     remoteCalls (trace w1) <= remoteCalls (trace w) + 1).
Proof.
  split.
  - intros [Hcontent Himages] [parts Hread].
    rewrite generateProductAngle_withRetry, Hkey.
    destruct (Gemini.isImagenModel model).
    + set (ev := GenerateImagesCall model (ImagenPrompt productName anglePrompt description)).
      destruct (@withRetry_exhausts string
                  (Gemini.tryGenerateWithImagen E productName description anglePrompt model width)
                  (fun err => errorCategory err <> OtherFailure) ev w) as [err [Hrun Hcat]].
      { intros w0. destruct (Himages (calls w0)
                               (ImagenPrompt productName anglePrompt description))
          as [err [Herr Hcat]].
        exists err. split; [ | split; [ apply retryable_of_category | ]; exact Hcat ].
        unfold Gemini.tryGenerateWithImagen, Gemini.callGenerateImages.
        rewrite Herr. reflexivity. }
      exists err, ev. auto.
    + set (ev := GenerateContentCall model
                   (parts ++ [Text (AnglePrompt productName (List.length referenceFiles)
                                      anglePrompt description width)])).
      destruct (@withRetry_exhausts string
                  (Gemini.tryGenerateProductAngle E referenceFiles productName description
                     anglePrompt model width)
                  (fun err => errorCategory err <> OtherFailure) ev w) as [err [Hrun Hcat]].
      { intros w0. destruct (Hcontent (calls w0)
                               (parts ++ [Text (AnglePrompt productName
                                                  (List.length referenceFiles)
                                                  anglePrompt description width)]))
          as [err [Herr Hcat]].
        exists err. split; [ | split; [ apply retryable_of_category | ]; exact Hcat ].
        unfold Gemini.tryGenerateProductAngle, Gemini.callGenerateContent.
        rewrite Hread, Herr. reflexivity. }
      exists err, ev. auto.
  - intros retryCount err w1 Hatt Hcat Hhttp.
    pose proof (not_retryable_of_category err Hcat Hhttp) as Hno.
    split.
    + rewrite generateProductAngle_withRetry, Hkey.
      unfold firstAttempt in Hatt.
      destruct (Gemini.isImagenModel model); apply withRetry_propagates; assumption.
    + destruct (firstAttempt_world _ _ _ _ _ _ _ _ Hatt) as [-> | [ev [Hev ->]]].
      * split; [ reflexivity | lia ].
      * cbn [trace]. rewrite delays_app, remoteCalls_app.
        unfold delays at 2, remoteCalls at 2. cbn [flat_map filter].
        destruct ev; try discriminate Hev; cbn; rewrite app_nil_r; split; (reflexivity || lia).
Qed.

Lemma generateProductAngle_retry_policy_witness :
  (exists err ev,
     Gemini.generateProductAngle failingEnv [referencePhoto] "Mug" "A mug"
       "Front view of the product" "gemini-2.5-flash-image" 800 "secret" 0 emptyWorld =
       (Throw err,
        mkWorld 4 [ev; SetTimeout 1000; ev; SetTimeout 2000; ev; SetTimeout 4000; ev]) /\
     isRemoteCall ev = true /\
     errorCategory err <> OtherFailure)
  /\
  (Gemini.generateProductAngle refusingEnv [referencePhoto] "Mug" "A mug"
     "Front view of the product" "gemini-2.5-flash-image" 800 "secret" 2 emptyWorld =
     (Throw (mkError "Bad request" (Some 400)),
      mkWorld 1 [GenerateContentCall "gemini-2.5-flash-image"
                   [InlineData (Some "UkVG") "image/jpeg";
                    Text (AnglePrompt "Mug" 1 "Front view of the product" "A mug" 800)]])).
Proof.
  split.
  - apply (proj1 (@generateProductAngle_retry_policy failingEnv [referencePhoto] "Mug" "A mug"
                    "Front view of the product" "gemini-2.5-flash-image" 800 "secret"
                    emptyWorld eq_refl)).
    + split; intros; eexists; (split; [ reflexivity | discriminate ]).
    + eexists. reflexivity.
  - apply (proj2 (@generateProductAngle_retry_policy refusingEnv [referencePhoto] "Mug" "A mug"
                    "Front view of the product" "gemini-2.5-flash-image" 800 "secret"
                    emptyWorld eq_refl) 2).
    + reflexivity.
    + reflexivity.
    + unfold httpStatus. simpl. lia.
Defined.

(** *** The batched call *)

Lemma padWithLast_repeat (resultImages : list string) (n : nat) :
  Gemini.padWithLast resultImages n =
  resultImages ++ repeat (Gemini.lastImage resultImages) (n - List.length resultImages).
Proof.
  funelim (Gemini.padWithLast resultImages n).
  - rewrite H. unfold Gemini.lastImage. rewrite last_last, length_app. cbn [List.length].
    replace (n - List.length resultImages) with (S (n - (List.length resultImages + 1))) by lia.
    cbn [repeat]. rewrite <- app_assoc. reflexivity.
  - match goal with
    | |- context [?k - List.length resultImages] =>
        replace (k - List.length resultImages) with 0 by lia
    end.
    cbn [repeat]. rewrite app_nil_r. reflexivity.
Qed.

Lemma completeImages_length (resultImages : list string) (n : nat) (urls : list string) :
  Gemini.completeImages resultImages n = Ok urls -> List.length urls = n.
Proof.
  unfold Gemini.completeImages.
  destruct (Nat.eqb_spec (List.length resultImages) 0); [ discriminate | ].
  intros H. injection H as <-.
  destruct (Nat.ltb_spec (List.length resultImages) n).
  - rewrite padWithLast_repeat, length_firstn, length_app, repeat_length. lia.
  - rewrite length_firstn. lia.
Qed.

Lemma extractImages_length (E : Env) (parts : list ResponsePart) (width : nat) :
  forall acc resultImages,
    Gemini.extractImages E parts width acc = Ok resultImages ->
    List.length resultImages = List.length acc + inlineImages parts.
Proof.
  unfold inlineImages.
  induction parts as [ | [data | t] rest IH]; intros acc resultImages Hext;
    cbn [Gemini.extractImages filter List.length] in *.
  - injection Hext as <-. lia.
  - destruct (Gemini.resizeBase64Image E ("data:image/png;base64," ++ data) width)
      as [resized | e]; [ | discriminate ].
    rewrite (IH _ _ Hext), length_app. cbn. lia.
  - apply IH. exact Hext.
Qed.

(** C4. A batched call for [n] views (key present, reference files read)
    whose remote request is answered: with [resultImages] the images of the
    answer, each resized (there are as many as the answer has images), the
    call returns what [completeImages] makes of them, and
    - with no image it fails with the empty-result error;
    - with at least one and fewer than [n] images it returns them followed
      by copies of the last one, up to [n];
    - with more than [n] images it returns the first [n];
    and every list the batched client ever returns has [n] elements. *)
Theorem generateAllProductAngles_count (E : Env) (referenceFiles : list File)
    (productName description : string) (views : list (string * string)) (model : string)
    (width : nat) (key : string) (retryCount : nat) (w : World)
    (parts : list Part) (resp : option (list ResponsePart)) (resultImages : list string)
    (Hkey : truthy (orElse key (VITE_GEMINI_API_KEY E)) = true)
    (Hread : Gemini.readParts E referenceFiles = Ok parts)
    (Hresp : generateContent E (calls w) model
               (parts ++ [Text (AllAnglesPrompt productName (List.length referenceFiles)
                                  views description width)]) = Ok resp)
    (Himgs : Gemini.extractImages E (Gemini.responseParts resp) width [] = Ok resultImages) :
  let n := List.length views in
  List.length resultImages = inlineImages (Gemini.responseParts resp) /\
  (exists w1,
     Gemini.generateAllProductAngles E referenceFiles productName description views model
       width key retryCount w = (Gemini.completeImages resultImages n, w1)) /\
  (List.length resultImages = 0 ->
   Gemini.completeImages resultImages n = Throw Gemini.noImageError) /\
  (1 <= List.length resultImages < n ->
   Gemini.completeImages resultImages n =
     Ok (resultImages ++
         repeat (List.last resultImages "") (n - List.length resultImages))) /\
  (n < List.length resultImages ->
   Gemini.completeImages resultImages n = Ok (firstn n resultImages)) /\
  (forall retryCount0 w0 urls w',
     Gemini.generateAllProductAngles E referenceFiles productName description views model
       width key retryCount0 w0 = (Ok urls, w') ->
     List.length urls = n).
Proof.
  intros n. repeat split.
  - apply (extractImages_length E _ _ _ Himgs).
  - rewrite generateAllProductAngles_withRetry, Hkey, withRetry_step.
    unfold Gemini.tryGenerateAllProductAngles, Gemini.callGenerateContent.
    rewrite Hread, Hresp, Himgs. fold n.
    destruct (Gemini.completeImages resultImages n) as [urls | err] eqn:Hdone.
    + eexists. reflexivity.
    + assert (Herr : err = Gemini.noImageError).
      { unfold Gemini.completeImages in Hdone.
        destruct (List.length resultImages =? 0); congruence. }
      subst err. cbn [retryableStatus Gemini.noImageError Error status].
      rewrite andb_false_r. eexists. reflexivity.
  - intros Hzero. unfold Gemini.completeImages. rewrite Hzero. reflexivity.
  - intros [Hone Hfew]. unfold Gemini.completeImages.
    destruct (Nat.eqb_spec (List.length resultImages) 0); [ lia | ].
    destruct (Nat.ltb_spec (List.length resultImages) n); [ | lia ].
    rewrite padWithLast_repeat. unfold Gemini.lastImage.
    rewrite firstn_all2; [ reflexivity | ].
    rewrite length_app, repeat_length. lia.
  - intros Hmany. unfold Gemini.completeImages.
    destruct (Nat.eqb_spec (List.length resultImages) 0); [ lia | ].
    destruct (Nat.ltb_spec (List.length resultImages) n); [ lia | ]. reflexivity.
  - intros retryCount0 w0 urls w' Hrun.
    rewrite generateAllProductAngles_withRetry, Hkey in Hrun.
    apply withRetry_Ok in Hrun. destruct Hrun as [w2 Hatt].
    unfold Gemini.tryGenerateAllProductAngles, Gemini.callGenerateContent in Hatt.
    rewrite Hread in Hatt.
    match type of Hatt with
    | context [generateContent E ?k ?m ?ps] => destruct (generateContent E k m ps) as [r | e]
    end; [ | discriminate ].
    destruct (Gemini.extractImages E (Gemini.responseParts r) width []) as [imgs | e];
      [ | discriminate ].
    injection Hatt as Hdone _. eapply completeImages_length. exact Hdone.
Qed.

(** Two images for three views: the second one is returned twice. *)
Lemma generateAllProductAngles_count_witness :
  exists w1,
    Gemini.generateAllProductAngles twoImagesEnv [referencePhoto] "Mug" "A mug" threeViews
      "gemini-2.5-flash-image" 800 "secret" 0 emptyWorld =
    (Ok ["canvas:data:image/png;base64,QQ=="; "canvas:data:image/png;base64,Qg==";
         "canvas:data:image/png;base64,Qg=="], w1).
Proof.
  apply (proj1 (proj2 (@generateAllProductAngles_count twoImagesEnv [referencePhoto] "Mug" "A mug"
                  threeViews "gemini-2.5-flash-image" 800 "secret" 0 emptyWorld
                  [InlineData (Some "UkVG") "image/jpeg"]
                  (Some [RInlineData "QQ=="; RText "and"; RInlineData "Qg=="])
                  ["canvas:data:image/png;base64,QQ=="; "canvas:data:image/png;base64,Qg=="]
                  eq_refl eq_refl eq_refl eq_refl))).
Defined.

(** The catch block of the earlier revision is the same retry loop. *)
Lemma legacy_generateWithImagen_withRetry E pn pd an model tw rc w :
  GeminiLegacy.generateWithImagen E pn pd an model tw rc w =
  if truthy (VITE_GEMINI_API_KEY E) then
    withRetry (GeminiLegacy.tryGenerateWithImagen E pn pd an model) rc w
  else (Throw GeminiLegacy.missingEnvKeyError, w).
Proof.
  funelim (GeminiLegacy.generateWithImagen E pn pd an model tw rc w).
  - rewrite Heq. reflexivity.
  - rewrite Heq0, withRetry_step, Heq. reflexivity.
  - rewrite Heq1, withRetry_step, Heq0.
    destruct (Nat.ltb_spec retryCount 3); [ | lia ]. simpl.
    destruct (retryableStatus err); [ | reflexivity ].
    rewrite H, Heq1. reflexivity.
  - rewrite Heq1, withRetry_step, Heq0.
    destruct (Nat.ltb_spec retryCount 3); [ lia | ]. reflexivity.
Qed.

Lemma legacy_generateProductAngle_withRetry E refs pn pd an model tw rc w :
  GeminiLegacy.generateProductAngle E refs pn pd an model tw rc w =
  if truthy (VITE_GEMINI_API_KEY E) then
    if Gemini.isImagenModel model then
      withRetry (GeminiLegacy.tryGenerateWithImagen E pn pd an model) rc w
    else withRetry (GeminiLegacy.tryGenerateProductAngle E refs pn pd an model tw) rc w
  else (Throw GeminiLegacy.missingEnvKeyError, w).
Proof.
  funelim (GeminiLegacy.generateProductAngle E refs pn pd an model tw rc w).
  - rewrite Heq. reflexivity.
  - rewrite Heq0, Heq, legacy_generateWithImagen_withRetry, Heq0. reflexivity.
  - rewrite Heq1, Heq0, withRetry_step, Heq. reflexivity.
  - rewrite Heq2, Heq1, withRetry_step, Heq0.
    destruct (Nat.ltb_spec retryCount 3); [ | lia ]. simpl.
    destruct (retryableStatus err); [ | reflexivity ].
    rewrite H, Heq2, Heq1. reflexivity.
  - rewrite Heq2, Heq1, withRetry_step, Heq0.
    destruct (Nat.ltb_spec retryCount 3); [ lia | ]. reflexivity.
Qed.

(** Four attempts there as well, against a remote API that always answers
    with status 500. *)
Example legacy_generateProductAngle_retries :
  GeminiLegacy.generateProductAngle
    (mkEnv "build-key" (generateContent failingEnv) (generateImages failingEnv)
       (readAsDataURL demoEnv) (readBlobAsDataURL demoEnv) (decodeImage demoEnv) true
       (toDataURL demoEnv) (fetchBlob demoEnv) (createObjectURL demoEnv)
       lengthCompare (fun _ => false))
    [] "Mug" "A mug" "Front view of the product" "gemini-2.5-flash-image" 800 0 emptyWorld
  = (Throw (mkError "Internal error" (Some 500)),
     let call :=
       GenerateContentCall "gemini-2.5-flash-image"
         [Text (AnglePrompt "Mug" 0 "Front view of the product" "A mug" 800)] in
     mkWorld 4 [call; SetTimeout 1000; call; SetTimeout 2000; call; SetTimeout 4000; call]).
Proof. vm_compute. reflexivity. Qed.

(* ===================================================================== *)
(** ** The orchestrator: the loops *)
(* ===================================================================== *)

(** *** Each handler is an instance of the loops stated once *)

Lemma angleLoopBatch_angleLoop E r product enabledAngles generatedImages run :
  App.angleLoopBatch E r product enabledAngles generatedImages run =
  angleLoop (stopRequested r) App.stopBatch (App.generateAngleBatch E r)
    product enabledAngles generatedImages run.
Proof.
  revert generatedImages run.
  induction enabledAngles as [ | a rest IH]; intros generatedImages run; cbn.
  - reflexivity.
  - destruct (stopRequested r); [ reflexivity | ].
    unfold App.bind.
    destruct (App.generateAngleBatch E r product a generatedImages run) as [imgs run1].
    apply IH.
Qed.

Lemma productLoopBatch_productLoop E r enabledAngles startIndex i todo updatedProducts run :
  App.productLoopBatch E r enabledAngles startIndex i todo updatedProducts run =
  productLoop (stopRequested r) App.stopBatch
    (fun product => App.set (App.addLog (LogProcessingProduct (pname product)) info))
    (App.generateAngleBatch E r) enabledAngles (startIndex + i) todo updatedProducts run.
Proof.
  revert i updatedProducts run.
  induction todo as [ | product rest IH]; intros i updatedProducts run; cbn.
  - reflexivity.
  - destruct (stopRequested r) eqn:Hstop; [ reflexivity | ].
    unfold App.bind, App.set, App.ret. cbn.
    rewrite angleLoopBatch_angleLoop, Hstop.
    match goal with
    | |- context [angleLoop ?s ?o ?g ?p ?a ?l ?x] => destruct (angleLoop s o g p a l x) as [flow run1]
    end.
    destruct flow as [generatedImages | ]; [ | reflexivity ].
    rewrite IH, Nat.add_succ_r. reflexivity.
Qed.

Lemma angleLoopAll_angleLoop E r product enabledAngles generatedImages run :
  App.angleLoopAll E r product enabledAngles generatedImages run =
  angleLoop (stopRequested r) App.stopAll (App.generateAngleAll E r)
    product enabledAngles generatedImages run.
Proof.
  revert generatedImages run.
  induction enabledAngles as [ | a rest IH]; intros generatedImages run; cbn.
  - reflexivity.
  - destruct (stopRequested r); [ reflexivity | ].
    unfold App.bind.
    destruct (App.generateAngleAll E r product a generatedImages run) as [imgs run1].
    apply IH.
Qed.

Lemma productLoopAll_productLoop E r enabledAngles productIndex todo updatedProducts run :
  App.productLoopAll E r enabledAngles productIndex todo updatedProducts run =
  productLoop (stopRequested r) App.stopAll (fun _ => App.ret tt)
    (App.generateAngleAll E r) enabledAngles productIndex todo updatedProducts run.
Proof.
  revert productIndex updatedProducts run.
  induction todo as [ | product rest IH]; intros productIndex updatedProducts run; cbn.
  - reflexivity.
  - destruct (stopRequested r) eqn:Hstop; [ reflexivity | ].
    unfold App.bind, App.set, App.ret. cbn.
    rewrite angleLoopAll_angleLoop, Hstop.
    match goal with
    | |- context [angleLoop ?s ?o ?g ?p ?a ?l ?x] => destruct (angleLoop s o g p a l x) as [flow run1]
    end.
    destruct flow as [generatedImages | ]; [ | reflexivity ].
    rewrite IH. reflexivity.
Qed.

(** *** What the loops do *)

Ltac split4 := split; [ | split; [ | split ] ].

Section LoopRuns.

Variable E : Env.
Variable r : AppState.
(** Bounds on what one unit adds to the request counter. *)
Variables lo hi : nat.
(** What is known of the entry of a unit, and of the network over a run. *)
Variable R : Product -> AngleConfig -> ImageFile -> Prop.
Variable Qw : World -> World -> Prop.
Hypothesis Qw_refl : forall w, Qw w w.
Hypothesis Qw_trans : forall w1 w2 w3, Qw w1 w2 -> Qw w2 w3 -> Qw w1 w3.

Lemma Advanced_nil (run run' : Run) :
  totalAnglesProcessed (store run') = totalAnglesProcessed (store run) ->
  apiRequestCount (store run') = apiRequestCount (store run) ->
  totalAnglesToProcess (store run') = totalAnglesToProcess (store run) ->
  stopRequested (store run') = stopRequested (store run) ->
  clientCalls run' = clientCalls run ->
  world run' = world run ->
  Advanced E lo hi Qw [] run run'.
Proof.
  intros H1 H2 H3 H4 H5 H6. unfold Advanced, clickedDuring. cbn.
  rewrite H1, H2, H3, H4, H5, H6, orb_false_r, app_nil_r.
  repeat split; try lia. apply Qw_refl.
Qed.

Lemma Advanced_trans (cs1 cs2 : list ClientCall) (run1 run2 run3 : Run) :
  Advanced E lo hi Qw cs1 run1 run2 -> Advanced E lo hi Qw cs2 run2 run3 ->
  Advanced E lo hi Qw (cs1 ++ cs2) run1 run3.
Proof.
  intros (A1 & A2 & A3 & A4 & A5 & A6 & A7) (B1 & B2 & B3 & B4 & B5 & B6 & B7).
  unfold Advanced. rewrite length_app.
  repeat split; try lia; try nia.
  - rewrite B5, A5, A6, length_app. unfold clickedDuring.
    rewrite seq_app, existsb_app, orb_assoc. reflexivity.
  - rewrite B6, A6, app_assoc. reflexivity.
  - eapply Qw_trans; eassumption.
Qed.

(** A setter that leaves the counters and the stop flag alone. *)
Lemma Advanced_set (f : AppState -> AppState) (run : Run) :
  (forall s, totalAnglesProcessed (f s) = totalAnglesProcessed s /\
             apiRequestCount (f s) = apiRequestCount s /\
             totalAnglesToProcess (f s) = totalAnglesToProcess s /\
             stopRequested (f s) = stopRequested s) ->
  Advanced E lo hi Qw [] run (snd (App.set f run)).
Proof.
  intros Hf. destruct (Hf (store run)) as (H1 & H2 & H3 & H4).
  apply Advanced_nil; cbn; auto.
Qed.

Variable onStop : App.M unit.
Variable beforeProduct : Product -> App.M unit.
Variable generateAngle : Product -> AngleConfig -> list ImageFile -> App.M (list ImageFile).

Hypothesis unit_spec : UnitSpec E r lo hi R Qw generateAngle.
Hypothesis before_spec : BeforeSpec E lo hi Qw beforeProduct.

(** With the flag not set, the loop over the angles runs to its end. *)
Lemma angleLoop_completes (product : Product) (enabledAngles : list AngleConfig) :
  forall generatedImages run,
  exists entries run',
    angleLoop false onStop generateAngle product enabledAngles generatedImages run =
      (App.Continue (generatedImages ++ entries), run') /\
    Forall2 (R product) enabledAngles entries /\
    Advanced E lo hi Qw (map (callOf r product) enabledAngles) run run' /\
    products (store run') = products (store run).
Proof.
  induction enabledAngles as [ | a rest IH]; intros generatedImages run; cbn.
  - exists [], run. rewrite app_nil_r. split4; auto.
    apply Advanced_nil; reflexivity.
  - unfold App.bind.
    destruct (unit_spec product a generatedImages run)
      as (entry & run1 & Hunit & Hentry & Hadv & Hprod).
    rewrite Hunit.
    destruct (IH (generatedImages ++ [entry]) run1)
      as (entries & run2 & Hloop & Hentries & Hadv2 & Hprod2).
    exists (entry :: entries), run2. rewrite Hloop, <- app_assoc. cbn.
    split4; auto.
    + exact (Advanced_trans Hadv Hadv2).
    + congruence.
Qed.

(** With the flag not set, the loop over the products runs to its end. *)
Lemma productLoop_completes (enabledAngles : list AngleConfig) (todo : list Product) :
  forall index updatedProducts run,
  exists updated' run',
    productLoop false onStop beforeProduct generateAngle enabledAngles index todo
      updatedProducts run = (App.Continue updated', run') /\
    Committed R enabledAngles index todo updatedProducts updated' /\
    Advanced E lo hi Qw (callsOf r enabledAngles todo) run run' /\
    (todo <> [] -> products (store run') = updated').
Proof.
  induction todo as [ | product rest IH]; intros index updatedProducts run; cbn.
  - exists updatedProducts, run. split4.
    + reflexivity.
    + constructor.
    + apply Advanced_nil; reflexivity.
    + congruence.
  - unfold App.bind at 1.
    destruct (before_spec product run) as [Hbefore Hbprod].
    destruct (beforeProduct product run) as [[] run0]. cbn in Hbefore, Hbprod.
    unfold App.bind at 1.
    destruct (angleLoop_completes product enabledAngles [] run0)
      as (entries & run1 & Hloop & Hentries & Hadv & Hprod).
    rewrite Hloop. cbn [app].
    unfold App.bind at 1. cbn [App.set].
    set (updated1 := App.setGeneratedImages index entries updatedProducts).
    set (run2 := mkRun _ _ _).
    destruct (IH (S index) updated1 run2)
      as (updated' & run3 & Hrest & Hcommitted & Hadv3 & Hprod3).
    exists updated', run3. rewrite Hrest. split4.
    + reflexivity.
    + econstructor; eassumption.
    + unfold callsOf. cbn [flat_map].
      change (map (callOf r product) enabledAngles ++
              flat_map (fun p => map (callOf r p) enabledAngles) rest)
        with (([] ++ map (callOf r product) enabledAngles) ++ callsOf r enabledAngles rest).
      eapply Advanced_trans; [ eapply Advanced_trans; [ exact Hbefore | exact Hadv ] | ].
      change (callsOf r enabledAngles rest) with ([] ++ callsOf r enabledAngles rest).
      eapply Advanced_trans; [ | exact Hadv3 ].
      subst run2. apply (Advanced_set (App.setProducts updated1) run1).
      intros s. cbn. auto.
    + intros _. destruct rest as [ | p rest'].
      * cbn in Hrest. injection Hrest as <- <-. subst run2. reflexivity.
      * apply Hprod3. discriminate.
Qed.

(** With the flag set, the first check stops the loop: no unit runs. *)
Lemma productLoop_stops (enabledAngles : list AngleConfig) (product : Product)
    (todo : list Product) (index : nat) (updatedProducts : list Product) (run : Run) :
  productLoop true onStop beforeProduct generateAngle enabledAngles index (product :: todo)
    updatedProducts run = (App.Return, snd (onStop run)).
Proof.
  cbn. unfold App.bind, App.ret. destruct (onStop run) as [[] run1]. reflexivity.
Qed.

End LoopRuns.

(** *** One unit of each handler *)

Ltac advanced_one :=
  unfold Advanced, clickedDuring; cbn;
  repeat match goal with
         | H : stopClicked _ _ = _ |- _ => rewrite H; clear H
         end;
  repeat match goal with
         | |- _ /\ _ => split
         end;
  try lia; try reflexivity; auto;
  try (rewrite ?orb_false_r, ?orb_true_r; reflexivity).

(** One unit of [handleGenerateBatch]: one client call, one entry, the
    processed counter up by one, the request counter up by one, or by two
    when the generation succeeded and fetching its result failed. *)
Lemma generateAngleBatch_unit (E : Env) (r : AppState) :
  UnitSpec E r 1 2 resultFor (fun _ _ => True) (App.generateAngleBatch E r).
Proof.
  intros product a generatedImages run.
  unfold App.generateAngleBatch, App.catchBatch, App.awaitGenerateProductAngle,
    App.bind, App.set, App.ret. cbn.
  destruct (Gemini.generateProductAngle E (map file (images product)) (pname product)
              (orElse (productDescription r) "A high-quality product") (prompt a)
              (modelName r) (targetWidth r) (apiKey r) 0 (world run)) as [[blobUrl | err] w1].
  - destruct (fetchBlob E blobUrl) as [blob | err].
    + eexists _, _. split4; [ reflexivity | right; eauto | | ].
      * destruct (stopClicked E (List.length (clientCalls run))) eqn:Hclick; advanced_one.
      * destruct (stopClicked E (List.length (clientCalls run))); reflexivity.
    + eexists _, _. split4; [ reflexivity | left; reflexivity | | ].
      * destruct (stopClicked E (List.length (clientCalls run))) eqn:Hclick; advanced_one.
      * destruct (stopClicked E (List.length (clientCalls run))); reflexivity.
  - eexists _, _. split4; [ reflexivity | left; reflexivity | | ].
    + destruct (stopClicked E (List.length (clientCalls run))) eqn:Hclick; advanced_one.
    + destruct (stopClicked E (List.length (clientCalls run))); reflexivity.
Qed.

(** When the results can always be fetched back, the request counter goes
    up by exactly one per unit. *)
Lemma generateAngleBatch_unit_fetched (E : Env) (r : AppState) :
  (forall url, exists blob, fetchBlob E url = Ok blob) ->
  UnitSpec E r 1 1 resultFor (fun _ _ => True) (App.generateAngleBatch E r).
Proof.
  intros Hfetch product a generatedImages run.
  unfold App.generateAngleBatch, App.catchBatch, App.awaitGenerateProductAngle,
    App.bind, App.set, App.ret. cbn.
  destruct (Gemini.generateProductAngle E (map file (images product)) (pname product)
              (orElse (productDescription r) "A high-quality product") (prompt a)
              (modelName r) (targetWidth r) (apiKey r) 0 (world run)) as [[blobUrl | err] w1].
  - destruct (Hfetch blobUrl) as [blob ->].
    eexists _, _. split4; [ reflexivity | right; eauto | | ].
    + destruct (stopClicked E (List.length (clientCalls run))) eqn:Hclick; advanced_one.
    + destruct (stopClicked E (List.length (clientCalls run))); reflexivity.
  - eexists _, _. split4; [ reflexivity | left; reflexivity | | ].
    + destruct (stopClicked E (List.length (clientCalls run))) eqn:Hclick; advanced_one.
    + destruct (stopClicked E (List.length (clientCalls run))); reflexivity.
Qed.

(** Without a key every unit of [handleGenerateBatch] fails, and the network
    is left as it was. *)
Lemma generateAngleBatch_unit_without_key (E : Env) (r : AppState) :
  truthy (orElse (apiKey r) (VITE_GEMINI_API_KEY E)) = false ->
  UnitSpec E r 1 1 (fun product a img => img = App.failedImage product a)
    (fun w w' => w' = w) (App.generateAngleBatch E r).
Proof.
  intros Hkey product a generatedImages run.
  unfold App.generateAngleBatch, App.catchBatch, App.awaitGenerateProductAngle,
    App.bind, App.set, App.ret. cbn.
  rewrite (generateProductAngle_missing_key _ _ _ _ _ _ _ _ _ _ Hkey).
  eexists _, _. split4; [ reflexivity | reflexivity | | ].
  - destruct (stopClicked E (List.length (clientCalls run))) eqn:Hclick; advanced_one.
  - destruct (stopClicked E (List.length (clientCalls run))); reflexivity.
Qed.

(** One unit of [handleGenerateAll]: the same, but the request counter is
    not touched. *)
Lemma generateAngleAll_unit (E : Env) (r : AppState) :
  UnitSpec E r 0 0 resultFor (fun _ _ => True) (App.generateAngleAll E r).
Proof.
  intros product a generatedImages run.
  unfold App.generateAngleAll, App.catchAll, App.awaitGenerateProductAngle,
    App.bind, App.set, App.ret. cbn.
  destruct (Gemini.generateProductAngle E (map file (images product)) (pname product)
              (orElse (productDescription r) "A high-quality product") (prompt a)
              (modelName r) (targetWidth r) (apiKey r) 0 (world run)) as [[blobUrl | err] w1].
  - destruct (fetchBlob E blobUrl) as [blob | err].
    + eexists _, _. split4; [ reflexivity | right; eauto | | ].
      * destruct (stopClicked E (List.length (clientCalls run))) eqn:Hclick; advanced_one.
      * destruct (stopClicked E (List.length (clientCalls run))); reflexivity.
    + eexists _, _. split4; [ reflexivity | left; reflexivity | | ].
      * destruct (stopClicked E (List.length (clientCalls run))) eqn:Hclick; advanced_one.
      * destruct (stopClicked E (List.length (clientCalls run))); reflexivity.
  - eexists _, _. split4; [ reflexivity | left; reflexivity | | ].
    + destruct (stopClicked E (List.length (clientCalls run))) eqn:Hclick; advanced_one.
    + destruct (stopClicked E (List.length (clientCalls run))); reflexivity.
Qed.

Lemma beforeProduct_batch (E : Env) (lo hi : nat) (Qw : World -> World -> Prop) :
  (forall w, Qw w w) ->
  BeforeSpec E lo hi Qw
    (fun product => App.set (App.addLog (LogProcessingProduct (pname product)) info)).
Proof.
  intros Hrefl product run. split; [ | reflexivity ].
  apply Advanced_set; [ exact Hrefl | ]. intros s. cbn. auto.
Qed.

Lemma beforeProduct_all (E : Env) (lo hi : nat) (Qw : World -> World -> Prop) :
  (forall w, Qw w w) ->
  BeforeSpec E lo hi Qw (fun _ => App.ret tt).
Proof.
  intros Hrefl product run. split; [ | reflexivity ].
  apply Advanced_nil; auto.
Qed.

(** *** Lists: the assignment of results and the batch range *)

Lemma nth_error_setGeneratedImages_eq (index : nat) (generated : list ImageFile)
    (updated : list Product) :
  nth_error (App.setGeneratedImages index generated updated) index =
  option_map (fun p => mkProduct (pname p) (images p) generated) (nth_error updated index).
Proof.
  revert index. induction updated as [ | p rest IH]; intros [ | k]; cbn; auto.
Qed.

Lemma nth_error_setGeneratedImages_ne (index j : nat) (generated : list ImageFile)
    (updated : list Product) :
  j <> index ->
  nth_error (App.setGeneratedImages index generated updated) j = nth_error updated j.
Proof.
  revert index j.
  induction updated as [ | p rest IH]; intros [ | k] [ | j] Hne; cbn; auto; congruence.
Qed.

Lemma Committed_lookup (R : Product -> AngleConfig -> ImageFile -> Prop)
    (enabledAngles : list AngleConfig) (index : nat) (todo updated updated' : list Product) :
  Committed R enabledAngles index todo updated updated' ->
  (forall j, j < index \/ index + List.length todo <= j ->
             nth_error updated' j = nth_error updated j) /\
  (forall k product, nth_error todo k = Some product ->
     exists entries,
       Forall2 (R product) enabledAngles entries /\
       nth_error updated' (index + k) =
         option_map (fun q => mkProduct (pname q) (images q) entries)
           (nth_error updated (index + k))).
Proof.
  induction 1 as [index updated | index product todo updated updated' entries Hentries _ [IH1 IH2]].
  - split; [ reflexivity | ]. intros [ | k] product Hk; discriminate Hk.
  - split.
    + intros j Hj. cbn [List.length] in Hj.
      rewrite IH1 by lia. apply nth_error_setGeneratedImages_ne. lia.
    + intros [ | k] p Hk; cbn in Hk.
      * injection Hk as <-. exists entries. split; [ exact Hentries | ].
        rewrite Nat.add_0_r, IH1 by lia. apply nth_error_setGeneratedImages_eq.
      * destruct (IH2 k p Hk) as (es & Hes & Hnth).
        exists es. split; [ exact Hes | ].
        rewrite Nat.add_succ_r. cbn [Nat.add] in Hnth. rewrite Hnth.
        rewrite nth_error_setGeneratedImages_ne by lia. reflexivity.
Qed.

Lemma nth_error_slice {A : Type} (start stop k : nat) (l : list A) (x : A) :
  nth_error (App.slice start stop l) k = Some x -> nth_error l (start + k) = Some x.
Proof.
  unfold App.slice. rewrite nth_error_firstn, nth_error_skipn.
  destruct (k <? stop - start); [ auto | discriminate ].
Qed.

Lemma length_productsToProcess (r : AppState) :
  List.length (App.productsToProcess r) =
  Nat.min (batchSize r) (List.length (products r) - currentProductIndex r).
Proof.
  unfold App.productsToProcess, App.slice. rewrite length_firstn, length_skipn. lia.
Qed.

Lemma length_callsOf (r : AppState) (enabledAngles : list AngleConfig) (todo : list Product) :
  List.length (callsOf r enabledAngles todo) = List.length todo * List.length enabledAngles.
Proof.
  unfold callsOf. induction todo as [ | p rest IH]; cbn; [ reflexivity | ].
  rewrite length_app, length_map, IH. reflexivity.
Qed.

(** *** A whole run *)

Lemma products_not_nil (r : AppState) :
  products r <> [] -> (List.length (products r) =? 0) = false.
Proof. destruct (products r); [ congruence | reflexivity ]. Qed.

(** A run of [handleGenerateBatch] whose closure holds a clear stop flag
    goes through every unit of its range and ends completed. *)
Lemma handleGenerateBatch_completes (E : Env) (r : AppState) (lo hi : nat)
    (R : Product -> AngleConfig -> ImageFile -> Prop) (Qw : World -> World -> Prop) :
  (forall w, Qw w w) ->
  (forall w1 w2 w3, Qw w1 w2 -> Qw w2 w3 -> Qw w1 w3) ->
  UnitSpec E r lo hi R Qw (App.generateAngleBatch E r) ->
  stopRequested r = false ->
  products r <> [] ->
  forall run,
    Completed E r lo hi R Qw (currentProductIndex r) (App.productsToProcess r) 0 run
      (snd (App.handleGenerateBatch E r run)).
Proof.
  intros Hrefl Htrans Hunit Hstop Hproducts run.
  unfold App.handleGenerateBatch. rewrite (products_not_nil r Hproducts).
  unfold App.bind at 1.
  destruct (App.startBatch r run) as [[] run0] eqn:Hstart.
  assert (Hrun0 : run0 = snd (App.startBatch r run)) by (rewrite Hstart; reflexivity).
  clear Hstart.
  unfold App.bind at 1.
  rewrite productLoopBatch_productLoop, Hstop, Nat.add_0_r.
  destruct (@productLoop_completes E r lo hi R Qw Hrefl Htrans App.stopBatch
              (fun product => App.set (App.addLog (LogProcessingProduct (pname product)) info))
              (App.generateAngleBatch E r) Hunit (beforeProduct_batch E lo hi Qw Hrefl)
              (App.enabledAnglesOf r) (App.productsToProcess r)
              (currentProductIndex r) (products r) run0)
    as (updated' & run2 & Hloop & Hcommitted & Hadv & Hprod).
  rewrite Hloop.
  destruct Hadv as (A1 & A2 & A3 & A4 & A5 & A6 & A7).
  rewrite length_callsOf in A1, A2, A3, A5.
  destruct (Committed_lookup Hcommitted) as [Hother Hmine].
  subst run0. cbn in A1, A2, A3, A4, A5, A6, A7.
  unfold Completed. cbn.
  repeat match goal with |- _ /\ _ => split end; auto; try lia.
  - intros k product Hk.
    pose proof (nth_error_slice _ _ _ _ Hk) as Hnth.
    destruct (Hmine k product Hk) as (entries & Hentries & Hlookup).
    exists entries. split; [ exact Hentries | ].
    rewrite Hprod by (intros Hnil; rewrite Hnil in Hk; destruct k; discriminate Hk).
    rewrite Hlookup, Hnth. reflexivity.
  - intros Hne j Hj. rewrite (Hprod Hne). apply Hother. exact Hj.
Qed.

(** The same for [handleGenerateAll], which goes through the whole catalog
    and leaves the request counter as it found it. *)
Lemma handleGenerateAll_completes (E : Env) (r : AppState)
    (R : Product -> AngleConfig -> ImageFile -> Prop) (Qw : World -> World -> Prop) :
  (forall w, Qw w w) ->
  (forall w1 w2 w3, Qw w1 w2 -> Qw w2 w3 -> Qw w1 w3) ->
  UnitSpec E r 0 0 R Qw (App.generateAngleAll E r) ->
  stopRequested r = false ->
  products r <> [] ->
  forall run,
    Completed E r 0 0 R Qw 0 (products r) (apiRequestCount (store run)) run
      (snd (App.handleGenerateAll E r run)).
Proof.
  intros Hrefl Htrans Hunit Hstop Hproducts run.
  unfold App.handleGenerateAll. rewrite (products_not_nil r Hproducts).
  unfold App.bind, App.set. cbn.
  rewrite productLoopAll_productLoop, Hstop.
  match goal with
  | |- context [productLoop false ?o ?b ?g ?e ?i ?t ?u ?x] =>
      destruct (@productLoop_completes E r 0 0 R Qw Hrefl Htrans o b g Hunit
                  (beforeProduct_all E 0 0 Qw Hrefl) e t i u x)
        as (updated' & run2 & Hloop & Hcommitted & Hadv & Hprod)
  end.
  rewrite Hloop.
  destruct Hadv as (A1 & A2 & A3 & A4 & A5 & A6 & A7).
  rewrite length_callsOf in A1, A2, A3, A5.
  destruct (Committed_lookup Hcommitted) as [Hother Hmine].
  cbn in A1, A2, A3, A4, A5, A6, A7.
  unfold Completed. cbn.
  repeat match goal with |- _ /\ _ => split end; auto; try lia.
  - intros k product Hk.
    destruct (Hmine k product Hk) as (entries & Hentries & Hlookup).
    exists entries. split; [ exact Hentries | ].
    rewrite (Hprod Hproducts). cbn in Hlookup.
    rewrite Hlookup, Hk. reflexivity.
  - intros Hne j Hj. rewrite (Hprod Hne). apply Hother. exact Hj.
Qed.

(** A run whose closure holds a set stop flag ends at the first check. *)
Lemma handleGenerateBatch_stops_first (E : Env) (r : AppState) (run : Run) :
  stopRequested r = true ->
  products r <> [] ->
  App.productsToProcess r <> [] ->
  App.handleGenerateBatch E r run = (tt, snd (App.stopBatch (snd (App.startBatch r run)))).
Proof.
  intros Hstop Hproducts Htodo.
  unfold App.handleGenerateBatch. rewrite (products_not_nil r Hproducts).
  unfold App.bind at 1.
  destruct (App.startBatch r run) as [[] run0].
  unfold App.bind at 1.
  rewrite productLoopBatch_productLoop, Hstop.
  destruct (App.productsToProcess r) as [ | product todo]; [ congruence | ].
  rewrite productLoop_stops. reflexivity.
Qed.

(** Then no client call is made, the catalog is not written, and the flag
    is cleared. *)
Lemma handleGenerateBatch_stopped (E : Env) (r : AppState) (run : Run) :
  stopRequested r = true ->
  products r <> [] ->
  App.productsToProcess r <> [] ->
  let run' := snd (App.handleGenerateBatch E r run) in
  clientCalls run' = clientCalls run /\
  world run' = world run /\
  products (store run') = products (store run) /\
  totalAnglesProcessed (store run') = 0 /\
  stopRequested (store run') = false /\
  appStatus (store run') = StatusCompleted /\
  currentApiStatus (store run') = ApiStoppedByUser.
Proof.
  intros Hstop Hproducts Htodo.
  rewrite (handleGenerateBatch_stops_first E r run Hstop Hproducts Htodo).
  cbn. auto 10.
Qed.

(* ===================================================================== *)
(** ** The orchestrator: properties *)
(* ===================================================================== *)

(** *** One unit, exactly *)

Lemma generateAngleBatch_outcome (E : Env) (r : AppState) (product : Product)
    (a : AngleConfig) (generatedImages : list ImageFile) (run : Run) :
  UnitOutcomeBatch E r product a generatedImages run.
Proof.
  unfold UnitOutcomeBatch, clientResult, App.generateAngleBatch, App.catchBatch,
    App.awaitGenerateProductAngle, App.bind, App.set, App.ret. cbn.
  destruct (Gemini.generateProductAngle E (map file (images product)) (pname product)
              (orElse (productDescription r) "A high-quality product") (prompt a)
              (modelName r) (targetWidth r) (apiKey r) 0 (world run)) as [[blobUrl | err] w1];
    cbn.
  - destruct (fetchBlob E blobUrl) as [blob | err]; cbn;
      destruct (stopClicked E (List.length (clientCalls run))); cbn;
      rewrite ?last_last; repeat split; lia.
  - destruct (stopClicked E (List.length (clientCalls run))); cbn;
      rewrite ?last_last; repeat split; lia.
Qed.

Lemma generateAngleAll_outcome (E : Env) (r : AppState) (product : Product)
    (a : AngleConfig) (generatedImages : list ImageFile) (run : Run) :
  UnitOutcomeAll E r product a generatedImages run.
Proof.
  unfold UnitOutcomeAll, clientResult, App.generateAngleAll, App.catchAll,
    App.awaitGenerateProductAngle, App.bind, App.set, App.ret. cbn.
  destruct (Gemini.generateProductAngle E (map file (images product)) (pname product)
              (orElse (productDescription r) "A high-quality product") (prompt a)
              (modelName r) (targetWidth r) (apiKey r) 0 (world run)) as [[blobUrl | err] w1];
    cbn.
  - destruct (fetchBlob E blobUrl) as [blob | err]; cbn;
      destruct (stopClicked E (List.length (clientCalls run))); cbn;
      repeat split; lia.
  - destruct (stopClicked E (List.length (clientCalls run))); cbn;
      repeat split; lia.
Qed.

(** *** Per-unit failures never abort a run *)

(** C2, amended. In both handlers every unit makes one client call and
    appends one entry, [completed] when the call and the fetch of its result
    succeed and [failed] otherwise, and adds one to the processed counter.
    The failed entry is the same whatever the error: the message of the
    error goes to the activity log in [handleGenerateBatch] and nowhere in
    [handleGenerateAll]. [handleGenerateBatch] adds one to the request
    counter per unit, and one more when the generation succeeded but its
    result could not be fetched; [handleGenerateAll] leaves the request
    counter alone. A run that does not see the stop flag goes through every
    unit of its range in order, whatever fails: the processed counter ends
    equal to the total and the run ends completed. *)
Theorem every_unit_is_accounted_for (E : Env) (r : AppState) (run : Run)
    (Hstop : stopRequested r = false) (Hproducts : products r <> []) :
  (forall product a generatedImages run0,
     UnitOutcomeBatch E r product a generatedImages run0) /\
  (forall product a generatedImages run0,
     UnitOutcomeAll E r product a generatedImages run0) /\
  Completed E r 1 2 resultFor (fun _ _ => True) (currentProductIndex r)
    (App.productsToProcess r) 0 run (snd (App.handleGenerateBatch E r run)) /\
  ((forall url, exists blob, fetchBlob E url = Ok blob) ->
   apiRequestCount (store (snd (App.handleGenerateBatch E r run))) =
     List.length (App.productsToProcess r) * List.length (App.enabledAnglesOf r)) /\
  Completed E r 0 0 resultFor (fun _ _ => True) 0 (products r)
    (apiRequestCount (store run)) run (snd (App.handleGenerateAll E r run)).
Proof.
  split; [ intros; apply generateAngleBatch_outcome | ].
  split; [ intros; apply generateAngleAll_outcome | ].
  split; [ | split ].
  - apply handleGenerateBatch_completes; auto. apply generateAngleBatch_unit.
  - intros Hfetch.
    pose proof (@handleGenerateBatch_completes E r 1 1 resultFor (fun _ _ => True)
                  (fun _ => I) (fun _ _ _ _ _ => I)
                  (generateAngleBatch_unit_fetched E r Hfetch) Hstop Hproducts run) as Hdone.
    unfold Completed in Hdone. cbn zeta in Hdone.
    destruct Hdone as (_ & _ & _ & Hlo & Hhi & _). lia.
  - apply handleGenerateAll_completes; auto. apply generateAngleAll_unit.
Qed.

Lemma every_unit_is_accounted_for_witness :
  Completed refusingEnv demoState 1 2 resultFor (fun _ _ => True) 0
    (App.productsToProcess demoState) 0 (startOf demoState)
    (snd (App.handleGenerateBatch refusingEnv demoState (startOf demoState))).
Proof.
  refine (proj1 (proj2 (proj2
            (@every_unit_is_accounted_for refusingEnv demoState (startOf demoState)
               eq_refl _)))).
  discriminate.
Defined.

(** Two units that fail with different messages leave the same entry, so
    nothing read off a failed entry is the message of its error; and
    [handleGenerateAll] goes through four units without counting a request. *)
Lemma failed_entry_carries_no_message :
  ~ (exists messageOf : ImageFile -> string,
       forall (E : Env) (err : JsError) (entry : ImageFile),
         clientResult E demoState (mkProduct "Cap" [] []) (mkAngle "Front" "Front view" true)
           (startOf demoState) = Throw err ->
         fst (App.generateAngleBatch E demoState (mkProduct "Cap" [] [])
                (mkAngle "Front" "Front view" true) [] (startOf demoState)) = [entry] ->
         messageOf entry = message err)
  /\
  (let run' := snd (App.handleGenerateAll refusingEnv demoState (startOf demoState)) in
   totalAnglesProcessed (store run') = 4 /\ List.length (clientCalls run') = 4 /\
   apiRequestCount (store run') = 0).
Proof.
  split.
  - intros [messageOf Hcarried].
    pose proof (Hcarried refusingEnv (mkError "Bad request" (Some 400))
                  (App.failedImage (mkProduct "Cap" [] []) (mkAngle "Front" "Front view" true))
                  eq_refl eq_refl) as H1.
    pose proof (Hcarried forbiddingEnv (mkError "Permission denied" (Some 403))
                  (App.failedImage (mkProduct "Cap" [] []) (mkAngle "Front" "Front view" true))
                  eq_refl eq_refl) as H2.
    rewrite H1 in H2. discriminate H2.
  - vm_compute. auto.
Qed.

(** *** A missing credential *)

(** C5, amended. Without a credential every client call fails with the
    missing-credential error and leaves the network untouched. The
    orchestrator has no check of its own: a run (not seeing the stop flag)
    makes the client call of every unit, records a failed entry for each,
    counts each as processed, never reaches the network, and ends
    completed. *)
Theorem missing_key_fails_every_unit (E : Env) (r : AppState) (run : Run)
    (Hkey : truthy (orElse (apiKey r) (VITE_GEMINI_API_KEY E)) = false)
    (Hstop : stopRequested r = false) (Hproducts : products r <> []) :
  (forall referenceFiles productName description anglePrompt model width retryCount w,
     Gemini.generateProductAngle E referenceFiles productName description anglePrompt model
       width (apiKey r) retryCount w = (Throw Gemini.missingKeyError, w)) /\
  Completed E r 1 1 (fun product a img => img = App.failedImage product a)
    (fun w w' => w' = w) (currentProductIndex r) (App.productsToProcess r) 0 run
    (snd (App.handleGenerateBatch E r run)).
Proof.
  split.
  - intros. apply generateProductAngle_missing_key. exact Hkey.
  - apply handleGenerateBatch_completes; auto.
    + intros w1 w2 w3 H12 H23. congruence.
    + apply generateAngleBatch_unit_without_key. exact Hkey.
Qed.

Lemma missing_key_fails_every_unit_witness :
  Completed demoEnv (withApiKey "" demoState) 1 1
    (fun product a img => img = App.failedImage product a) (fun w w' => w' = w) 0
    (App.productsToProcess (withApiKey "" demoState)) 0 (startOf (withApiKey "" demoState))
    (snd (App.handleGenerateBatch demoEnv (withApiKey "" demoState)
            (startOf (withApiKey "" demoState)))).
Proof.
  refine (proj2 (@missing_key_fails_every_unit demoEnv (withApiKey "" demoState)
                   (startOf (withApiKey "" demoState)) eq_refl eq_refl _)).
  discriminate.
Defined.

(** With no key the batch is not aborted: both units of the first product
    are started and each leaves a failed entry. *)
Lemma missing_key_does_not_abort_the_batch :
  let run' := snd (App.handleGenerateBatch demoEnv (withApiKey "" demoState)
                     (startOf (withApiKey "" demoState))) in
  map callAngle (clientCalls run') =
    ["Front view of the product"; "Back view of the product"] /\
  map istatus (generatedImages (hd (mkProduct "" [] []) (products (store run')))) =
    [failed; failed] /\
  totalAnglesProcessed (store run') = 2 /\
  appStatus (store run') = StatusCompleted /\
  trace (world run') = [].
Proof. vm_compute. auto. Qed.

(** *** Cancellation *)

(** The stop flag a running handler tests is the value its closure holds:
    a click on STOP during the run reaches the store, not the run. *)
Lemma stop_click_is_not_seen (E : Env) (r : AppState) (run : Run) :
  stopRequested r = false ->
  products r <> [] ->
  let units := List.length (App.productsToProcess r) * List.length (App.enabledAnglesOf r) in
  let run' := snd (App.handleGenerateBatch E r run) in
  totalAnglesProcessed (store run') = units /\
  List.length (clientCalls run') = List.length (clientCalls run) + units /\
  appStatus (store run') = StatusCompleted /\
  stopRequested (store run') =
    stopRequested (store run) || clickedDuring E (List.length (clientCalls run)) units.
Proof.
  intros Hstop Hproducts units run'.
  pose proof (@handleGenerateBatch_completes E r 1 2 resultFor (fun _ _ => True)
                (fun _ => I) (fun _ _ _ _ _ => I)
                (generateAngleBatch_unit E r) Hstop Hproducts run) as Hdone.
  unfold Completed in Hdone. cbn zeta in Hdone.
  destruct Hdone as (Hcalls & Hdone1 & _ & _ & _ & Hflag & Hstatus & _).
  subst run' units. rewrite Hcalls, length_app, length_callsOf. auto.
Qed.

(** C1, at the failing input: one product, two enabled angles, the user
    clicks STOP while the first of the two units is in flight. The run
    goes on to the second unit and completes it, ends as a completed run,
    and leaves the flag set; the flag then stops the next batch before its
    first unit, and is cleared there. *)
Theorem stop_during_first_unit_is_ignored :
  let run1 := snd (App.handleGenerateBatch clickEnv demoState (startOf demoState)) in
  let run2 := snd (App.handleGenerateBatch clickEnv (store run1) run1) in
  stopClicked clickEnv 0 = true /\
  map callAngle (clientCalls run1) =
    ["Front view of the product"; "Back view of the product"] /\
  map istatus (generatedImages (hd (mkProduct "" [] []) (products (store run1)))) =
    [completed; completed] /\
  totalAnglesProcessed (store run1) = 2 /\
  currentApiStatus (store run1) = ApiCompleted /\
  stopRequested (store run1) = true /\
  clientCalls run2 = clientCalls run1 /\
  currentApiStatus (store run2) = ApiStoppedByUser /\
  stopRequested (store run2) = false.
Proof. vm_compute. repeat split. Qed.

(** *** The start of a run *)

Lemma nth_error_productsToProcess (r : AppState) (k : nat) :
  k < List.length (App.productsToProcess r) ->
  nth_error (App.productsToProcess r) k = nth_error (products r) (currentProductIndex r + k).
Proof.
  intros Hk. rewrite length_productsToProcess in Hk.
  unfold App.productsToProcess, App.slice.
  rewrite nth_error_firstn, nth_error_skipn.
  destruct (Nat.ltb_spec k
              (Nat.min (currentProductIndex r + batchSize r) (List.length (products r))
               - currentProductIndex r)); [ reflexivity | lia ].
Qed.

(** C8, amended. Before the first unit [handleGenerateBatch] sets the
    status to processing, the total to the number of products of the batch
    range (the [batchSize] products from the current index, clipped to the
    end of the catalog) times the number of enabled angles, the processed
    and the request counter to 0, and the log to the single entry that
    announces the start. The stop flag is not reset: it keeps the value it
    has, and when the closure of the handler holds it set, the run ends at
    the first check, which is where the flag is cleared. *)
Theorem startBatch_resets_counters (E : Env) (r : AppState) (run : Run) :
  let run0 := snd (App.startBatch r run) in
  appStatus (store run0) = StatusProcessing /\
  totalAnglesToProcess (store run0) =
    List.length (App.productsToProcess r) * List.length (App.enabledAnglesOf r) /\
  List.length (App.productsToProcess r) =
    Nat.min (batchSize r) (List.length (products r) - currentProductIndex r) /\
  (forall k, k < List.length (App.productsToProcess r) ->
     nth_error (App.productsToProcess r) k =
     nth_error (products r) (currentProductIndex r + k)) /\
  App.enabledAnglesOf r = filter enabled (angles r) /\
  totalAnglesProcessed (store run0) = 0 /\
  apiRequestCount (store run0) = 0 /\
  activityLog (store run0) = [mkLog LogStarting info] /\
  stopRequested (store run0) = stopRequested (store run) /\
  clientCalls run0 = clientCalls run /\
  world run0 = world run /\
  products (store run0) = products (store run) /\
  (products r <> [] ->
   App.handleGenerateBatch E r run =
     App.bind (App.startBatch r)
       (fun _ =>
          App.bind (App.productLoopBatch E r (App.enabledAnglesOf r) (currentProductIndex r) 0
                      (App.productsToProcess r) (products r))
            (fun flow =>
               match flow with
               | App.Return => App.ret tt
               | App.Continue _ =>
                   App.bind (App.set (App.addLog
                                        (LogTotalRequests
                                           (apiRequestCount r +
                                            List.length (App.productsToProcess r)))
                                        success))
                     (fun _ =>
                        App.bind (App.set (App.addLog LogAllCompleted success))
                          (fun _ =>
                             App.bind (App.set (App.setCurrentApiStatus ApiCompleted))
                               (fun _ => App.set (App.setStatus StatusCompleted))))
               end)) run) /\
  (stopRequested r = true -> products r <> [] -> App.productsToProcess r <> [] ->
   App.handleGenerateBatch E r run = (tt, snd (App.stopBatch run0)) /\
   clientCalls (snd (App.stopBatch run0)) = clientCalls run /\
   stopRequested (store (snd (App.stopBatch run0))) = false).
Proof.
  cbn zeta.
  repeat match goal with |- _ /\ _ => split end; try reflexivity.
  - apply length_productsToProcess.
  - apply nth_error_productsToProcess.
  - intros Hproducts. unfold App.handleGenerateBatch.
    rewrite (products_not_nil r Hproducts). reflexivity.
  - intros Hset Hproducts Htodo.
    split; [ apply handleGenerateBatch_stops_first; assumption | split; reflexivity ].
Qed.

Lemma startBatch_resets_counters_witness :
  App.handleGenerateBatch demoEnv stoppedState (startOf stoppedState) =
    (tt, snd (App.stopBatch (snd (App.startBatch stoppedState (startOf stoppedState))))) /\
  clientCalls (snd (App.stopBatch (snd (App.startBatch stoppedState (startOf stoppedState))))) =
    [] /\
  stopRequested
    (store (snd (App.stopBatch (snd (App.startBatch stoppedState (startOf stoppedState)))))) =
    false.
Proof.
  refine (proj2 (proj2 (proj2 (proj2 (proj2 (proj2 (proj2 (proj2 (proj2 (proj2 (proj2 (proj2
            (proj2 (@startBatch_resets_counters demoEnv stoppedState (startOf stoppedState))
            ))))))))))))
            eq_refl _ _); discriminate.
Defined.

(** A run started with the stop flag set has not cleared it when the loop
    is entered, although counters and log are reset; so the run makes no
    client call at all. *)
Lemma stop_flag_survives_the_start :
  let run0 := snd (App.startBatch stoppedState (startOf stoppedState)) in
  stopRequested (store (startOf stoppedState)) = true /\
  totalAnglesProcessed (store run0) = 0 /\
  totalAnglesToProcess (store run0) = 2 /\
  stopRequested (store run0) = true /\
  clientCalls (snd (App.handleGenerateBatch demoEnv stoppedState (startOf stoppedState))) = [].
Proof. vm_compute. auto. Qed.

(* ===================================================================== *)
(** ** The catalog: properties *)
(* ===================================================================== *)

(** *** The sort *)

Section SortFacts.

Context {A : Type}.
Variable cmp : A -> A -> Z.

(** A consistent comparator: when [a] is not before [b], [b] is not after
    [a]; and not being after is transitive. *)
Hypothesis cmp_total : forall a b, (0 <= cmp a b)%Z -> notAfter cmp b a.
Hypothesis cmp_trans : forall a b c, notAfter cmp a b -> notAfter cmp b c -> notAfter cmp a c.

Lemma sortInsert_perm (x : A) (sorted : list A) :
  Permutation (App.sortInsert cmp x sorted) (x :: sorted).
Proof.
  induction sorted as [ | y rest IH]; cbn.
  - apply Permutation_refl.
  - destruct (cmp x y <? 0)%Z.
    + apply Permutation_refl.
    + eapply Permutation_trans; [ apply perm_skip; exact IH | apply perm_swap ].
Qed.

Lemma fold_sortInsert_perm (l acc : list A) :
  Permutation (fold_left (fun sorted x => App.sortInsert cmp x sorted) l acc) (acc ++ l).
Proof.
  revert acc. induction l as [ | x rest IH]; intros acc; cbn.
  - rewrite app_nil_r. apply Permutation_refl.
  - eapply Permutation_trans; [ apply IH | ].
    eapply Permutation_trans; [ apply Permutation_app_tail; apply sortInsert_perm | ].
    cbn. apply Permutation_middle.
Qed.

Lemma jsSort_perm (l : list A) : Permutation (App.jsSort cmp l) l.
Proof. unfold App.jsSort. apply (fold_sortInsert_perm l []). Qed.

Lemma sortInsert_sorted (x : A) (sorted : list A) :
  StronglySorted (notAfter cmp) sorted -> StronglySorted (notAfter cmp) (App.sortInsert cmp x sorted).
Proof.
  induction 1 as [ | y rest Hrest IH Hy]; cbn.
  - constructor; constructor.
  - destruct (Z.ltb_spec (cmp x y) 0) as [Hlt | Hge].
    + constructor.
      * constructor; assumption.
      * constructor.
        -- unfold notAfter. lia.
        -- eapply Forall_impl; [ | exact Hy ].
           intros z Hz. apply cmp_trans with y; [ unfold notAfter; lia | exact Hz ].
    + constructor.
      * exact IH.
      * eapply Permutation_Forall; [ apply Permutation_sym; apply sortInsert_perm | ].
        constructor; [ apply cmp_total; exact Hge | exact Hy ].
Qed.

Lemma fold_sortInsert_sorted (l acc : list A) :
  StronglySorted (notAfter cmp) acc ->
  StronglySorted (notAfter cmp) (fold_left (fun sorted x => App.sortInsert cmp x sorted) l acc).
Proof.
  revert acc. induction l as [ | x rest IH]; intros acc Hacc; cbn.
  - exact Hacc.
  - apply IH. apply sortInsert_sorted. exact Hacc.
Qed.

Lemma jsSort_sorted (l : list A) : StronglySorted (notAfter cmp) (App.jsSort cmp l).
Proof. unfold App.jsSort. apply fold_sortInsert_sorted. constructor. Qed.

End SortFacts.

Lemma StronglySorted_nth_error {A : Type} (R : A -> A -> Prop) (l : list A) :
  StronglySorted R l ->
  forall i j a b, i < j -> nth_error l i = Some a -> nth_error l j = Some b -> R a b.
Proof.
  induction 1 as [ | x rest Hrest IH Hx]; intros i j a b Hij Hi Hj.
  - destruct i; discriminate Hi.
  - destruct j as [ | j]; [ lia | ]. cbn in Hj.
    destruct i as [ | i]; cbn in Hi.
    + injection Hi as <-. rewrite Forall_forall in Hx. apply Hx.
      eapply nth_error_In. exact Hj.
    + apply (IH i j); [ lia | assumption | assumption ].
Qed.

Section CatalogOrder.

Variable E : Env.
Hypothesis lc_total :
  forall a b, (0 <= localeCompare E a b)%Z -> (localeCompare E b a <= 0)%Z.
Hypothesis lc_trans :
  forall a b c, (localeCompare E a b <= 0)%Z -> (localeCompare E b c <= 0)%Z ->
                (localeCompare E a c <= 0)%Z.

Lemma compareProducts_total (a b : Product) :
  (0 <= App.compareProducts E a b)%Z -> notAfter (App.compareProducts E) b a.
Proof.
  unfold notAfter, App.compareProducts.
  destruct (startsWithDigit (pname a)), (startsWithDigit (pname b)); cbn; try lia;
    apply lc_total.
Qed.

Lemma compareProducts_trans (a b c : Product) :
  notAfter (App.compareProducts E) a b -> notAfter (App.compareProducts E) b c ->
  notAfter (App.compareProducts E) a c.
Proof.
  unfold notAfter, App.compareProducts.
  destruct (startsWithDigit (pname a)), (startsWithDigit (pname b)),
    (startsWithDigit (pname c)); cbn; try lia; apply lc_trans.
Qed.

Lemma scanFolder_sorted (files : list File) :
  StronglySorted (notAfter (App.compareProducts E)) (App.scanFolder E files).
Proof.
  unfold App.scanFolder. apply jsSort_sorted.
  - apply compareProducts_total.
  - apply compareProducts_trans.
Qed.

End CatalogOrder.

Lemma handleSelectFolder_products (E : Env) (files : list File) (run : Run) :
  files <> [] ->
  products (store (snd (App.handleSelectFolder E files run))) = App.scanFolder E files.
Proof.
  intros Hfiles. unfold App.handleSelectFolder.
  destruct files as [ | f rest]; [ congruence | ]. reflexivity.
Qed.

(** C10. After a folder selection (with [localeCompare] a consistent
    comparison) the catalog that is stored is the list of groups built from
    the files, sorted: it has the same groups; of two groups, the one whose
    name starts with a digit is never behind one whose name does not; two
    groups of the same class stand in the order of [localeCompare]. Runs go
    through the catalog in this order: the client calls of a run started on
    it are those of its products from first to last, each with the enabled
    angles in their order. *)
Theorem catalog_is_sorted (E : Env) (files : list File) (run : Run)
    (Hfiles : files <> [])
    (lc_total : forall a b, (0 <= localeCompare E a b)%Z -> (localeCompare E b a <= 0)%Z)
    (lc_trans : forall a b c, (localeCompare E a b <= 0)%Z -> (localeCompare E b c <= 0)%Z ->
                              (localeCompare E a c <= 0)%Z) :
  let catalog := products (store (snd (App.handleSelectFolder E files run))) in
  catalog =
    App.jsSort (App.compareProducts E)
      (App.buildProductsList E (fold_left App.addFile files [])) /\
  Permutation catalog (App.buildProductsList E (fold_left App.addFile files [])) /\
  (forall i j a b,
     i < j -> nth_error catalog i = Some a -> nth_error catalog j = Some b ->
     (startsWithDigit (pname b) = true -> startsWithDigit (pname a) = true) /\
     (startsWithDigit (pname a) = startsWithDigit (pname b) ->
      (localeCompare E (pname a) (pname b) <= 0)%Z)) /\
  (forall r run0,
     products r = catalog -> catalog <> [] -> stopRequested r = false ->
     clientCalls (snd (App.handleGenerateAll E r run0)) =
       clientCalls run0 ++
       flat_map (fun product => map (callOf r product) (App.enabledAnglesOf r)) catalog).
Proof.
  cbn zeta. rewrite (handleSelectFolder_products E run Hfiles).
  split; [ reflexivity | ].
  split; [ apply jsSort_perm | ].
  split.
  - intros i j a b Hij Hi Hj.
    pose proof (@StronglySorted_nth_error Product _ _
                  (@scanFolder_sorted E lc_total lc_trans files) i j a b Hij Hi Hj) as Hab.
    unfold notAfter, App.compareProducts in Hab.
    destruct (startsWithDigit (pname a)), (startsWithDigit (pname b)); cbn in Hab;
      split; intros; try reflexivity; try discriminate; try lia; assumption.
  - intros r run0 Hcatalog Hne Hstop.
    rewrite <- Hcatalog in Hne.
    pose proof (@handleGenerateAll_completes E r resultFor (fun _ _ => True)
                  (fun _ => I) (fun _ _ _ _ _ => I)
                  (generateAngleAll_unit E r) Hstop Hne run0) as Hdone.
    unfold Completed in Hdone. cbn zeta in Hdone.
    destruct Hdone as (Hcalls & _). rewrite Hcalls, Hcatalog. reflexivity.
Qed.

Lemma lengthCompare_total (a b : string) :
  (0 <= lengthCompare a b)%Z -> (lengthCompare b a <= 0)%Z.
Proof. unfold lengthCompare. lia. Qed.

Lemma lengthCompare_trans (a b c : string) :
  (lengthCompare a b <= 0)%Z -> (lengthCompare b c <= 0)%Z -> (lengthCompare a c <= 0)%Z.
Proof. unfold lengthCompare. lia. Qed.

Lemma catalog_is_sorted_witness :
  map pname (products (store (snd (App.handleSelectFolder demoEnv demoFolder
                                     (startOf demoState))))) =
  map pname (App.jsSort (App.compareProducts demoEnv)
               (App.buildProductsList demoEnv (fold_left App.addFile demoFolder []))).
Proof.
  refine (f_equal (map pname)
            (proj1 (@catalog_is_sorted demoEnv demoFolder (startOf demoState) _
                      lengthCompare_total lengthCompare_trans))).
  discriminate.
Defined.

Example demoFolder_catalog :
  map pname (App.scanFolder demoEnv demoFolder) = ["7up"; "Mug"; "Cap - Red"].
Proof. vm_compute. reflexivity. Qed.

(** *** The grouping *)

(** Files that are not images play no part in the catalog. *)
Lemma scanFolder_ignores_other_files (E : Env) (files : list File) :
  App.scanFolder E files = App.scanFolder E (filter isImageFile files).
Proof.
  unfold App.scanFolder. do 2 f_equal.
  generalize (@nil (string * App.JsMap (list File))).
  induction files as [ | f rest IH]; intros folderMap; cbn [fold_left filter].
  - reflexivity.
  - unfold isImageFile at 1. destruct (startsWith (fileType f) "image/") eqn:Himage.
    + cbn [fold_left]. apply IH.
    + rewrite <- IH. f_equal. unfold App.addFile. rewrite Himage. reflexivity.
Qed.

(** No group of the catalog is without images. *)
Lemma scanFolder_groups_have_images (E : Env) (files : list File) :
  Forall (fun p => images p <> []) (App.scanFolder E files).
Proof.
  unfold App.scanFolder.
  eapply Permutation_Forall; [ apply Permutation_sym, jsSort_perm | ].
  unfold App.buildProductsList, App.colorGroups.
  apply Forall_flat_map, Forall_forall. intros [productName colorMap] _.
  apply Forall_flat_map, Forall_forall. intros [colorName fs] _.
  destruct (map (App.toImageFile E) fs) as [ | img imgs] eqn:Himgs; cbn.
  - constructor.
  - constructor; [ | constructor ]. cbn. discriminate.
Qed.

(** Images in a first-level folder form the group of that folder; images in
    a second-level folder form the group of parent and child. *)
Example first_and_second_level_groups (E : Env) :
  map pname (App.buildProductsList E
               (fold_left App.addFile
                  [photo "shoot/Mug/a.jpg"; photo "shoot/Cap/Red/a.jpg";
                   photo "shoot/Mug/b.jpg"; photo "shoot/Cap/Blue/a.jpg"] []))
  = ["Mug"; "Cap - Red"; "Cap - Blue"].
Proof. reflexivity. Qed.

(** C9, at the failing input: the user selects a folder [shoot] that holds
    an image [cover.jpg] next to its product folders. The path of the image
    has two parts, the check [pathParts.length < 2] lets it through, and the
    file name is taken for the name of a first-level folder: the catalog
    gets a group named [cover.jpg]. *)
Theorem root_level_image_becomes_a_group (E : Env) :
  split "/" "shoot/cover.jpg" = ["shoot"; "cover.jpg"] /\
  map pname (App.scanFolder E [photo "shoot/cover.jpg"]) = ["cover.jpg"] /\
  map pname (App.scanFolder E [photo "shoot/Mug/a.jpg"]) = ["Mug"].
Proof. repeat split. Qed.

(** A second-level folder that is itself named [default] is not told from
    the images that lie directly in the product folder. *)
Example subfolder_named_default (E : Env) :
  map pname (App.buildProductsList E
               (fold_left App.addFile
                  [photo "shoot/Mug/a.jpg"; photo "shoot/Mug/default/b.jpg"] []))
  = ["Mug"].
Proof. reflexivity. Qed.

(** The earlier folder selection made no group of what is not a directory:
    a file lying in the chosen folder itself was skipped. *)
Lemma legacy_root_level_file_makes_no_group (E : Env) (f : File) (rest : list Entry) :
  AppLegacy.scanDirectory E (FileEntry f :: rest) = AppLegacy.scanDirectory E rest.
Proof. reflexivity. Qed.

Example legacy_first_and_second_level_groups (E : Env) :
  map pname
    (AppLegacy.scanDirectory E
       [FileEntry (photo "cover.jpg");
        DirectoryEntry "Mug" [FileEntry (photo "a.jpg"); FileEntry (photo "b.jpg")];
        DirectoryEntry "Cap"
          [DirectoryEntry "Red" [FileEntry (photo "a.jpg")];
           DirectoryEntry "Blue" [FileEntry (photo "a.jpg")];
           DirectoryEntry "Empty" []];
        DirectoryEntry "Notes" [FileEntry (mkFile "notes.txt" "text/plain" [] "")]])
  = ["Mug"; "Cap - Red"; "Cap - Blue"].
Proof. reflexivity. Qed.

(* ===================================================================== *)
(** ** The activity log: properties *)
(* ===================================================================== *)

Lemma length_sliceLast {A : Type} (n : nat) (l : list A) :
  List.length (App.sliceLast n l) = Nat.min n (List.length l).
Proof. unfold App.sliceLast. rewrite length_skipn. lia. Qed.

Lemma nth_error_sliceLast {A : Type} (n k : nat) (l : list A) :
  nth_error (App.sliceLast n l) k = nth_error l (List.length l - n + k).
Proof. unfold App.sliceLast. apply nth_error_skipn. Qed.

(** X1. [addLog] keeps the last ten entries of the log, in their order, and
    appends the new one: the log it leaves has one entry more than the ten
    (or fewer) kept, never more than eleven, and ends with the new entry. *)
Theorem addLog_keeps_the_last_ten (msg : LogMessage) (type : Severity) (s : AppState) :
  let before := activityLog s in
  let log := activityLog (App.addLog msg type s) in
  let kept := Nat.min 10 (List.length before) in
  List.length log = kept + 1 /\
  List.length log <= 11 /\
  nth_error log kept = Some (mkLog msg type) /\
  (forall k, k < kept ->
     nth_error log k = nth_error before (List.length before - 10 + k)).
Proof.
  cbn zeta. unfold App.addLog. cbn [App.setActivityLog activityLog].
  rewrite length_app, length_sliceLast. cbn [List.length].
  repeat split; try lia.
  - rewrite nth_error_app2 by (rewrite length_sliceLast; lia).
    rewrite length_sliceLast, Nat.sub_diag. reflexivity.
  - intros k Hk. rewrite nth_error_app1 by (rewrite length_sliceLast; lia).
    apply nth_error_sliceLast.
Qed.

(** A property of the running handler that every step of the two loops
    keeps is kept by the loops. *)
Section LoopInvariant.

Variable Inv : Run -> Prop.
Variable onStop : App.M unit.
Variable beforeProduct : Product -> App.M unit.
Variable generateAngle : Product -> AngleConfig -> list ImageFile -> App.M (list ImageFile).

Hypothesis HonStop : forall run, Inv run -> Inv (snd (onStop run)).
Hypothesis Hbefore : forall product run, Inv run -> Inv (snd (beforeProduct product run)).
Hypothesis Hgenerate :
  forall product a generatedImages run,
    Inv run -> Inv (snd (generateAngle product a generatedImages run)).
Hypothesis HsetProducts :
  forall v run, Inv run -> Inv (snd (App.set (App.setProducts v) run)).

Lemma angleLoop_invariant (stop : bool) (product : Product)
    (enabledAngles : list AngleConfig) :
  forall generatedImages run,
    Inv run ->
    Inv (snd (angleLoop stop onStop generateAngle product enabledAngles generatedImages run)).
Proof.
  induction enabledAngles as [|a rest IH]; intros generatedImages run Hrun; cbn [angleLoop].
  - exact Hrun.
  - destruct stop.
    + unfold App.bind, App.ret. pose proof (HonStop Hrun) as Hstop.
      destruct (onStop run) as [u run1]. exact Hstop.
    + unfold App.bind. pose proof (Hgenerate product a generatedImages Hrun) as Hunit.
      destruct (generateAngle product a generatedImages run) as [generatedImages1 run1].
      apply IH. exact Hunit.
Qed.

Lemma productLoop_invariant (stop : bool) (enabledAngles : list AngleConfig)
    (todo : list Product) :
  forall index updatedProducts run,
    Inv run ->
    Inv (snd (productLoop stop onStop beforeProduct generateAngle enabledAngles index todo
                updatedProducts run)).
Proof.
  induction todo as [|product rest IH]; intros index updatedProducts run Hrun;
    cbn [productLoop].
  - exact Hrun.
  - destruct stop.
    + unfold App.bind, App.ret. pose proof (HonStop Hrun) as Hstop.
      destruct (onStop run) as [u run1]. exact Hstop.
    + unfold App.bind at 1. pose proof (Hbefore product Hrun) as Hrun1.
      destruct (beforeProduct product run) as [u run1]. cbn [snd] in Hrun1.
      unfold App.bind at 1.
      pose proof (angleLoop_invariant false product enabledAngles [] Hrun1) as Hangles.
      destruct (angleLoop false onStop generateAngle product enabledAngles [] run1)
        as [flow run2].
      cbn [snd] in Hangles. destruct flow as [generatedImages|].
      * unfold App.bind.
        pose proof (HsetProducts (App.setGeneratedImages index generatedImages updatedProducts)
                      Hangles) as Hset.
        destruct (App.set (App.setProducts
                             (App.setGeneratedImages index generatedImages updatedProducts))
                    run2) as [u2 run3].
        apply IH. exact Hset.
      * exact Hangles.
Qed.

End LoopInvariant.

Ltac log_bound :=
  unfold logBounded in *; cbn -[App.sliceLast] in *;
  repeat rewrite length_app; repeat rewrite length_sliceLast; cbn [List.length]; try lia.

Lemma logBounded_addLog (msg : LogMessage) (type : Severity) (run : Run) :
  logBounded (store (snd (App.set (App.addLog msg type) run))).
Proof. log_bound. Qed.

Lemma logBounded_stopBatch (run : Run) : logBounded (store (snd (App.stopBatch run))).
Proof. log_bound. Qed.

Lemma logBounded_stopAll (run : Run) : logBounded (store (snd (App.stopAll run))).
Proof. log_bound. Qed.

Lemma logBounded_generateAngleBatch (E : Env) (r : AppState) (product : Product)
    (a : AngleConfig) (generatedImages : list ImageFile) (run : Run) :
  logBounded (store (snd (App.generateAngleBatch E r product a generatedImages run))).
Proof.
  unfold App.generateAngleBatch, App.catchBatch, App.awaitGenerateProductAngle, App.bind,
    App.set, App.ret, App.handleStopClick.
  cbn [store world clientCalls].
  destruct (Gemini.generateProductAngle _ _ _ _ _ _ _ _ _ _) as [res w1].
  destruct res as [blobUrl|err]; destruct (stopClicked E _);
    try destruct (fetchBlob E blobUrl); log_bound.
Qed.

Lemma logBounded_generateAngleAll (E : Env) (r : AppState) (product : Product)
    (a : AngleConfig) (generatedImages : list ImageFile) (run : Run) :
  logBounded (store run) ->
  logBounded (store (snd (App.generateAngleAll E r product a generatedImages run))).
Proof.
  intros Hrun.
  unfold App.generateAngleAll, App.catchAll, App.awaitGenerateProductAngle, App.bind,
    App.set, App.ret, App.handleStopClick.
  cbn [store world clientCalls].
  destruct (Gemini.generateProductAngle _ _ _ _ _ _ _ _ _ _) as [res w1].
  destruct res as [blobUrl|err]; destruct (stopClicked E _);
    try destruct (fetchBlob E blobUrl); log_bound.
Qed.

(** X2. The activity log never grows beyond eleven entries: the STOP click,
    the folder selection and the two generation handlers, whatever the
    remote model and the browser answer and whenever the user clicks STOP,
    leave a log of at most eleven entries when they found one. *)
Theorem activity_log_stays_bounded (E : Env) (r : AppState) (files : list File) (run : Run)
    (Hlog : logBounded (store run)) :
  logBounded (App.handleStopClick (store run)) /\
  logBounded (store (snd (App.handleSelectFolder E files run))) /\
  logBounded (store (snd (App.handleGenerateBatch E r run))) /\
  logBounded (store (snd (App.handleGenerateAll E r run))).
Proof.
  split; [ | split; [ | split ] ].
  - log_bound.
  - unfold App.handleSelectFolder. destruct (List.length files =? 0); log_bound.
  - unfold App.handleGenerateBatch. destruct (List.length (products r) =? 0).
    + exact Hlog.
    + unfold App.bind at 1.
      destruct (App.startBatch r run) as [u run1] eqn:Hstart.
      assert (Hrun1 : logBounded (store run1)).
      { replace run1 with (snd (App.startBatch r run)) by (rewrite Hstart; reflexivity).
        log_bound. }
      unfold App.bind at 1. rewrite productLoopBatch_productLoop.
      pose proof (@productLoop_invariant (fun run0 => logBounded (store run0)) App.stopBatch
                    (fun product =>
                       App.set (App.addLog (LogProcessingProduct (pname product)) info))
                    (App.generateAngleBatch E r)
                    (fun run0 _ => logBounded_stopBatch run0)
                    (fun product run0 _ => logBounded_addLog _ _ run0)
                    (fun product a g run0 _ => logBounded_generateAngleBatch E r product a g run0)
                    (fun v run0 H => H) (stopRequested r)
                    (App.enabledAnglesOf r) (App.productsToProcess r)
                    (currentProductIndex r + 0) (products r) run1 Hrun1) as Hloop.
      destruct (productLoop _ _ _ _ _ _ _ _ run1) as [flow run2].
      cbn [snd] in Hloop. destruct flow; [ log_bound | exact Hloop ].
  - unfold App.handleGenerateAll. destruct (List.length (products r) =? 0).
    + exact Hlog.
    + unfold App.bind at 1 2 3 4.
      cbn [App.set]. unfold App.bind at 1. rewrite productLoopAll_productLoop.
      match goal with
      | |- context [productLoop _ _ _ _ _ _ _ _ ?run1] =>
          assert (Hrun1 : logBounded (store run1)) by log_bound;
          pose proof (@productLoop_invariant (fun run0 => logBounded (store run0)) App.stopAll
                        (fun _ => App.ret tt) (App.generateAngleAll E r)
                        (fun run0 _ => logBounded_stopAll run0)
                        (fun product run0 H => H)
                        (fun product a g run0 H =>
                           @logBounded_generateAngleAll E r product a g run0 H)
                        (fun v run0 H => H) (stopRequested r)
                        (App.enabledAnglesOf r) (products r) 0 (products r) run1 Hrun1)
            as Hloop;
          destruct (productLoop (stopRequested r) App.stopAll (fun _ => App.ret tt)
                      (App.generateAngleAll E r) (App.enabledAnglesOf r) 0 (products r)
                      (products r) run1) as [flow run2]
      end.
      cbn [snd] in Hloop. destruct flow; [ log_bound | exact Hloop ].
Qed.

Lemma activity_log_stays_bounded_witness :
  logBounded (store (startOf demoState)) /\
  logBounded (store (snd (App.handleGenerateBatch failingEnv demoState (startOf demoState)))).
Proof.
  assert (Hlog : logBounded (store (startOf demoState))).
  { unfold logBounded. cbn. lia. }
  split; [ exact Hlog | ].
  exact (proj1 (proj2 (proj2 (@activity_log_stays_bounded failingEnv demoState []
                                (startOf demoState) Hlog)))).
Defined.

(** *** The numbers in the log of a batch *)

Lemma In_sliceLast {A : Type} (n : nat) (l : list A) (x : A) :
  In x (App.sliceLast n l) -> In x l.
Proof.
  unfold App.sliceLast. generalize (List.length l - n). intros k. revert l.
  induction k as [|k IH]; intros l; [ cbn; auto | ].
  destruct l as [|y rest]; cbn; [ auto | ]. intros H. right. apply IH. exact H.
Qed.

Lemma sliceLast_snoc {A : Type} (l : list A) (x : A) :
  exists older, App.sliceLast 10 (App.sliceLast 10 l ++ [x]) = older ++ [x].
Proof.
  exists (App.sliceLast 9 (App.sliceLast 10 l)). unfold App.sliceLast at 1 3.
  rewrite length_app. cbn [List.length].
  replace (List.length (App.sliceLast 10 l) + 1 - 10)
    with (List.length (App.sliceLast 10 l) - 9) by lia.
  rewrite skipn_app.
  replace (List.length (App.sliceLast 10 l) - 9 - List.length (App.sliceLast 10 l))
    with 0 by lia.
  reflexivity.
Qed.

Section Continues.

Variable onStop : App.M unit.
Variable beforeProduct : Product -> App.M unit.
Variable generateAngle : Product -> AngleConfig -> list ImageFile -> App.M (list ImageFile).

Lemma angleLoop_continues (product : Product) (enabledAngles : list AngleConfig) :
  forall generatedImages run,
  exists generatedImages1 run1,
    angleLoop false onStop generateAngle product enabledAngles generatedImages run =
    (App.Continue generatedImages1, run1).
Proof.
  induction enabledAngles as [|a rest IH]; intros generatedImages run; cbn [angleLoop].
  - eexists. eexists. reflexivity.
  - unfold App.bind.
    destruct (generateAngle product a generatedImages run) as [generatedImages1 run1].
    apply IH.
Qed.

Lemma productLoop_continues (enabledAngles : list AngleConfig) (todo : list Product) :
  forall index updatedProducts run,
  exists updatedProducts1 run1,
    productLoop false onStop beforeProduct generateAngle enabledAngles index todo
      updatedProducts run = (App.Continue updatedProducts1, run1).
Proof.
  induction todo as [|product rest IH]; intros index updatedProducts run; cbn [productLoop].
  - eexists. eexists. reflexivity.
  - unfold App.bind at 1. destruct (beforeProduct product run) as [u run1].
    unfold App.bind at 1.
    destruct (angleLoop_continues product enabledAngles [] run1)
      as [generatedImages [run2 ->]].
    unfold App.bind, App.set. apply IH.
Qed.

End Continues.

Lemma numberedBy_addLog (n : nat) (msg : LogMessage) (type : Severity) (s : AppState) :
  (forall m, requestNumberOf (mkLog msg type) = Some m -> m = n) ->
  numberedBy n s -> numberedBy n (App.addLog msg type s).
Proof.
  intros Hnew Hs entry m Hin Hnum. unfold App.addLog in Hin.
  cbn [App.setActivityLog activityLog] in Hin. apply in_app_or in Hin.
  destruct Hin as [Hin | [<- | []]].
  - apply (Hs entry m); [ eapply In_sliceLast; exact Hin | exact Hnum ].
  - apply Hnew. exact Hnum.
Qed.

Lemma numberedBy_generateAngleBatch (E : Env) (r : AppState) (product : Product)
    (a : AngleConfig) (generatedImages : list ImageFile) (run : Run) :
  numberedBy (apiRequestCount r + 1) (store run) ->
  numberedBy (apiRequestCount r + 1)
    (store (snd (App.generateAngleBatch E r product a generatedImages run))).
Proof.
  intros Hrun.
  unfold App.generateAngleBatch, App.catchBatch, App.awaitGenerateProductAngle, App.bind,
    App.set, App.ret, App.handleStopClick.
  cbn [store world clientCalls].
  destruct (Gemini.generateProductAngle _ _ _ _ _ _ _ _ _ _) as [res w1].
  destruct res as [blobUrl|err]; destruct (stopClicked E _);
    try destruct (fetchBlob E blobUrl);
    cbn [snd store App.setTotalAnglesProcessed App.setApiRequestCount App.setStopRequested
           App.setCurrentApiStatus activityLog];
    unfold numberedBy in *; cbn -[App.sliceLast] in *;
    intros entry m Hin Hnum;
    repeat (apply in_app_or in Hin; destruct Hin as [Hin | [<- | []]];
            [ apply In_sliceLast in Hin | cbn in Hnum; congruence ]);
    eapply Hrun; eassumption.
Qed.

Lemma numberedBy_stopBatch (n : nat) (run : Run) :
  numberedBy n (store run) -> numberedBy n (store (snd (App.stopBatch run))).
Proof.
  intros Hrun. unfold App.stopBatch, App.bind, App.set.
  cbn [snd store App.setStatus App.setCurrentApiStatus App.setStopRequested].
  unfold numberedBy in *. cbn -[App.sliceLast] in *. intros entry m Hin Hnum.
  apply in_app_or in Hin. destruct Hin as [Hin | [<- | []]].
  - apply In_sliceLast in Hin. eapply Hrun; eassumption.
  - cbn in Hnum. congruence.
Qed.

Lemma numberedBy_beforeProduct (n : nat) (product : Product) (run : Run) :
  numberedBy n (store run) ->
  numberedBy n
    (store (snd (App.set (App.addLog (LogProcessingProduct (pname product)) info) run))).
Proof.
  intros Hrun. cbn [App.set snd store].
  apply numberedBy_addLog; [ cbn; congruence | exact Hrun ].
Qed.

(** X25. The numbers in the log of a batch come from the render that
    started it, not from the requests made: every request announced in the
    log of [handleGenerateBatch] carries the same number, one more than the
    request count the render held, and the total reported at the end of a
    batch that was not stopped is that request count plus the number of
    products of the batch, whatever the number of angles and of requests. *)
Theorem batch_log_numbers_come_from_the_render (E : Env) (r : AppState) (run : Run)
    (Hproducts : products r <> []) :
  let log := activityLog (store (snd (App.handleGenerateBatch E r run))) in
  (forall entry n,
     In entry log -> requestNumberOf entry = Some n -> n = apiRequestCount r + 1) /\
  (stopRequested r = false ->
   exists older,
     log =
     older ++
     [mkLog (LogTotalRequests (apiRequestCount r + List.length (App.productsToProcess r)))
        success;
      mkLog LogAllCompleted success]).
Proof.
  cbn zeta.
  destruct (App.startBatch r run) as [u run1] eqn:Hstart.
  assert (Hrun1 : numberedBy (apiRequestCount r + 1) (store run1)).
  { replace run1 with (snd (App.startBatch r run)) by (rewrite Hstart; reflexivity).
    unfold numberedBy. cbn. intros entry m [<- | []] Hnum. cbn in Hnum. congruence. }
  pose proof (@productLoop_invariant
                (fun run0 => numberedBy (apiRequestCount r + 1) (store run0)) App.stopBatch
                (fun product =>
                   App.set (App.addLog (LogProcessingProduct (pname product)) info))
                (App.generateAngleBatch E r)
                (fun run0 H => @numberedBy_stopBatch (apiRequestCount r + 1) run0 H)
                (fun product run0 H =>
                   @numberedBy_beforeProduct (apiRequestCount r + 1) product run0 H)
                (fun product a g run0 H =>
                   @numberedBy_generateAngleBatch E r product a g run0 H)
                (fun v run0 H => H) (stopRequested r)
                (App.enabledAnglesOf r) (App.productsToProcess r)
                (currentProductIndex r + 0) (products r) run1 Hrun1) as Hloop.
  assert (Hrun :
            App.handleGenerateBatch E r run =
            let (flow, run2) :=
              productLoop (stopRequested r) App.stopBatch
                (fun product =>
                   App.set (App.addLog (LogProcessingProduct (pname product)) info))
                (App.generateAngleBatch E r) (App.enabledAnglesOf r)
                (currentProductIndex r + 0) (App.productsToProcess r) (products r) run1 in
            match flow with
            | App.Return => (tt, run2)
            | App.Continue _ =>
                (tt,
                 mkRun
                   (App.setStatus StatusCompleted
                      (App.setCurrentApiStatus ApiCompleted
                         (App.addLog LogAllCompleted success
                            (App.addLog
                               (LogTotalRequests
                                  (apiRequestCount r +
                                   List.length (App.productsToProcess r)))
                               success (store run2)))))
                   (world run2) (clientCalls run2))
            end).
  { unfold App.handleGenerateBatch. rewrite (products_not_nil r Hproducts).
    unfold App.bind at 1. rewrite Hstart. unfold App.bind at 1.
    rewrite productLoopBatch_productLoop.
    destruct (productLoop _ _ _ _ _ _ _ _ run1) as [[updated|] run2]; reflexivity. }
  rewrite Hrun. clear Hrun. split.
  - destruct (productLoop _ _ _ _ _ _ _ _ run1) as [flow run2].
    cbn [snd] in Hloop. destruct flow; [ | exact Hloop ].
    cbn [snd store App.setStatus App.setCurrentApiStatus].
    apply numberedBy_addLog; [ cbn; congruence | ].
    apply numberedBy_addLog; [ cbn; congruence | ]. exact Hloop.
  - intros Hstop. rewrite Hstop in *.
    destruct (productLoop_continues App.stopBatch
                (fun product =>
                   App.set (App.addLog (LogProcessingProduct (pname product)) info))
                (App.generateAngleBatch E r) (App.enabledAnglesOf r)
                (App.productsToProcess r) (currentProductIndex r + 0) (products r) run1)
      as [updated [run2 ->]].
    cbn [snd store App.setStatus App.setCurrentApiStatus App.addLog App.setActivityLog
           activityLog].
    destruct (sliceLast_snoc (activityLog (store run2))
                (mkLog (LogTotalRequests
                          (apiRequestCount r + List.length (App.productsToProcess r)))
                   success)) as [older ->].
    exists older. rewrite <- app_assoc. reflexivity.
Qed.

Lemma batch_log_numbers_come_from_the_render_witness :
  exists older,
    activityLog (store (snd (App.handleGenerateBatch demoEnv demoState (startOf demoState)))) =
    older ++ [mkLog (LogTotalRequests 1) success; mkLog LogAllCompleted success].
Proof.
  exact (proj2 (@batch_log_numbers_come_from_the_render demoEnv demoState
                  (startOf demoState) ltac:(discriminate)) eq_refl).
Defined.

(* ===================================================================== *)
(** ** The selection of generated images: properties *)
(* ===================================================================== *)

(** *** Maps and sets *)

Lemma mapGet_mapSet_eq {V : Type} (k : string) (v : V) (m : App.JsMap V) :
  App.mapGet k (App.mapSet k v m) = Some v.
Proof.
  induction m as [|[k1 v1] rest IH]; cbn.
  - rewrite String.eqb_refl. reflexivity.
  - destruct (String.eqb k1 k) eqn:Hk; cbn; rewrite Hk; [ reflexivity | exact IH ].
Qed.

Lemma mapGet_mapSet_ne {V : Type} (k k' : string) (v : V) (m : App.JsMap V) :
  k' <> k -> App.mapGet k' (App.mapSet k v m) = App.mapGet k' m.
Proof.
  intros Hne. induction m as [|[k1 v1] rest IH]; cbn.
  - destruct (String.eqb k k') eqn:Hk; [ | reflexivity ].
    apply String.eqb_eq in Hk. congruence.
  - destruct (String.eqb k1 k) eqn:Hk; cbn.
    + apply String.eqb_eq in Hk. subst k1.
      destruct (String.eqb k k') eqn:Hk'; [ | reflexivity ].
      apply String.eqb_eq in Hk'. congruence.
    + rewrite IH. reflexivity.
Qed.

Lemma mapGet_mapDelete_eq {V : Type} (k : string) (m : App.JsMap V) :
  App.mapGet k (App.mapDelete k m) = None.
Proof.
  unfold App.mapDelete.
  induction m as [|[k1 v1] rest IH]; cbn; [ reflexivity | ].
  destruct (String.eqb k1 k) eqn:Hk; cbn; [ exact IH | ].
  rewrite Hk. exact IH.
Qed.

Lemma mapGet_mapDelete_ne {V : Type} (k k' : string) (m : App.JsMap V) :
  k' <> k -> App.mapGet k' (App.mapDelete k m) = App.mapGet k' m.
Proof.
  intros Hne. unfold App.mapDelete.
  induction m as [|[k1 v1] rest IH]; cbn; [ reflexivity | ].
  destruct (String.eqb k1 k) eqn:Hk; cbn.
  - apply String.eqb_eq in Hk. subst k1.
    destruct (String.eqb k k') eqn:Hk'; [ | exact IH ].
    apply String.eqb_eq in Hk'. congruence.
  - rewrite IH. reflexivity.
Qed.

Lemma setHas_app (x : string) (s1 s2 : App.JsSet) :
  App.setHas x (s1 ++ s2) = App.setHas x s1 || App.setHas x s2.
Proof. unfold App.setHas. apply existsb_app. Qed.

Lemma setHas_setDelete (x y : string) (s : App.JsSet) :
  App.setHas y (App.setDelete x s) = negb (String.eqb y x) && App.setHas y s.
Proof.
  unfold App.setHas, App.setDelete.
  induction s as [|z rest IH]; cbn.
  - rewrite andb_false_r. reflexivity.
  - destruct (String.eqb z x) eqn:Hz; cbn.
    + rewrite IH. apply String.eqb_eq in Hz. subst z.
      destruct (String.eqb y x); reflexivity.
    + rewrite IH. destruct (String.eqb y z) eqn:Hy; cbn.
      * apply String.eqb_eq in Hy. subst z. rewrite Hz. reflexivity.
      * reflexivity.
Qed.

Lemma setHas_setAdd (x y : string) (s : App.JsSet) :
  App.setHas y (App.setAdd x s) = String.eqb y x || App.setHas y s.
Proof.
  unfold App.setAdd. destruct (App.setHas x s) eqn:Hx.
  - destruct (String.eqb y x) eqn:Hy; [ | reflexivity ].
    apply String.eqb_eq in Hy. subst y. exact Hx.
  - rewrite setHas_app. unfold App.setHas at 2. cbn.
    rewrite orb_false_r. apply orb_comm.
Qed.

Lemma setHas_nil_of_setDelete (x y : string) (s : App.JsSet) :
  App.setDelete x s = [] -> y <> x -> App.setHas y s = false.
Proof.
  intros Hnil Hne. pose proof (setHas_setDelete x y s) as H.
  rewrite Hnil in H. cbn in H.
  destruct (String.eqb y x) eqn:Hy.
  - apply String.eqb_eq in Hy. congruence.
  - cbn in H. symmetry. exact H.
Qed.

Lemma length_zero_iff {A : Type} (l : list A) : (List.length l =? 0) = true <-> l = [].
Proof. destruct l; cbn; split; congruence. Qed.

Lemma length_zero_nil {A : Type} (l : list A) : (List.length l =? 0) = true -> l = [].
Proof. apply length_zero_iff. Qed.

Lemma toggled_product (productName imageName x : string) (prev : App.JsMap App.JsSet) :
  App.isSelected (App.handleToggleImageSelection productName imageName prev) productName x =
  if String.eqb x imageName then negb (App.isSelected prev productName imageName)
  else App.isSelected prev productName x.
Proof.
  unfold App.handleToggleImageSelection, App.isSelected, App.setSize.
  set (s := match App.mapGet productName prev with Some s => s | None => [] end).
  assert (Hs : forall y, match App.mapGet productName prev with
                         | Some s0 => App.setHas y s0
                         | None => false
                         end = App.setHas y s).
  { intros y. subst s. destruct (App.mapGet productName prev); reflexivity. }
  rewrite !Hs. clear Hs.
  destruct (App.setHas imageName s) eqn:Hhas.
  - destruct (List.length (App.setDelete imageName s) =? 0) eqn:Hsize.
    + rewrite mapGet_mapDelete_eq. apply length_zero_nil in Hsize.
      destruct (String.eqb x imageName) eqn:Hx; [ reflexivity | ].
      symmetry. apply (setHas_nil_of_setDelete _ Hsize).
      intros ->. rewrite String.eqb_refl in Hx. discriminate.
    + rewrite mapGet_mapSet_eq, setHas_setDelete.
      destruct (String.eqb x imageName); reflexivity.
  - destruct (List.length (App.setAdd imageName s) =? 0) eqn:Hsize.
    + apply length_zero_nil in Hsize. unfold App.setAdd in Hsize. rewrite Hhas in Hsize.
      destruct s; discriminate.
    + rewrite mapGet_mapSet_eq, setHas_setAdd.
      destruct (String.eqb x imageName) eqn:Hx; [ reflexivity | ].
      reflexivity.
Qed.

Lemma toggled_other_product (productName imageName p x : string)
    (prev : App.JsMap App.JsSet) :
  p <> productName ->
  App.isSelected (App.handleToggleImageSelection productName imageName prev) p x =
  App.isSelected prev p x.
Proof.
  intros Hne. unfold App.handleToggleImageSelection, App.isSelected.
  destruct (App.setSize _ =? 0).
  - rewrite mapGet_mapDelete_ne by exact Hne. reflexivity.
  - rewrite mapGet_mapSet_ne by exact Hne. reflexivity.
Qed.

(** X3. A click on the checkbox of an image flips the selection of that
    image of that product and of nothing else; a second click on the same
    checkbox restores every selection. *)
Theorem handleToggleImageSelection_flips_one (productName imageName : string)
    (prev : App.JsMap App.JsSet) (p x : string) :
  let next := App.handleToggleImageSelection productName imageName prev in
  App.isSelected next p x =
    (if String.eqb p productName && String.eqb x imageName
     then negb (App.isSelected prev productName imageName)
     else App.isSelected prev p x) /\
  App.isSelected (App.handleToggleImageSelection productName imageName next) p x =
    App.isSelected prev p x.
Proof.
  cbn zeta.
  assert (Hone : forall m,
             App.isSelected (App.handleToggleImageSelection productName imageName m) p x =
             if String.eqb p productName && String.eqb x imageName
             then negb (App.isSelected m productName imageName)
             else App.isSelected m p x).
  { intros m. destruct (String.eqb p productName) eqn:Hp; cbn [andb].
    - apply String.eqb_eq in Hp. subst p. apply toggled_product.
    - apply toggled_other_product. intros ->. rewrite String.eqb_refl in Hp. discriminate. }
  split; [ apply Hone | ].
  rewrite Hone. destruct (String.eqb p productName && String.eqb x imageName) eqn:Hpx.
  - apply andb_true_iff in Hpx. destruct Hpx as [Hp Hx].
    apply String.eqb_eq in Hp, Hx. subst p x.
    rewrite Hone. apply negb_involutive.
  - apply Hone.
Qed.

Lemma noEmptySelection_mapSet (k : string) (v : App.JsSet) (m : App.JsMap App.JsSet) :
  v <> [] -> noEmptySelection m -> noEmptySelection (App.mapSet k v m).
Proof.
  intros Hv. unfold noEmptySelection. induction m as [|[k1 v1] rest IH]; intros Hm; cbn.
  - constructor; [ exact Hv | constructor ].
  - inversion Hm as [|? ? H1 Hrest]; subst.
    destruct (String.eqb k1 k); constructor; auto.
Qed.

Lemma mapHas_mapGet {V : Type} (k : string) (m : App.JsMap V) :
  App.mapHas k m = match App.mapGet k m with Some _ => true | None => false end.
Proof.
  induction m as [|[k1 v1] rest IH]; cbn; [ reflexivity | ].
  destruct (String.eqb k1 k); [ reflexivity | exact IH ].
Qed.

Lemma mapGet_In {V : Type} (k : string) (v : V) (m : App.JsMap V) :
  App.mapGet k m = Some v -> In (k, v) m.
Proof.
  induction m as [|[k1 v1] rest IH]; cbn; [ discriminate | ].
  destruct (String.eqb k1 k) eqn:Hk.
  - intros [= ->]. apply String.eqb_eq in Hk. subst k1. left. reflexivity.
  - intros H. right. apply IH. exact H.
Qed.

Lemma setDelete_nil (x : string) (s : App.JsSet) :
  (forall y, y <> x -> App.setHas y s = false) -> App.setDelete x s = [].
Proof.
  unfold App.setDelete, App.setHas. induction s as [|z rest IH]; intros H; cbn.
  - reflexivity.
  - destruct (String.eqb z x) eqn:Hz; cbn.
    + apply IH. intros y Hy. specialize (H y Hy). cbn in H.
      apply orb_false_iff in H. apply H.
    + exfalso. assert (Hne : z <> x).
      { intros ->. rewrite String.eqb_refl in Hz. discriminate. }
      specialize (H z Hne). cbn in H. rewrite String.eqb_refl in H. discriminate.
Qed.

(** X4. The selection never records a product with an empty set of
    images: a recorded product always has an image selected, and when the
    only selected image of a product is deselected the product is removed
    from the map. *)
Theorem handleToggleImageSelection_leaves_no_empty_set (productName imageName : string)
    (prev : App.JsMap App.JsSet) (Hprev : noEmptySelection prev) :
  let next := App.handleToggleImageSelection productName imageName prev in
  noEmptySelection next /\
  (forall p, App.mapHas p next = true -> exists x, App.isSelected next p x = true) /\
  (App.isSelected prev productName imageName = true ->
   (forall x, x <> imageName -> App.isSelected prev productName x = false) ->
   App.mapHas productName next = false).
Proof.
  cbn zeta.
  assert (Hnext : noEmptySelection
                    (App.handleToggleImageSelection productName imageName prev)).
  { unfold App.handleToggleImageSelection, App.setSize.
    match goal with
    | |- context [List.length ?s1 =? 0] => destruct (List.length s1 =? 0) eqn:Hsize
    end.
    - unfold noEmptySelection, App.mapDelete in *. apply Forall_forall.
      intros entry Hin. apply filter_In in Hin.
      rewrite Forall_forall in Hprev. apply Hprev. apply Hin.
    - apply noEmptySelection_mapSet; [ | exact Hprev ].
      intros Hnil. rewrite Hnil in Hsize. discriminate. }
  split; [ exact Hnext | split ].
  - intros p Hhas. rewrite mapHas_mapGet in Hhas. unfold App.isSelected.
    destruct (App.mapGet p _) as [s|] eqn:Hget; [ | discriminate ].
    apply mapGet_In in Hget. unfold noEmptySelection in Hnext.
    rewrite Forall_forall in Hnext. specialize (Hnext _ Hget). cbn in Hnext.
    destruct s as [|x rest]; [ congruence | ].
    exists x. unfold App.setHas. cbn. rewrite String.eqb_refl. reflexivity.
  - intros Hsel Honly. unfold App.isSelected in Hsel, Honly.
    unfold App.handleToggleImageSelection, App.setSize.
    destruct (App.mapGet productName prev) as [s|]; [ | discriminate ].
    rewrite Hsel, (@setDelete_nil imageName s Honly). cbn [List.length Nat.eqb].
    rewrite mapHas_mapGet, mapGet_mapDelete_eq. reflexivity.
Qed.

Lemma handleToggleImageSelection_leaves_no_empty_set_witness :
  noEmptySelection [("Mug", ["Front.png"])] /\
  noEmptySelection
    (App.handleToggleImageSelection "Mug" "Front.png" [("Mug", ["Front.png"])]) /\
  App.mapHas "Mug"
    (App.handleToggleImageSelection "Mug" "Front.png" [("Mug", ["Front.png"])]) = false.
Proof.
  assert (Hprev : noEmptySelection [("Mug", ["Front.png"])]).
  { unfold noEmptySelection. repeat constructor. discriminate. }
  split; [ exact Hprev | ].
  split;
    [ exact (proj1 (@handleToggleImageSelection_leaves_no_empty_set "Mug" "Front.png"
                      [("Mug", ["Front.png"])] Hprev))
    | reflexivity ].
Defined.

(* ===================================================================== *)
(** ** The angles: properties *)
(* ===================================================================== *)

Lemma trimEnd_nil (s : string) :
  App.trimEnd s = "" <-> (forall c, In c (list_ascii_of_string s) -> App.isWhiteSpace c = true).
Proof.
  induction s as [|c rest IH]; cbn.
  - split; [ intros _ c [] | reflexivity ].
  - destruct (App.trimEnd rest) eqn:Hrest.
    + destruct (App.isWhiteSpace c) eqn:Hc.
      * split; [ | reflexivity ]. intros _ c0 [<- | Hin]; [ exact Hc | ].
        apply IH; [ reflexivity | exact Hin ].
      * split; [ discriminate | ]. intros H. specialize (H c (or_introl eq_refl)). congruence.
    + split; [ discriminate | ]. intros H.
      assert (Hnil : EmptyString = String a s -> False) by discriminate.
      exfalso. apply Hnil. symmetry. apply IH. intros c0 Hin. apply H. right. exact Hin.
Qed.

Lemma trim_nil (s : string) :
  App.trim s = "" <-> (forall c, In c (list_ascii_of_string s) -> App.isWhiteSpace c = true).
Proof.
  unfold App.trim. induction s as [|c rest IH].
  - cbn. split; [ intros _ c [] | reflexivity ].
  - cbn [App.trimStart]. destruct (App.isWhiteSpace c) eqn:Hc.
    + rewrite IH. cbn [list_ascii_of_string]. split.
      * intros H c0 [<- | Hin]; [ exact Hc | apply H; exact Hin ].
      * intros H c0 Hin. apply H. right. exact Hin.
    + rewrite trimEnd_nil. reflexivity.
Qed.

Lemma truthy_false (s : string) : truthy s = false <-> s = "".
Proof.
  unfold truthy. destruct (String.eqb s "") eqn:Hs; cbn.
  - apply String.eqb_eq in Hs. tauto.
  - split; [ discriminate | ]. intros ->. rewrite String.eqb_refl in Hs. discriminate.
Qed.

(** X5. [handleAddCustomAngle] adds nothing and keeps the input when the
    input holds white space only (the empty input included); otherwise it
    appends one enabled angle, named by the input as typed, not trimmed,
    after the angles of the render, which become no fewer and keep their
    places, and clears the input. *)
Theorem handleAddCustomAngle_appends_or_ignores (r : AppState) (customAngle : string)
    (run : Run) :
  let blank := forall c, In c (list_ascii_of_string customAngle) -> App.isWhiteSpace c = true in
  let out := App.handleAddCustomAngle r customAngle run in
  (blank -> out = (customAngle, run)) /\
  (~ blank ->
   fst out = "" /\
   angles (store (snd out)) =
     angles r ++ [mkAngle customAngle (customAngle ++ " view of the product") true] /\
   App.enabledAnglesOf (store (snd out)) =
     App.enabledAnglesOf r ++
     [mkAngle customAngle (customAngle ++ " view of the product") true] /\
   products (store (snd out)) = products (store run)).
Proof.
  cbn zeta. unfold App.handleAddCustomAngle.
  destruct (truthy (App.trim customAngle)) eqn:Htrim.
  - split.
    + intros Hblank. apply (proj2 (trim_nil _)) in Hblank.
      apply (proj2 (truthy_false _)) in Hblank. congruence.
    + intros _. cbn. unfold App.enabledAnglesOf. cbn.
      rewrite filter_app. cbn. repeat split; reflexivity.
  - apply (proj1 (truthy_false _)) in Htrim.
    pose proof (proj1 (trim_nil customAngle) Htrim) as Hblank.
    split; [ reflexivity | ].
    intros Hnot. contradiction.
Qed.

Lemma nth_error_filterWithIndex_skip {A : Type} (index : nat) (l : list A) :
  forall i j,
    nth_error (App.filterWithIndex (fun _ k => negb (k =? i + index)) i l) j =
    if j <? index then nth_error l j else nth_error l (S j).
Proof.
  revert index. induction l as [|x rest IH]; intros index i j.
  - cbn [App.filterWithIndex]. rewrite !nth_error_nil.
    destruct (j <? index); reflexivity.
  - cbn [App.filterWithIndex]. destruct index as [|index'].
    + rewrite Nat.add_0_r, Nat.eqb_refl. cbn [negb].
      replace (App.filterWithIndex (fun (_ : A) k => negb (k =? i)) (S i) rest) with rest.
      * reflexivity.
      * clear. assert (H : forall n, i < n ->
                   App.filterWithIndex (fun (_ : A) k => negb (k =? i)) n rest = rest).
        { induction rest as [|y rest IH]; intros n Hn; cbn; [ reflexivity | ].
          destruct (n =? i) eqn:Hni; [ apply Nat.eqb_eq in Hni; lia | ].
          cbn. f_equal. apply IH. lia. }
        symmetry. apply H. lia.
    + destruct (i =? i + S index') eqn:Hi; [ apply Nat.eqb_eq in Hi; lia | ].
      cbn [negb]. destruct j as [|j'].
      * reflexivity.
      * cbn [nth_error].
        replace (i + S index') with (S i + index') by lia.
        rewrite IH. reflexivity.
Qed.

(** X6. [handleRemoveAngle] takes out the angle at the given position and
    nothing else: the angles before it keep their places, those after it
    move up by one, and a position beyond the last angle removes nothing. *)
Theorem handleRemoveAngle_removes_one (r : AppState) (index : nat) (run : Run) :
  let left := angles (store (snd (App.handleRemoveAngle r index run))) in
  (forall j, nth_error left j =
             if j <? index then nth_error (angles r) j else nth_error (angles r) (S j)) /\
  List.length left =
    (if index <? List.length (angles r) then List.length (angles r) - 1
     else List.length (angles r)) /\
  products (store (snd (App.handleRemoveAngle r index run))) = products (store run).
Proof.
  cbn zeta. unfold App.handleRemoveAngle. cbn [App.set snd store App.setAngles angles products].
  assert (Hnth : forall j,
             nth_error (App.filterWithIndex (fun (_ : AngleConfig) i => negb (i =? index)) 0
                          (angles r)) j =
             if j <? index then nth_error (angles r) j else nth_error (angles r) (S j)).
  { intros j. apply (nth_error_filterWithIndex_skip index (angles r) 0 j). }
  split; [ exact Hnth | split; [ | reflexivity ] ].
  set (left := App.filterWithIndex _ 0 (angles r)) in *.
  destruct (index <? List.length (angles r)) eqn:Hin.
  - apply Nat.ltb_lt in Hin.
    assert (Hlen : List.length left <= List.length (angles r) - 1).
    { apply nth_error_None. rewrite Hnth.
      destruct (_ <? index) eqn:Hl;
        [ apply Nat.ltb_lt in Hl | apply Nat.ltb_ge in Hl ]; apply nth_error_None; lia. }
    assert (Hlen' : List.length (angles r) - 1 <= List.length left).
    { destruct (le_lt_dec (List.length (angles r) - 1) (List.length left)) as [H|H];
        [ exact H | exfalso ].
      assert (Hnone : nth_error left (List.length left) = None)
        by (apply nth_error_None; lia).
      rewrite Hnth in Hnone.
      destruct (_ <? index); apply nth_error_None in Hnone; lia. }
    lia.
  - apply Nat.ltb_ge in Hin.
    assert (Hlen : List.length left <= List.length (angles r)).
    { apply nth_error_None. rewrite Hnth.
      destruct (_ <? index); apply nth_error_None; lia. }
    assert (Hlen' : List.length (angles r) <= List.length left).
    { destruct (le_lt_dec (List.length (angles r)) (List.length left)) as [H|H];
        [ exact H | exfalso ].
      assert (Hnone : nth_error left (List.length left) = None)
        by (apply nth_error_None; lia).
      rewrite Hnth in Hnone.
      destruct (List.length left <? index) eqn:Hl;
        [ apply Nat.ltb_lt in Hl | apply Nat.ltb_ge in Hl ];
        apply nth_error_None in Hnone; lia. }
    lia.
Qed.

Lemma nth_error_mapWithIndex {A B : Type} (f : A -> nat -> B) (l : list A) :
  forall i j, nth_error (App.mapWithIndex f i l) j =
              option_map (fun x => f x (i + j)) (nth_error l j).
Proof.
  induction l as [|x rest IH]; intros i j.
  - cbn. destruct j; reflexivity.
  - destruct j as [|j']; cbn.
    + rewrite Nat.add_0_r. reflexivity.
    + rewrite IH. replace (S i + j') with (i + S j') by lia. reflexivity.
Qed.

Lemma length_mapWithIndex {A B : Type} (f : A -> nat -> B) (l : list A) :
  forall i, List.length (App.mapWithIndex f i l) = List.length l.
Proof. induction l as [|x rest IH]; intros i; cbn; [ reflexivity | rewrite IH; reflexivity ]. Qed.

Lemma mapWithIndex_twice (index : nat) (l : list AngleConfig) :
  forall i,
    App.mapWithIndex
      (fun angle k =>
         if k =? index then mkAngle (aname angle) (prompt angle) (negb (enabled angle))
         else angle) i
      (App.mapWithIndex
         (fun angle k =>
            if k =? index then mkAngle (aname angle) (prompt angle) (negb (enabled angle))
            else angle) i l) = l.
Proof.
  induction l as [|x rest IH]; intros i; cbn; [ reflexivity | ].
  rewrite IH. f_equal. destruct (i =? index); [ | reflexivity ].
  destruct x as [n p e]. cbn. rewrite negb_involutive. reflexivity.
Qed.

(** X7. [handleToggleAngle] flips the [enabled] flag of the angle at the
    given position and changes nothing else: every other angle, and the name
    and the prompt of every angle, stay as they are, as does the number of
    angles; toggling the same position again, from the next render, restores
    the angles. *)
Theorem handleToggleAngle_flips_one (r : AppState) (index : nat) (run : Run) :
  let run1 := snd (App.handleToggleAngle r index run) in
  (forall j, nth_error (angles (store run1)) j =
             option_map
               (fun angle =>
                  mkAngle (aname angle) (prompt angle)
                    (if j =? index then negb (enabled angle) else enabled angle))
               (nth_error (angles r) j)) /\
  List.length (angles (store run1)) = List.length (angles r) /\
  angles (store (snd (App.handleToggleAngle (store run1) index run1))) = angles r.
Proof.
  cbn zeta. unfold App.handleToggleAngle.
  cbn [App.set snd store App.setAngles angles].
  split; [ | split ].
  - intros j. rewrite nth_error_mapWithIndex. cbn [Nat.add].
    destruct (nth_error (angles r) j) as [[n p e]|]; cbn; [ | reflexivity ].
    destruct (j =? index); reflexivity.
  - apply length_mapWithIndex.
  - apply mapWithIndex_twice.
Qed.

Lemma firstThree_applyAngleAction (s : AppState) (action : AngleAction) :
  List.length (firstThree s) = 3 ->
  offered action = true ->
  firstThree (applyAngleAction s action) = firstThree s.
Proof.
  unfold firstThree. rewrite length_map. intros Hlen Hoffered.
  destruct (angles s) as [|a [|b [|c rest]]] eqn:Hangles; try (cbn in Hlen; lia).
  destruct action as [customAngle | index | index]; unfold applyAngleAction, after.
  - unfold App.handleAddCustomAngle. destruct (truthy (App.trim customAngle)).
    + cbn [App.bind App.set App.ret snd store startOf App.setAngles angles].
      rewrite Hangles. reflexivity.
    + cbn [App.ret snd store startOf]. rewrite Hangles. reflexivity.
  - unfold App.handleToggleAngle.
    cbn [App.set snd store startOf App.setAngles angles]. rewrite Hangles.
    cbn [App.mapWithIndex firstn map].
    destruct (0 =? index), (1 =? index), (2 =? index); reflexivity.
  - unfold App.handleRemoveAngle.
    cbn [App.set snd store startOf App.setAngles angles]. rewrite Hangles.
    cbn [offered] in Hoffered. apply Nat.leb_le in Hoffered.
    cbn [App.filterWithIndex].
    destruct (Nat.eqb_spec 0 index); [ lia | ].
    destruct (Nat.eqb_spec 1 index); [ lia | ].
    destruct (Nat.eqb_spec 2 index); [ lia | ].
    reflexivity.
Qed.

(** X28. The three default angles cannot be lost from the page: whatever
    sequence of the controls of the angle list is used (adding a custom
    angle, ticking or unticking an angle, removing an angle with the button
    that is rendered from the fourth angle on), the first three angles keep
    their names and prompts, so that starting from [DEFAULT_ANGLES] they
    remain Front, Back and Side; only their [enabled] flags change. *)
Theorem default_angles_stay (s : AppState) (actions : list AngleAction)
    (Hdefaults : firstn 3 (map (fun a => (aname a, prompt a)) (angles s)) =
                 map (fun a => (aname a, prompt a)) App.DEFAULT_ANGLES)
    (Hoffered : forallb offered actions = true) :
  firstThree (fold_left applyAngleAction actions s) =
  [("Front", "Front view of the product"); ("Back", "Back view of the product");
   ("Side", "Side view of the product")].
Proof.
  assert (Hstart : firstThree s =
                   [("Front", "Front view of the product");
                    ("Back", "Back view of the product");
                    ("Side", "Side view of the product")]).
  { unfold firstThree. rewrite <- firstn_map. exact Hdefaults. }
  clear Hdefaults. revert s Hstart Hoffered.
  induction actions as [|action rest IH]; intros s Hstart Hoffered; cbn [fold_left].
  - exact Hstart.
  - cbn [forallb] in Hoffered. apply andb_true_iff in Hoffered.
    destruct Hoffered as [Haction Hrest].
    apply IH; [ | exact Hrest ].
    rewrite firstThree_applyAngleAction; [ exact Hstart | | exact Haction ].
    rewrite Hstart. reflexivity.
Qed.

Lemma default_angles_stay_witness :
  map fst
    (firstThree
       (fold_left applyAngleAction
          [AddAngle "Top"; ToggleAngle 0; RemoveAngle 3; AddAngle "  "]
          (App.setAngles App.DEFAULT_ANGLES demoState))) =
  ["Front"; "Back"; "Side"].
Proof.
  rewrite (@default_angles_stay (App.setAngles App.DEFAULT_ANGLES demoState)
             [AddAngle "Top"; ToggleAngle 0; RemoveAngle 3; AddAngle "  "]
             eq_refl eq_refl).
  reflexivity.
Defined.

(* ===================================================================== *)
(** ** Navigation and the size of a batch: properties *)
(* ===================================================================== *)

Lemma after_goToNextProduct (s : AppState) :
  after App.goToNextProduct s =
  if currentProductIndex s + 1 <? List.length (products s)
  then App.setCurrentProductIndex (currentProductIndex s + 1) s
  else s.
Proof.
  unfold after, App.goToNextProduct.
  destruct (Z.of_nat (currentProductIndex s) <? Z.of_nat (List.length (products s)) - 1)%Z
    eqn:Hnext;
    [ apply Z.ltb_lt in Hnext | apply Z.ltb_ge in Hnext ];
    (destruct (currentProductIndex s + 1 <? List.length (products s)) eqn:Hlt;
     [ apply Nat.ltb_lt in Hlt | apply Nat.ltb_ge in Hlt ]);
    try lia; reflexivity.
Qed.

Lemma after_goToPreviousProduct (s : AppState) :
  after App.goToPreviousProduct s =
  if 0 <? currentProductIndex s
  then App.setCurrentProductIndex (currentProductIndex s - 1) s
  else s.
Proof.
  unfold after, App.goToPreviousProduct.
  destruct (0 <? currentProductIndex s); reflexivity.
Qed.

(** X8. The two navigation handlers never leave the catalog: from a
    current product that exists they lead to one that exists; each moves by
    one position or, at the end it heads for, not at all; and going to the
    next product and back, or to the previous one and forth, returns to the
    state one started from. *)
Theorem navigation_stays_in_the_catalog (s : AppState) (Hindex : validIndex s) :
  validIndex (after App.goToNextProduct s) /\
  validIndex (after App.goToPreviousProduct s) /\
  currentProductIndex (after App.goToNextProduct s) =
    Nat.min (currentProductIndex s + 1) (List.length (products s) - 1) /\
  currentProductIndex (after App.goToPreviousProduct s) = currentProductIndex s - 1 /\
  (currentProductIndex s + 1 < List.length (products s) ->
   after App.goToPreviousProduct (after App.goToNextProduct s) = s) /\
  (0 < currentProductIndex s ->
   after App.goToNextProduct (after App.goToPreviousProduct s) = s).
Proof.
  unfold validIndex in *.
  rewrite !after_goToNextProduct, !after_goToPreviousProduct.
  destruct s as [ps idx st er key pd ang mn tw bs tp tt0 rc sr cs lg].
  cbn [products currentProductIndex] in *.
  split; [ | split; [ | split; [ | split; [ | split ] ] ] ].
  - destruct (idx + 1 <? List.length ps) eqn:Hnext; cbn; [ apply Nat.ltb_lt in Hnext | ]; lia.
  - destruct (0 <? idx); cbn; lia.
  - destruct (idx + 1 <? List.length ps) eqn:Hnext; cbn;
      [ apply Nat.ltb_lt in Hnext | apply Nat.ltb_ge in Hnext ]; lia.
  - destruct (0 <? idx) eqn:Hprev; cbn;
      [ apply Nat.ltb_lt in Hprev | apply Nat.ltb_ge in Hprev ]; lia.
  - intros Hmove. apply Nat.ltb_lt in Hmove. rewrite Hmove.
    cbn [App.setCurrentProductIndex currentProductIndex products].
    assert (H1 : (0 <? idx + 1) = true) by (apply Nat.ltb_lt; lia). rewrite H1.
    cbn [App.setCurrentProductIndex currentProductIndex products].
    replace (idx + 1 - 1) with idx by lia. reflexivity.
  - intros Hmove. apply Nat.ltb_lt in Hmove. rewrite Hmove. apply Nat.ltb_lt in Hmove.
    cbn [App.setCurrentProductIndex currentProductIndex products].
    assert (H1 : (idx - 1 + 1 <? List.length ps) = true) by (apply Nat.ltb_lt; lia).
    rewrite H1. cbn [App.setCurrentProductIndex currentProductIndex products].
    replace (idx - 1 + 1) with idx by lia. reflexivity.
Qed.

Lemma navigation_stays_in_the_catalog_witness :
  validIndex demoState /\
  validIndex (after App.goToNextProduct demoState) /\
  currentProductIndex (after App.goToNextProduct (after App.goToNextProduct demoState)) = 1.
Proof.
  assert (Hindex : validIndex demoState).
  { unfold validIndex. cbn. lia. }
  split; [ exact Hindex | ].
  split; [ exact (proj1 (@navigation_stays_in_the_catalog demoState Hindex)) | reflexivity ].
Defined.

(** X9. The number shown on the Generate Batch button,
    [getRemainingProducts()], is the number of products the batch goes
    through (none when that number is negative), and the total of the
    progress display set at the start of a batch is that number times the
    number of enabled angles; with a current product that exists and a batch
    size of at least one, a batch is never empty. *)
Theorem getRemainingProducts_is_the_batch (r : AppState) (run : Run) :
  Z.of_nat (List.length (App.productsToProcess r)) = Z.max 0 (App.getRemainingProducts r) /\
  totalAnglesToProcess (store (snd (App.startBatch r run))) =
    Z.to_nat (App.getRemainingProducts r) * List.length (App.enabledAnglesOf r) /\
  (validIndex r -> 1 <= batchSize r -> (1 <= App.getRemainingProducts r)%Z).
Proof.
  unfold App.getRemainingProducts, validIndex.
  pose proof (length_productsToProcess r) as Hlen.
  split; [ lia | split ].
  - cbn. rewrite Hlen. f_equal. lia.
  - lia.
Qed.

(** X10. The three controls of the batch size keep it between one and the
    size of the catalog: typing a value, whatever [parseInt] makes of it
    (no number, zero and negative numbers included), sets a size in that
    range when the catalog is not empty, and the minus and plus buttons move
    a size of that range by one without leaving it. *)
Theorem batch_size_stays_in_range (s : AppState) (parsed : option Z)
    (Hproducts : products s <> []) :
  validBatchSize (after (fun r => App.changeBatchSize r parsed) s) /\
  (validBatchSize s ->
   validBatchSize (after App.decreaseBatchSize s) /\
   validBatchSize (after App.increaseBatchSize s) /\
   batchSize (after App.decreaseBatchSize s) = Nat.max 1 (batchSize s - 1) /\
   batchSize (after App.increaseBatchSize s) =
     Nat.min (List.length (products s)) (batchSize s + 1)).
Proof.
  unfold validBatchSize, after, App.changeBatchSize, App.decreaseBatchSize,
    App.increaseBatchSize, App.parsedOrOne.
  cbn [App.set snd store startOf App.setBatchSize batchSize products].
  assert (Hlen : 1 <= List.length (products s)).
  { destruct (products s); [ congruence | cbn; lia ]. }
  split.
  - destruct parsed as [n|]; [ destruct (n =? 0)%Z | ]; lia.
  - intros Hrange. lia.
Qed.

Lemma batch_size_stays_in_range_witness :
  validBatchSize (after (fun r => App.changeBatchSize r (Some (-3)%Z)) demoState).
Proof.
  refine (proj1 (@batch_size_stays_in_range demoState (Some (-3)%Z) _)).
  unfold demoState, demoProducts. cbn. discriminate.
Defined.

(* ===================================================================== *)
(** ** The downloads: properties *)
(* ===================================================================== *)

Lemma filter_filter_and {A : Type} (f g : A -> bool) (l : list A) :
  filter g (filter f l) = filter (fun x => f x && g x) l.
Proof.
  induction l as [|x rest IH]; cbn; [ reflexivity | ].
  destruct (f x); cbn; [ destruct (g x) | ]; rewrite IH; reflexivity.
Qed.

Lemma filter_nil_of_all_false {A : Type} (f : A -> bool) (l : list A) :
  (forall x, f x = false) -> filter f l = [].
Proof.
  intros H. induction l as [|x rest IH]; cbn; [ reflexivity | ]. rewrite H. exact IH.
Qed.

Lemma selected_of_product (selectedImages : App.JsMap App.JsSet) (product : Product) :
  filter (downloadable selectedImages product) (generatedImages product) =
  match App.mapGet (pname product) selectedImages with
  | Some productSelections =>
      filter (fun img => App.setHas (name img) productSelections)
        (filter App.isCompleted (generatedImages product))
  | None => []
  end.
Proof.
  unfold downloadable, App.isSelected.
  destruct (App.mapGet (pname product) selectedImages) as [s|].
  - rewrite filter_filter_and. reflexivity.
  - apply filter_nil_of_all_false. intros x. apply andb_false_r.
Qed.

Lemma imagesToDownload_filter (selectedImages : App.JsMap App.JsSet) (product : Product) :
  match App.imagesToDownload selectedImages product with
  | inr imgs =>
      imgs = filter (downloadable selectedImages product) (generatedImages product) /\
      imgs <> []
  | inl _ => filter (downloadable selectedImages product) (generatedImages product) = []
  end.
Proof.
  rewrite selected_of_product. unfold App.imagesToDownload, App.setSize.
  destruct (List.length (generatedImages product) =? 0) eqn:Hgen.
  - apply length_zero_iff in Hgen. rewrite Hgen. cbn.
    destruct (App.mapGet _ _); reflexivity.
  - destruct (List.length (filter App.isCompleted (generatedImages product)) =? 0) eqn:Hcomp.
    + apply length_zero_iff in Hcomp. rewrite Hcomp. cbn.
      destruct (App.mapGet _ _); reflexivity.
    + destruct (App.mapGet (pname product) selectedImages) as [s|]; [ | reflexivity ].
      destruct (List.length s =? 0) eqn:Hsel.
      * apply length_zero_iff in Hsel. subst s. apply filter_nil_of_all_false.
        reflexivity.
      * destruct (List.length
                    (filter (fun img : ImageFile => App.setHas (name img) s)
                       (filter App.isCompleted (generatedImages product))) =? 0) eqn:Htake.
        -- apply length_zero_iff in Htake. exact Htake.
        -- split; [ reflexivity | ]. intros Hnil. rewrite Hnil in Htake. discriminate.
Qed.

(** X11. [handleDownloadProduct] goes on to build an archive exactly when
    some generated image of the product is completed and selected, and the
    images it then takes are the completed and selected images of the
    product, each once, in the order of display; a failed image is never
    taken, selected or not. *)
Theorem handleDownloadProduct_takes_completed_and_selected
    (selectedImages : App.JsMap App.JsSet) (product : Product) :
  match App.imagesToDownload selectedImages product with
  | inr imgs =>
      imgs = filter (downloadable selectedImages product) (generatedImages product) /\
      imgs <> [] /\
      (forall img, In img imgs ->
         In img (generatedImages product) /\ istatus img = completed /\
         App.isSelected selectedImages (pname product) (name img) = true)
  | inl _ =>
      forall img, In img (generatedImages product) ->
        istatus img = completed ->
        App.isSelected selectedImages (pname product) (name img) = false
  end.
Proof.
  pose proof (imagesToDownload_filter selectedImages product) as H.
  destruct (App.imagesToDownload selectedImages product) as [alert|imgs].
  - intros img Hin Hstatus.
    destruct (App.isSelected selectedImages (pname product) (name img)) eqn:Hsel;
      [ exfalso | reflexivity ].
    assert (Hin' : In img (filter (downloadable selectedImages product)
                             (generatedImages product))).
    { apply filter_In. split; [ exact Hin | ].
      unfold downloadable, App.isCompleted. rewrite Hstatus, Hsel. reflexivity. }
    rewrite H in Hin'. exact Hin'.
  - destruct H as [Himgs Hne]. split; [ exact Himgs | split; [ exact Hne | ] ].
    intros img Hin. rewrite Himgs in Hin. apply filter_In in Hin.
    destruct Hin as [Hin Hd]. unfold downloadable in Hd. apply andb_true_iff in Hd.
    destruct Hd as [Hc Hs]. split; [ exact Hin | split; [ | exact Hs ] ].
    unfold App.isCompleted in Hc. destruct (istatus img); congruence.
Qed.

Lemma countProduct_folder (selectedImages : App.JsMap App.JsSet) (product : Product)
    (totalImages productsWithImages : nat) :
  App.countProduct selectedImages (totalImages, productsWithImages) product =
  (totalImages + List.length (flat_map snd (folderOf selectedImages product)),
   productsWithImages + List.length (folderOf selectedImages product)).
Proof.
  unfold folderOf. rewrite selected_of_product. unfold App.countProduct, App.setSize.
  destruct (0 <? List.length (generatedImages product)) eqn:Hgen.
  - destruct (App.mapGet (pname product) selectedImages) as [s|];
      [ | cbn; f_equal; lia ].
    destruct (0 <? List.length s) eqn:Hsel.
    + destruct (filter _ (filter App.isCompleted (generatedImages product))) as [|img imgs];
        cbn; [ f_equal; lia | ].
      rewrite app_nil_r. f_equal; lia.
    + destruct s; [ | discriminate ]. cbn.
      rewrite (filter_nil_of_all_false (fun img : ImageFile => false)) by reflexivity.
      cbn. f_equal; lia.
  - destruct (generatedImages product); [ | discriminate ]. cbn.
    destruct (App.mapGet _ _); cbn; f_equal; lia.
Qed.

Lemma fold_count (imgs : list ImageFile) (n : nat) :
  fold_left (fun processedImages1 (_ : ImageFile) => processedImages1 + 1) imgs n =
  n + List.length imgs.
Proof.
  revert n. induction imgs as [|img rest IH]; intros n; cbn; [ lia | ].
  rewrite IH. lia.
Qed.

Lemma archiveProduct_folder (selectedImages : App.JsMap App.JsSet) (product : Product)
    (folders : list (string * list ImageFile)) (processedImages : nat) :
  App.archiveProduct selectedImages (folders, processedImages) product =
  (folders ++ folderOf selectedImages product,
   processedImages + List.length (flat_map snd (folderOf selectedImages product))).
Proof.
  unfold folderOf. rewrite selected_of_product. unfold App.archiveProduct, App.setSize.
  destruct (0 <? List.length (generatedImages product)) eqn:Hgen.
  - destruct (App.mapGet (pname product) selectedImages) as [s|];
      [ | cbn; rewrite app_nil_r; f_equal; lia ].
    destruct (List.length s =? 0) eqn:Hsel.
    + apply length_zero_iff in Hsel. subst s.
      rewrite (filter_nil_of_all_false (fun img : ImageFile => App.setHas (name img) []))
        by reflexivity.
      cbn. rewrite app_nil_r. f_equal; lia.
    + destruct (filter _ (filter App.isCompleted (generatedImages product))) as [|img imgs];
        cbn [List.length Nat.ltb Nat.leb flat_map snd app].
      * rewrite app_nil_r. f_equal; lia.
      * rewrite fold_count, app_nil_r. reflexivity.
  - destruct (generatedImages product); [ | discriminate ]. cbn.
    destruct (App.mapGet _ _); cbn; rewrite app_nil_r; f_equal; lia.
Qed.

Lemma countSelectedImages_fold (selectedImages : App.JsMap App.JsSet)
    (products : list Product) :
  forall totalImages productsWithImages,
    fold_left (App.countProduct selectedImages) products (totalImages, productsWithImages) =
    (totalImages + List.length (flat_map snd (flat_map (folderOf selectedImages) products)),
     productsWithImages + List.length (flat_map (folderOf selectedImages) products)).
Proof.
  induction products as [|product rest IH]; intros totalImages productsWithImages;
    cbn [fold_left flat_map].
  - cbn. f_equal; lia.
  - rewrite countProduct_folder, IH, flat_map_app, !length_app. f_equal; lia.
Qed.

Lemma archiveSelectedImages_fold (selectedImages : App.JsMap App.JsSet)
    (products : list Product) :
  forall folders processedImages,
    fold_left (App.archiveProduct selectedImages) products (folders, processedImages) =
    (folders ++ flat_map (folderOf selectedImages) products,
     processedImages +
     List.length (flat_map snd (flat_map (folderOf selectedImages) products))).
Proof.
  induction products as [|product rest IH]; intros folders processedImages;
    cbn [fold_left flat_map].
  - cbn. rewrite app_nil_r. f_equal; lia.
  - rewrite archiveProduct_folder, IH, flat_map_app, !length_app, <- app_assoc.
    f_equal; lia.
Qed.

(** X12. In [handleDownloadAll] the loop that counts and the loop that
    fills the archive agree: the number of images announced is the number
    of images taken up for the archive, the number of products announced is
    the number of folders made, and the folders are, in the order of the
    catalog, those of the products with a completed and selected image,
    each holding what Download This Product would take for that product. *)
Theorem handleDownloadAll_counts_what_it_archives (selectedImages : App.JsMap App.JsSet)
    (products : list Product) :
  let counts := App.countSelectedImages selectedImages products in
  let archive := App.archiveSelectedImages selectedImages products in
  snd archive = fst counts /\
  List.length (fst archive) = snd counts /\
  fst counts = List.length (flat_map snd (fst archive)) /\
  fst archive =
    flat_map
      (fun product =>
         match App.imagesToDownload selectedImages product with
         | inr imgs => [(pname product, imgs)]
         | inl _ => []
         end)
      products /\
  (App.downloadAllOutcome selectedImages products = App.AllNoImages <->
   products <> [] /\ fst archive = []).
Proof.
  cbn zeta. unfold App.downloadAllOutcome, App.countSelectedImages, App.archiveSelectedImages.
  rewrite countSelectedImages_fold, archiveSelectedImages_fold. cbn [fst snd app Nat.add].
  assert (Hfolders :
            flat_map (folderOf selectedImages) products =
            flat_map
              (fun product =>
                 match App.imagesToDownload selectedImages product with
                 | inr imgs => [(pname product, imgs)]
                 | inl _ => []
                 end)
              products).
  { apply flat_map_ext. intros product. unfold folderOf.
    pose proof (imagesToDownload_filter selectedImages product) as H.
    destruct (App.imagesToDownload selectedImages product) as [alert|imgs].
    - rewrite H. reflexivity.
    - destruct H as [Himgs Hne]. rewrite <- Himgs.
      destruct imgs; [ congruence | reflexivity ]. }
  split; [ reflexivity | split; [ reflexivity | split; [ reflexivity | split ] ] ].
  - exact Hfolders.
  - set (folders := flat_map (folderOf selectedImages) products).
    assert (Hnonempty : Forall (fun folder : string * list ImageFile => snd folder <> [])
                          folders).
    { subst folders. apply Forall_flat_map. apply Forall_forall. intros product _.
      unfold folderOf. destruct (filter _ _) eqn:Hf; constructor; [ | constructor ].
      cbn. discriminate. }
    destruct products as [|product rest]; cbn [List.length Nat.eqb].
    + split; [ discriminate | intros [H _]; congruence ].
    + destruct (List.length (flat_map snd folders) =? 0) eqn:Hzero.
      * split; [ intros _ | reflexivity ]. split; [ discriminate | ].
        apply length_zero_iff in Hzero. destruct folders as [|[n imgs] more];
          [ reflexivity | ].
        inversion Hnonempty as [|? ? Himgs _]; subst. cbn in Hzero, Himgs.
        destruct imgs; [ congruence | discriminate ].
      * split; [ discriminate | ]. intros [_ Hnil]. rewrite Hnil in Hzero. discriminate.
Qed.






(** X14. Ticking the checkbox of a completed image that was not selected
    makes Download This Product go on, with that image in the archive; what
    else the archive then takes has the same name or was taken before the
    click. *)
Theorem ticked_image_is_downloaded (selectedImages : App.JsMap App.JsSet)
    (product : Product) (img : ImageFile)
    (Hin : In img (generatedImages product))
    (Hdone : istatus img = completed)
    (Hnot : App.isSelected selectedImages (pname product) (name img) = false) :
  let ticked := App.handleToggleImageSelection (pname product) (name img) selectedImages in
  exists imgs,
    App.imagesToDownload ticked product = inr imgs /\
    In img imgs /\
    (forall other, In other imgs ->
       name other = name img \/
       In other (filter (downloadable selectedImages product) (generatedImages product))).
Proof.
  cbn zeta.
  set (ticked := App.handleToggleImageSelection (pname product) (name img) selectedImages).
  assert (Himg : In img (filter (downloadable ticked product) (generatedImages product))).
  { apply filter_In. split; [ exact Hin | ]. unfold downloadable, App.isCompleted.
    rewrite Hdone. cbn [andb]. unfold ticked. rewrite toggled_product, String.eqb_refl, Hnot.
    reflexivity. }
  pose proof (imagesToDownload_filter ticked product) as Hfilter.
  destruct (App.imagesToDownload ticked product) as [alert|imgs].
  - rewrite Hfilter in Himg. contradiction.
  - destruct Hfilter as [Himgs _]. exists imgs. split; [ reflexivity | ].
    rewrite Himgs. split; [ exact Himg | ].
    intros other Hother. apply filter_In in Hother. destruct Hother as [Hgen Htake].
    unfold downloadable in Htake. apply andb_true_iff in Htake. destruct Htake as [Hc Hs].
    unfold ticked in Hs. rewrite toggled_product in Hs.
    destruct (String.eqb (name other) (name img)) eqn:Hname.
    + left. apply String.eqb_eq. exact Hname.
    + right. apply filter_In. split; [ exact Hgen | ]. unfold downloadable.
      rewrite Hc, Hs. reflexivity.
Qed.

Lemma ticked_image_is_downloaded_witness :
  let img :=
    App.completedImage (mkProduct "Mug" [] []) (mkAngle "Front" "Front view" true)
      (mkBlob "image/png" "PNG") "data:image/png;base64,AAAA" in
  exists imgs,
    App.imagesToDownload (App.handleToggleImageSelection "Mug" "Front.png" [])
      (mkProduct "Mug" [] [img; App.failedImage (mkProduct "Mug" [] [])
                                  (mkAngle "Back" "Back view" true)]) = inr imgs /\
    In img imgs.
Proof.
  cbn zeta.
  destruct (@ticked_image_is_downloaded []
              (mkProduct "Mug" []
                 [App.completedImage (mkProduct "Mug" [] []) (mkAngle "Front" "Front view" true)
                    (mkBlob "image/png" "PNG") "data:image/png;base64,AAAA";
                  App.failedImage (mkProduct "Mug" [] []) (mkAngle "Back" "Back view" true)])
              (App.completedImage (mkProduct "Mug" [] []) (mkAngle "Front" "Front view" true)
                 (mkBlob "image/png" "PNG") "data:image/png;base64,AAAA")
              (or_introl eq_refl) eq_refl eq_refl) as [imgs [Himgs [Hin _]]].
  exists imgs. split; [ exact Himgs | exact Hin ].
Defined.

(* ===================================================================== *)
(** ** The catalog, continued: properties *)
(* ===================================================================== *)

Lemma mapUpdate_nil {V : Type} (k : string) (init : V) (f : V -> V) :
  App.mapUpdate k init f [] = [(k, f init)].
Proof. unfold App.mapUpdate. cbn. rewrite String.eqb_refl. reflexivity. Qed.

Lemma mapUpdate_cons {V : Type} (k : string) (init : V) (f : V -> V) (k1 : string) (v1 : V)
    (rest : App.JsMap V) :
  App.mapUpdate k init f ((k1, v1) :: rest) =
  if String.eqb k1 k then (k1, f v1) :: rest else (k1, v1) :: App.mapUpdate k init f rest.
Proof.
  unfold App.mapUpdate. cbn [App.mapHas].
  destruct (String.eqb k1 k) eqn:Hk.
  - cbn. rewrite Hk. reflexivity.
  - destruct (App.mapHas k rest) eqn:Hhas.
    + cbn. rewrite Hk. destruct (App.mapGet k rest); reflexivity.
    + cbn. rewrite Hk. cbn. rewrite Hk.
      destruct (App.mapGet k (App.mapSet k init rest)); reflexivity.
Qed.

Lemma mapUpdate_perm {V X : Type} (content : V -> list X) (k : string) (init : V)
    (f : V -> V) (delta : list X) (m : App.JsMap V) :
  content init = [] ->
  (forall v, Permutation (content (f v)) (delta ++ content v)) ->
  Permutation (flat_map (fun entry => content (snd entry)) (App.mapUpdate k init f m))
              (delta ++ flat_map (fun entry => content (snd entry)) m).
Proof.
  intros Hinit Hf. induction m as [|[k1 v1] rest IH].
  - rewrite mapUpdate_nil. cbn. rewrite !app_nil_r.
    eapply Permutation_trans; [ apply Hf | ]. rewrite Hinit, app_nil_r. apply Permutation_refl.
  - rewrite mapUpdate_cons. destruct (String.eqb k1 k); cbn.
    + rewrite app_assoc. apply Permutation_app_tail. apply Hf.
    + eapply Permutation_trans; [ apply Permutation_app_head; exact IH | ].
      rewrite !app_assoc. apply Permutation_app_tail. apply Permutation_app_comm.
Qed.

Lemma addFile_perm (folderMap : App.JsMap (App.JsMap (list File))) (f : File) :
  Permutation
    (flat_map (fun entry => flat_map snd (snd entry)) (App.addFile folderMap f))
    ((if isCatalogued f then [f] else []) ++
     flat_map (fun entry => flat_map snd (snd entry)) folderMap).
Proof.
  unfold App.addFile, isCatalogued, isImageFile.
  destruct (startsWith (fileType f) "image/"); cbn [negb andb]; [ | apply Permutation_refl ].
  destruct (List.length (split "/" (webkitRelativePath f)) <? 2); cbn [negb];
    [ apply Permutation_refl | ].
  apply (mapUpdate_perm (fun colorMap : App.JsMap (list File) => flat_map snd colorMap));
    [ reflexivity | ].
  intros colorMap.
  apply (mapUpdate_perm (fun fs : list File => fs)); [ reflexivity | ].
  intros fs. apply Permutation_app_comm.
Qed.

Lemma fold_addFile_perm (files : list File) :
  forall folderMap,
    Permutation
      (flat_map (fun entry => flat_map snd (snd entry)) (fold_left App.addFile files folderMap))
      (flat_map (fun entry => flat_map snd (snd entry)) folderMap ++
       filter isCatalogued files).
Proof.
  induction files as [|f rest IH]; intros folderMap; cbn [fold_left filter].
  - rewrite app_nil_r. apply Permutation_refl.
  - eapply Permutation_trans; [ apply IH | ].
    eapply Permutation_trans; [ apply Permutation_app_tail; apply addFile_perm | ].
    destruct (isCatalogued f); cbn [app].
    + apply Permutation_middle.
    + apply Permutation_refl.
Qed.

Lemma filesOfCatalog_buildProductsList (E : Env)
    (folderMap : App.JsMap (App.JsMap (list File))) :
  filesOfCatalog (App.buildProductsList E folderMap) =
  flat_map (fun entry => flat_map snd (snd entry)) folderMap.
Proof.
  unfold filesOfCatalog, App.buildProductsList.
  induction folderMap as [|[productName colorMap] rest IH]; cbn [flat_map]; [ reflexivity | ].
  rewrite flat_map_app, IH. f_equal. cbn [snd]. unfold App.colorGroups.
  induction colorMap as [|[colorName fs] more IHc]; cbn [flat_map]; [ reflexivity | ].
  rewrite flat_map_app, IHc. f_equal. cbn [snd].
  destruct fs as [|f fs]; [ reflexivity | ].
  cbn [map List.length Nat.ltb Nat.leb flat_map images app]. rewrite app_nil_r.
  cbn [App.toImageFile file]. f_equal.
  rewrite map_map. cbn. apply map_id.
Qed.

Lemma scanFolder_files (E : Env) (files : list File) :
  Permutation (filesOfCatalog (App.scanFolder E files)) (filter isCatalogued files).
Proof.
  unfold App.scanFolder. eapply Permutation_trans.
  { unfold filesOfCatalog. apply Permutation_flat_map. apply jsSort_perm. }
  fold (filesOfCatalog (App.buildProductsList E (fold_left (App.addFile) files []))).
  rewrite filesOfCatalog_buildProductsList.
  apply (fold_addFile_perm files []).
Qed.

(** X15. The catalog built from a selected folder holds every image of the
    folder whose relative path has two parts at least exactly once, and
    nothing else: no image is lost, duplicated or invented by the grouping
    and the sort. Every entry is the image as read ([pending], previewed by
    its object URL, named and located as the file), and no group has
    generated images yet. *)
Theorem scanFolder_keeps_every_image (E : Env) (files : list File) :
  Permutation (filesOfCatalog (App.scanFolder E files)) (filter isCatalogued files) /\
  Forall
    (fun p =>
       generatedImages p = [] /\
       Forall (fun img => img = App.toImageFile E (file img)) (images p))
    (App.scanFolder E files).
Proof.
  split; [ apply scanFolder_files | ].
  unfold App.scanFolder.
  eapply Permutation_Forall; [ apply Permutation_sym, jsSort_perm | ].
  unfold App.buildProductsList, App.colorGroups.
  apply Forall_flat_map, Forall_forall. intros [productName colorMap] _.
  apply Forall_flat_map, Forall_forall. intros [colorName fs] _.
  destruct (0 <? List.length (map (App.toImageFile E) fs)); constructor; [ | constructor ].
  cbn. split; [ reflexivity | ].
  apply Forall_forall. intros img Hin. apply in_map_iff in Hin.
  destruct Hin as [f [<- _]]. reflexivity.
Qed.

Lemma scanFolder_not_nil (E : Env) (files : list File) :
  App.scanFolder E files <> [] <-> exists f, In f files /\ isCatalogued f = true.
Proof.
  pose proof (scanFolder_files E files) as Hperm.
  pose proof (scanFolder_groups_have_images E files) as Hgroups.
  split.
  - intros Hne. destruct (App.scanFolder E files) as [|p rest]; [ congruence | ].
    inversion Hgroups as [|? ? Himages _]; subst.
    destruct (images p) as [|img imgs] eqn:Himgs; [ congruence | ].
    assert (Hin : In (file img) (filter isCatalogued files)).
    { eapply Permutation_in; [ exact Hperm | ].
      unfold filesOfCatalog. cbn [flat_map]. rewrite Himgs. left. reflexivity. }
    apply filter_In in Hin. eauto.
  - intros [f [Hin Hf]] Hnil. rewrite Hnil in Hperm. cbn in Hperm.
    apply Permutation_nil in Hperm.
    assert (Hin' : In f (filter isCatalogued files)) by (apply filter_In; auto).
    rewrite Hperm in Hin'. contradiction.
Qed.

(** X24. A folder selection with no file changes nothing. Any other one
    replaces the catalog by the groups found, goes back to the first
    product, ends idle with the error line cleared and reports the number of
    groups as the last entry of the log; the current product then exists
    exactly when the folder holds an image whose relative path has two
    parts. It makes no call, and keeps the settings (credential, angles,
    batch size) and the stop flag as they are. *)
Theorem handleSelectFolder_goes_back_to_the_first (E : Env) (files : list File) (run : Run) :
  let run' := snd (App.handleSelectFolder E files run) in
  (files = [] -> run' = run) /\
  (files <> [] ->
   products (store run') = App.scanFolder E files /\
   currentProductIndex (store run') = 0 /\
   appStatus (store run') = StatusIdle /\
   errorText (store run') = "" /\
   activityLog (store run') =
     App.sliceLast 10 (activityLog (store run)) ++
     [mkLog (LogLoaded (List.length (App.scanFolder E files))) success] /\
   (validIndex (store run') <-> exists f, In f files /\ isCatalogued f = true)) /\
  apiKey (store run') = apiKey (store run) /\
  angles (store run') = angles (store run) /\
  batchSize (store run') = batchSize (store run) /\
  stopRequested (store run') = stopRequested (store run) /\
  world run' = world run /\
  clientCalls run' = clientCalls run.
Proof.
  cbn zeta. unfold App.handleSelectFolder.
  destruct files as [|f rest].
  - cbn. split; [ reflexivity | ].
    split; [ intros Hfiles; congruence | repeat split; reflexivity ].
  - cbn [List.length Nat.eqb]. cbn -[App.scanFolder App.sliceLast].
    split; [ discriminate | split; [ | repeat split; reflexivity ] ].
    intros _. repeat split; try reflexivity.
    + unfold validIndex. cbn -[App.scanFolder]. intros Hvalid.
      refine (proj1 (scanFolder_not_nil E (f :: rest)) _).
      intros Hnil. rewrite Hnil in Hvalid. cbn in Hvalid. lia.
    + unfold validIndex. cbn -[App.scanFolder]. intros Hex.
      pose proof (proj2 (scanFolder_not_nil E (f :: rest)) Hex) as Hne.
      destruct (App.scanFolder E (f :: rest)); [ congruence | cbn; lia ].
Qed.

Lemma sameGroups_of_nth_error (before after : list Product) :
  (forall j,
     nth_error after j = nth_error before j \/
     exists product entries,
       nth_error before j = Some product /\
       nth_error after j = Some (mkProduct (pname product) (images product) entries)) ->
  sameGroups before after.
Proof.
  intros H. split; apply nth_error_ext; intros j; rewrite !nth_error_map;
    destruct (H j) as [-> | [product [entries [-> ->]]]]; reflexivity.
Qed.

Lemma sameGroups_Completed (E : Env) (r : AppState) (lo hi : nat)
    (R : Product -> AngleConfig -> ImageFile -> Prop) (Qw : World -> World -> Prop)
    (start : nat) (todo : list Product) (requestsBefore : nat) (run run' : Run) :
  Completed E r lo hi R Qw start todo requestsBefore run run' ->
  todo <> [] ->
  (forall k, k < List.length todo -> nth_error todo k = nth_error (products r) (start + k)) ->
  sameGroups (products r) (products (store run')).
Proof.
  intros Hdone Hne Htodo. unfold Completed in Hdone. cbn zeta in Hdone.
  destruct Hdone as (_ & _ & _ & _ & _ & _ & _ & _ & Hin & Hout).
  apply sameGroups_of_nth_error. intros j.
  destruct (lt_dec j start) as [Hlt|Hge].
  - left. apply (Hout Hne). left. exact Hlt.
  - destruct (le_dec (start + List.length todo) j) as [Hle|Hgt].
    + left. apply (Hout Hne). right. exact Hle.
    + right. assert (Hk : j - start < List.length todo) by lia.
      destruct (nth_error todo (j - start)) as [product|] eqn:Hnth.
      * destruct (Hin _ _ Hnth) as [entries [_ Hset]].
        exists product, entries.
        replace (start + (j - start)) with j in Hset by lia.
        split; [ | exact Hset ].
        rewrite <- Hnth, (Htodo _ Hk). f_equal. lia.
      * apply nth_error_None in Hnth. lia.
Qed.

Lemma handleGenerateBatch_nothing_to_do (E : Env) (r : AppState) (run : Run) :
  App.productsToProcess r = [] ->
  products (store (snd (App.handleGenerateBatch E r run))) = products (store run).
Proof.
  intros Hnil. unfold App.handleGenerateBatch.
  destruct (List.length (products r) =? 0); [ reflexivity | ].
  rewrite Hnil. reflexivity.
Qed.

Lemma handleGenerateAll_stopped_catalog (E : Env) (r : AppState) (run : Run) :
  stopRequested r = true ->
  products r <> [] ->
  products (store (snd (App.handleGenerateAll E r run))) = products (store run).
Proof.
  intros Hstop Hproducts. unfold App.handleGenerateAll.
  rewrite (products_not_nil r Hproducts).
  destruct (products r) as [|product rest] eqn:Hps; [ congruence | ].
  cbn [App.productLoopAll]. rewrite Hstop. reflexivity.
Qed.

(** X16. Generation never renames, reorders, adds or drops a group and
    never touches the reference images: after [handleGenerateBatch] and
    after [handleGenerateAll], started from the render of the current state,
    the catalog has the same groups in the same order, each with its name
    and its reference images, whatever the remote model and the browser
    answer and whether or not the stop flag is set. *)
Theorem generation_keeps_the_groups (E : Env) (r : AppState) (w : World)
    (cs : list ClientCall) :
  sameGroups (products r)
    (products (store (snd (App.handleGenerateBatch E r (mkRun r w cs))))) /\
  sameGroups (products r)
    (products (store (snd (App.handleGenerateAll E r (mkRun r w cs))))).
Proof.
  assert (Hsame : sameGroups (products r) (products r)) by (split; reflexivity).
  destruct (products r) as [|product0 rest0] eqn:Hps.
  { unfold App.handleGenerateBatch, App.handleGenerateAll. rewrite Hps. cbn.
    rewrite Hps. split; exact Hsame. }
  assert (Hproducts : products r <> []) by (rewrite Hps; discriminate).
  rewrite <- Hps in *. clear Hps product0 rest0.
  split.
  - destruct (App.productsToProcess r) as [|product rest] eqn:Htodo.
    { rewrite handleGenerateBatch_nothing_to_do by exact Htodo. exact Hsame. }
    assert (Hne : App.productsToProcess r <> []) by (rewrite Htodo; discriminate).
    destruct (stopRequested r) eqn:Hstop.
    + destruct (@handleGenerateBatch_stopped E r (mkRun r w cs) Hstop Hproducts Hne)
        as (_ & _ & Hkept & _).
      rewrite Hkept. exact Hsame.
    + eapply sameGroups_Completed.
      * apply (@handleGenerateBatch_completes E r 1 2 resultFor (fun _ _ => True));
          [ auto | auto | apply generateAngleBatch_unit | exact Hstop | exact Hproducts ].
      * exact Hne.
      * intros k Hk. apply nth_error_productsToProcess. exact Hk.
  - destruct (stopRequested r) eqn:Hstop.
    + rewrite (@handleGenerateAll_stopped_catalog E r (mkRun r w cs) Hstop Hproducts).
      exact Hsame.
    + eapply sameGroups_Completed.
      * apply (@handleGenerateAll_completes E r resultFor (fun _ _ => True));
          [ auto | auto | apply generateAngleAll_unit | exact Hstop | exact Hproducts ].
      * exact Hproducts.
      * intros k Hk. reflexivity.
Qed.

(** *** Generate All, started with the stop flag set *)

(** X17. [handleGenerateAll] started by a render that holds the stop flag
    set ends at its first check: it makes no call of the client and leaves
    the network and the catalog as they are, sets the total of the progress
    display to all the products times the enabled angles and the processed
    count to zero, logs that the generation was stopped, ends completed and
    clears the flag; unlike [handleGenerateBatch] it leaves the request
    counter and the API status line as they were. *)
Theorem handleGenerateAll_started_with_stop_set (E : Env) (r : AppState) (run : Run)
    (Hstop : stopRequested r = true) (Hproducts : products r <> []) :
  let run' := snd (App.handleGenerateAll E r run) in
  clientCalls run' = clientCalls run /\
  world run' = world run /\
  products (store run') = products (store run) /\
  totalAnglesProcessed (store run') = 0 /\
  totalAnglesToProcess (store run') =
    List.length (products r) * List.length (App.enabledAnglesOf r) /\
  activityLog (store run') =
    App.sliceLast 10 (activityLog (store run)) ++ [mkLog LogStopped warning] /\
  appStatus (store run') = StatusCompleted /\
  stopRequested (store run') = false /\
  apiRequestCount (store run') = apiRequestCount (store run) /\
  currentApiStatus (store run') = currentApiStatus (store run).
Proof.
  cbn zeta. unfold App.handleGenerateAll.
  rewrite (products_not_nil r Hproducts).
  destruct (products r) as [|product rest] eqn:Hps; [ congruence | ].
  cbn [App.productLoopAll]. rewrite Hstop. cbn -[App.sliceLast].
  repeat split; reflexivity.
Qed.

Lemma handleGenerateAll_started_with_stop_set_witness :
  let run' := snd (App.handleGenerateAll demoEnv stoppedState (startOf stoppedState)) in
  clientCalls run' = [] /\
  totalAnglesToProcess (store run') = 4 /\
  appStatus (store run') = StatusCompleted /\
  stopRequested (store run') = false.
Proof.
  cbn zeta.
  destruct (@handleGenerateAll_started_with_stop_set demoEnv stoppedState
              (startOf stoppedState) eq_refl ltac:(discriminate))
    as (Hcalls & _ & _ & _ & Htotal & _ & Hstatus & Hflag & _).
  split; [ exact Hcalls | split; [ exact Htotal | split; [ exact Hstatus | exact Hflag ] ] ].
Defined.

(* ===================================================================== *)
(** ** The network activity of the client: properties *)
(* ===================================================================== *)

Lemma backoff_seq (retryCount k : nat) :
  retryCount = 0 -> k <= 3 ->
  map (fun j => 2 ^ j * 1000) (seq retryCount k) = firstn k backoff.
Proof.
  intros -> Hk. destruct k as [|[|[|[|k]]]]; try lia; reflexivity.
Qed.

Lemma retriesLeft_eq (k : nat) : retriesLeft k = 3 - k.
Proof. reflexivity. Qed.

Lemma withRetry_network {A : Type} (attempt : World -> result A * World)
    (P : NetEvent -> Prop) :
  (forall w res w1,
     attempt w = (res, w1) ->
     w1 = w \/
     exists ev, P ev /\ isRemoteCall ev = true /\
                w1 = mkWorld (S (calls w)) (trace w ++ [ev])) ->
  forall n retryCount w,
    retriesLeft retryCount = n ->
    exists t k,
      snd (withRetry attempt retryCount w) =
        mkWorld (calls w + remoteCalls t) (trace w ++ t) /\
      k <= n /\
      delays t = map (fun j => 2 ^ j * 1000) (seq retryCount k) /\
      remoteCalls t <= k + 1 /\
      Forall (fun ev => isRemoteCall ev = true -> P ev) t.
Proof.
  intros Hattempt.
  assert (Hone : forall w res w1,
             attempt w = (res, w1) ->
             exists t0, w1 = mkWorld (calls w + remoteCalls t0) (trace w ++ t0) /\
                        delays t0 = [] /\ remoteCalls t0 <= 1 /\
                        Forall (fun ev => isRemoteCall ev = true -> P ev) t0).
  { intros w res w1 H. destruct (Hattempt w res w1 H) as [-> | [ev [HP [Hev ->]]]].
    - exists []. cbn. rewrite Nat.add_0_r, app_nil_r. destruct w; cbn. auto.
    - exists [ev]. unfold remoteCalls, delays. cbn. rewrite Hev. cbn.
      replace (calls w + 1) with (S (calls w)) by lia.
      repeat split; try lia.
      + destruct ev; cbn in *; congruence || reflexivity.
      + constructor; [ intros _; exact HP | constructor ]. }
  induction n as [|n IH]; intros retryCount w Hleft; rewrite withRetry_step;
    destruct (attempt w) as [[a|err] w1] eqn:Hatt;
    destruct (Hone _ _ _ Hatt) as [t0 [-> [Hd0 [Hr0 HP0]]]].
  - exists t0, 0. cbn [snd seq map]. repeat split; auto; lia.
  - rewrite retriesLeft_eq in Hleft.
    destruct (Nat.ltb_spec retryCount 3); [ lia | ]. cbn [andb snd].
    exists t0, 0. cbn [seq map]. repeat split; auto; lia.
  - exists t0, 0. cbn [snd seq map]. repeat split; auto; lia.
  - destruct ((retryCount <? 3) && retryableStatus err) eqn:Hretry.
    + apply andb_true_iff in Hretry. destruct Hretry as [Hlt _]. apply Nat.ltb_lt in Hlt.
      destruct (IH (S retryCount)
                  (Gemini.setTimeout (2 ^ retryCount * 1000)
                     (mkWorld (calls w + remoteCalls t0) (trace w ++ t0))))
        as [t [k [Hw [Hk [Hd [Hr HP]]]]]].
      { rewrite retriesLeft_eq in *. lia. }
      exists (t0 ++ [SetTimeout (2 ^ retryCount * 1000)] ++ t), (S k).
      rewrite Hw. unfold Gemini.setTimeout. cbn [calls trace].
      rewrite !remoteCalls_app, !delays_app, Hd0, Hd.
      change (remoteCalls [SetTimeout (2 ^ retryCount * 1000)]) with 0.
      change (delays [SetTimeout (2 ^ retryCount * 1000)]) with [2 ^ retryCount * 1000].
      split; [ | split; [ lia | split; [ reflexivity | split ] ] ].
      * f_equal; [ lia | ]. rewrite <- !app_assoc. reflexivity.
      * lia.
      * apply Forall_app. split; [ exact HP0 | ].
        constructor; [ discriminate | exact HP ].
    + exists t0, 0. cbn [snd seq map]. repeat split; auto; lia.
Qed.

Lemma NetworkBound_withRetry {A : Type} (attempt : World -> result A * World)
    (P : NetEvent -> Prop) (w : World) :
  (forall w0 res w1,
     attempt w0 = (res, w1) ->
     w1 = w0 \/
     exists ev, P ev /\ isRemoteCall ev = true /\
                w1 = mkWorld (S (calls w0)) (trace w0 ++ [ev])) ->
  NetworkBound P w (snd (withRetry attempt 0 w)).
Proof.
  intros Hattempt.
  destruct (withRetry_network attempt P Hattempt (n := 3) 0 w eq_refl)
    as [t [k [Hw [Hk [Hd [Hr HP]]]]]].
  exists t, k. rewrite backoff_seq in Hd by (auto; lia). auto.
Qed.

Lemma NetworkBound_refl (P : NetEvent -> Prop) (w : World) : NetworkBound P w w.
Proof.
  exists [], 0. cbn. rewrite Nat.add_0_r, app_nil_r. destruct w; cbn.
  repeat split; auto; lia.
Qed.

Lemma NetworkBound_calls (P : NetEvent -> Prop) (w w' : World) :
  NetworkBound P w w' ->
  calls w <= calls w' <= calls w + 4 /\
  exists t, trace w' = trace w ++ t /\ remoteCalls t = calls w' - calls w /\
            List.length (delays t) <= 3.
Proof.
  intros [t [k [-> [Hk [Hd [Hr HP]]]]]]. cbn [calls trace].
  split; [ lia | ]. exists t. repeat split; [ lia | ].
  rewrite Hd, length_firstn. cbn. lia.
Qed.

Lemma tryGenerateWithImagen_event E pn pd an model tw w res w1 :
  Gemini.tryGenerateWithImagen E pn pd an model tw w = (res, w1) ->
  w1 = mkWorld (S (calls w))
         (trace w ++ [GenerateImagesCall model (ImagenPrompt pn an pd)]).
Proof.
  unfold Gemini.tryGenerateWithImagen, Gemini.callGenerateImages.
  destruct (generateImages E (calls w) model (ImagenPrompt pn an pd))
    as [[[ | [s | b | ] rest] | ] | e];
    try destruct (startsWith s "data:");
    try destruct (readBlobAsDataURL E b);
    intros H; injection H as _ H; symmetry; exact H.
Qed.

Lemma tryGenerateProductAngle_event E refs pn pd an model tw w res w1 :
  Gemini.tryGenerateProductAngle E refs pn pd an model tw w = (res, w1) ->
  match Gemini.readParts E refs with
  | Throw e => res = Throw e /\ w1 = w
  | Ok parts =>
      w1 = mkWorld (S (calls w))
             (trace w ++
              [GenerateContentCall model
                 (parts ++ [Text (AnglePrompt pn (List.length refs) an pd tw)])])
  end.
Proof.
  unfold Gemini.tryGenerateProductAngle, Gemini.callGenerateContent.
  destruct (Gemini.readParts E refs) as [parts | e].
  - match goal with
    | |- context [generateContent E ?n ?m ?ps] =>
        destruct (generateContent E n m ps) as [resp | e]
    end;
      try destruct (truthy (Gemini.firstInlineData (Gemini.responseParts resp)));
      intros H; injection H as _ H; symmetry; exact H.
  - intros H. injection H as H1 H2. auto.
Qed.

(** X18. One call of [generateProductAngle] makes at most four requests
    to the remote model, whatever the model and the browser answer: what it
    adds to the network is a sequence of requests and pauses in which the
    pauses are the first delays of 1 s, 2 s, 4 s, in this order, and the
    requests are at most one more than the pauses. *)
Theorem generateProductAngle_network_bound (E : Env) (referenceFiles : list File)
    (productName description anglePrompt model : string) (width : nat) (key : string)
    (w : World) :
  let w' := snd (Gemini.generateProductAngle E referenceFiles productName description
                   anglePrompt model width key 0 w) in
  NetworkBound (fun _ => True) w w' /\
  calls w <= calls w' <= calls w + 4 /\
  exists t,
    trace w' = trace w ++ t /\ remoteCalls t = calls w' - calls w /\
    List.length (delays t) <= 3.
Proof.
  cbn zeta.
  assert (H : NetworkBound (fun _ => True) w
                (snd (Gemini.generateProductAngle E referenceFiles productName description
                        anglePrompt model width key 0 w))).
  { rewrite generateProductAngle_withRetry.
    destruct (truthy (orElse key (VITE_GEMINI_API_KEY E))); [ | apply NetworkBound_refl ].
    destruct (Gemini.isImagenModel model) eqn:Himagen.
    - apply NetworkBound_withRetry. intros w0 res w1 Hatt. right.
      apply tryGenerateWithImagen_event in Hatt. eexists. split; [ exact I | ].
      split; [ | exact Hatt ]. reflexivity.
    - apply NetworkBound_withRetry. intros w0 res w1 Hatt.
      apply tryGenerateProductAngle_event in Hatt.
      destruct (Gemini.readParts E referenceFiles) as [parts | e].
      + right. eexists. split; [ exact I | ]. split; [ | exact Hatt ]. reflexivity.
      + left. apply Hatt. }
  split; [ exact H | ]. apply (NetworkBound_calls H).
Qed.

Lemma withRetry_same_error {A : Type} (attempt : World -> result A * World) (e : JsError) :
  (forall w, exists w1, attempt w = (Throw e, w1)) ->
  forall n retryCount w,
    retriesLeft retryCount = n -> fst (withRetry attempt retryCount w) = Throw e.
Proof.
  intros Hattempt. induction n as [|n IH]; intros retryCount w Hleft;
    rewrite withRetry_step; destruct (Hattempt w) as [w1 ->];
    destruct ((retryCount <? 3) && retryableStatus e) eqn:Hretry; try reflexivity.
  - apply andb_true_iff in Hretry. destruct Hretry as [Hlt _]. apply Nat.ltb_lt in Hlt.
    rewrite retriesLeft_eq in Hleft. lia.
  - apply IH. apply andb_true_iff in Hretry. destruct Hretry as [Hlt _].
    apply Nat.ltb_lt in Hlt. rewrite retriesLeft_eq in *. lia.
Qed.

Lemma readParts_Ok (E : Env) (refs : list File) :
  forall parts,
    Gemini.readParts E refs = Ok parts ->
    Forall2
      (fun f part =>
         exists dataUrl,
           readAsDataURL E f = Ok dataUrl /\
           part = InlineData (nth_error (split "," dataUrl) 1)
                    (orElse (fileType f) "image/png"))
      refs parts.
Proof.
  induction refs as [|f rest IH]; intros parts; cbn [Gemini.readParts].
  - intros [= <-]. constructor.
  - unfold Gemini.readPart. destruct (readAsDataURL E f) as [dataUrl|e] eqn:Hread;
      [ | discriminate ].
    destruct (Gemini.readParts E rest) as [ps|e]; [ | discriminate ].
    intros [= <-]. constructor; [ | apply IH; reflexivity ].
    exists dataUrl. split; [ exact Hread | reflexivity ].
Qed.

Lemma readParts_Throw (E : Env) (refs : list File) (e : JsError) :
  Gemini.readParts E refs = Throw e ->
  exists before f rest,
    refs = before ++ f :: rest /\
    readAsDataURL E f = Throw e /\
    Forall (fun f0 => exists dataUrl, readAsDataURL E f0 = Ok dataUrl) before.
Proof.
  induction refs as [|f rest IH]; cbn [Gemini.readParts]; [ discriminate | ].
  unfold Gemini.readPart. destruct (readAsDataURL E f) as [dataUrl|e0] eqn:Hread.
  - destruct (Gemini.readParts E rest) as [ps|e1]; [ discriminate | ].
    intros [= ->]. destruct (IH eq_refl) as [before [f1 [rest1 [-> [Hf1 Hbefore]]]]].
    exists (f :: before), f1, rest1. split; [ reflexivity | split; [ exact Hf1 | ] ].
    constructor; [ exists dataUrl; exact Hread | exact Hbefore ].
  - intros [= ->]. exists [], f, rest. split; [ reflexivity | split; [ exact Hread | ] ].
    constructor.
Qed.

(** X19. With an Imagen model [generateProductAngle] works from the text
    alone: its result and its network activity are the same whatever
    reference files it is given, and every request it makes is a
    [generateImages] request for the model whose prompt is built from the
    product name, the angle and the description. *)
Theorem imagen_route_uses_no_reference (E : Env) (referenceFiles : list File)
    (productName description anglePrompt model : string) (width : nat) (key : string)
    (w : World) (Himagen : Gemini.isImagenModel model = true) :
  (forall otherFiles retryCount,
     Gemini.generateProductAngle E otherFiles productName description anglePrompt model
       width key retryCount w =
     Gemini.generateProductAngle E referenceFiles productName description anglePrompt model
       width key retryCount w) /\
  NetworkBound
    (fun ev => ev = GenerateImagesCall model (ImagenPrompt productName anglePrompt description))
    w (snd (Gemini.generateProductAngle E referenceFiles productName description anglePrompt
              model width key 0 w)).
Proof.
  split.
  - intros otherFiles retryCount. rewrite !generateProductAngle_withRetry, Himagen.
    reflexivity.
  - rewrite generateProductAngle_withRetry, Himagen.
    destruct (truthy (orElse key (VITE_GEMINI_API_KEY E))); [ | apply NetworkBound_refl ].
    apply NetworkBound_withRetry. intros w0 res w1 Hatt. right.
    apply tryGenerateWithImagen_event in Hatt. eexists.
    split; [ reflexivity | split; [ reflexivity | exact Hatt ] ].
Qed.

Lemma imagen_route_uses_no_reference_witness :
  Gemini.generateProductAngle demoEnv [] "Mug" "A mug" "Front view of the product"
    "imagen-4.0-generate-001" 800 "secret" 0 emptyWorld =
  Gemini.generateProductAngle demoEnv [referencePhoto] "Mug" "A mug"
    "Front view of the product" "imagen-4.0-generate-001" 800 "secret" 0 emptyWorld.
Proof.
  apply (proj1 (@imagen_route_uses_no_reference demoEnv [referencePhoto] "Mug" "A mug"
                  "Front view of the product" "imagen-4.0-generate-001" 800 "secret"
                  emptyWorld eq_refl)).
Defined.

Lemma readParts_unreadable (E : Env) (refs : list File) :
  Exists (fun f => exists err, readAsDataURL E f = Throw err) refs ->
  exists e, Gemini.readParts E refs = Throw e.
Proof.
  induction refs as [|f rest IH]; intros Hex; [ inversion Hex | ].
  cbn [Gemini.readParts]. unfold Gemini.readPart.
  destruct (readAsDataURL E f) as [dataUrl|e0] eqn:Hread; [ | eauto ].
  inversion Hex as [? ? [err Herr]|? ? Hrest]; subst; [ congruence | ].
  destruct (IH Hrest) as [e ->]. eauto.
Qed.

(** X20. With a Gemini model and a credential, a reference file that cannot
    be read makes [generateProductAngle] fail with the error of the reader
    of such a file, without a single request being sent. *)
Theorem unreadable_reference_sends_nothing (E : Env) (referenceFiles : list File)
    (productName description anglePrompt model : string) (width : nat) (key : string)
    (w : World)
    (Hkey : truthy (orElse key (VITE_GEMINI_API_KEY E)) = true)
    (Hgemini : Gemini.isImagenModel model = false)
    (Hunreadable :
       Exists (fun f => exists err, readAsDataURL E f = Throw err) referenceFiles) :
  let out := Gemini.generateProductAngle E referenceFiles productName description anglePrompt
               model width key 0 w in
  (exists f err,
     In f referenceFiles /\ readAsDataURL E f = Throw err /\ fst out = Throw err) /\
  calls (snd out) = calls w /\
  NetworkBound (fun _ => False) w (snd out).
Proof.
  cbn zeta. destruct (@readParts_unreadable E referenceFiles Hunreadable) as [e Hread].
  rewrite generateProductAngle_withRetry, Hkey, Hgemini.
  assert (Hattempt : forall w0,
             Gemini.tryGenerateProductAngle E referenceFiles productName description
               anglePrompt model width w0 = (Throw e, w0)).
  { intros w0. unfold Gemini.tryGenerateProductAngle. rewrite Hread. reflexivity. }
  assert (Hbound : NetworkBound (fun _ => False) w
                     (snd (withRetry
                             (Gemini.tryGenerateProductAngle E referenceFiles productName
                                description anglePrompt model width) 0 w))).
  { apply NetworkBound_withRetry. intros w0 res w1 Hatt. left.
    rewrite Hattempt in Hatt. congruence. }
  split; [ | split; [ | exact Hbound ] ].
  - destruct (@readParts_Throw E referenceFiles e Hread) as [before [f [rest [-> [Hf _]]]]].
    exists f, e. split; [ apply in_or_app; right; left; reflexivity | ].
    split; [ exact Hf | ].
    apply (@withRetry_same_error _ _ e) with (n := 3); [ | reflexivity ].
    intros w0. exists w0. apply Hattempt.
  - destruct Hbound as [t [k [-> [_ [_ [_ Hnone]]]]]]. cbn [calls].
    assert (Hzero : remoteCalls t = 0).
    { clear -Hnone. unfold remoteCalls. induction t as [|ev t IH]; [ reflexivity | ].
      inversion Hnone as [|? ? Hev Hrest]; subst. cbn.
      destruct (isRemoteCall ev); [ exfalso; apply Hev; reflexivity | apply IH; exact Hrest ]. }
    lia.
Qed.

(** A reader that fails on every file. *)
Lemma unreadable_reference_sends_nothing_witness :
  let E :=
    mkEnv "" (generateContent demoEnv) (generateImages demoEnv)
      (fun _ => Throw (Error "NotReadableError")) (readBlobAsDataURL demoEnv)
      (decodeImage demoEnv) true (toDataURL demoEnv) (fetchBlob demoEnv)
      (createObjectURL demoEnv) lengthCompare (fun _ => false) in
  let out :=
    Gemini.generateProductAngle E [referencePhoto] "Mug" "A mug" "Front view of the product"
      "gemini-2.5-flash-image" 800 "secret" 0 emptyWorld in
  calls (snd out) = 0 /\ NetworkBound (fun _ => False) emptyWorld (snd out).
Proof.
  cbn zeta.
  exact (proj2 (@unreadable_reference_sends_nothing
                  (mkEnv "" (generateContent demoEnv) (generateImages demoEnv)
                     (fun _ => Throw (Error "NotReadableError")) (readBlobAsDataURL demoEnv)
                     (decodeImage demoEnv) true (toDataURL demoEnv) (fetchBlob demoEnv)
                     (createObjectURL demoEnv) lengthCompare (fun _ => false))
                  [referencePhoto] "Mug" "A mug" "Front view of the product"
                  "gemini-2.5-flash-image" 800 "secret" emptyWorld eq_refl eq_refl
                  (Exists_cons_hd _ referencePhoto []
                     (ex_intro _ (Error "NotReadableError") eq_refl)))).
Defined.

(** X21. With a Gemini model, every request that [generateProductAngle]
    sends carries one inline part for each reference file, in the order of
    the files, holding the second of the pieces that the commas cut the data
    URL of the file into, under the type of the file or [image/png] when the
    file has none, followed by one text part, the prompt, which comes last. *)
Theorem gemini_route_sends_every_reference (E : Env) (referenceFiles : list File)
    (productName description anglePrompt model : string) (width : nat) (key : string)
    (w : World) (parts : list Part)
    (Hgemini : Gemini.isImagenModel model = false)
    (Hread : Gemini.readParts E referenceFiles = Ok parts) :
  Forall2
    (fun f part =>
       exists dataUrl,
         readAsDataURL E f = Ok dataUrl /\
         part = InlineData (nth_error (split "," dataUrl) 1) (orElse (fileType f) "image/png"))
    referenceFiles parts /\
  map mimeTypeOf parts = map (fun f => orElse (fileType f) "image/png") referenceFiles /\
  NetworkBound
    (fun ev =>
       ev = GenerateContentCall model
              (parts ++
               [Text (AnglePrompt productName (List.length referenceFiles) anglePrompt
                        description width)]))
    w (snd (Gemini.generateProductAngle E referenceFiles productName description anglePrompt
              model width key 0 w)).
Proof.
  pose proof (readParts_Ok E referenceFiles Hread) as Hparts.
  split; [ exact Hparts | split ].
  - clear -Hparts. induction Hparts as [|f part fs ps [dataUrl [_ ->]] _ IH]; cbn;
      [ reflexivity | rewrite IH; reflexivity ].
  - rewrite generateProductAngle_withRetry, Hgemini.
    destruct (truthy (orElse key (VITE_GEMINI_API_KEY E))); [ | apply NetworkBound_refl ].
    apply NetworkBound_withRetry. intros w0 res w1 Hatt. right.
    apply tryGenerateProductAngle_event in Hatt. rewrite Hread in Hatt.
    eexists. split; [ reflexivity | split; [ reflexivity | exact Hatt ] ].
Qed.

Lemma gemini_route_sends_every_reference_witness :
  map mimeTypeOf [InlineData (Some "UkVG") "image/png"] =
  map (fun f => orElse (fileType f) "image/png") [mkFile "scan" "" [] "shoot/Mug/scan"].
Proof.
  apply (@gemini_route_sends_every_reference demoEnv [mkFile "scan" "" [] "shoot/Mug/scan"]
           "Mug" "A mug" "Front view of the product" "gemini-2.5-flash-image" 800 "secret"
           emptyWorld [InlineData (Some "UkVG") "image/png"] eq_refl eq_refl).
Defined.

Lemma tryGenerateAllProductAngles_event E refs pn pd angs model tw w res w1 :
  Gemini.tryGenerateAllProductAngles E refs pn pd angs model tw w = (res, w1) ->
  match Gemini.readParts E refs with
  | Throw e => res = Throw e /\ w1 = w
  | Ok parts =>
      w1 = mkWorld (S (calls w))
             (trace w ++
              [GenerateContentCall model
                 (parts ++ [Text (AllAnglesPrompt pn (List.length refs) angs pd tw)])])
  end.
Proof.
  unfold Gemini.tryGenerateAllProductAngles, Gemini.callGenerateContent.
  destruct (Gemini.readParts E refs) as [parts | e].
  - match goal with
    | |- context [generateContent E ?n ?m ?ps] =>
        destruct (generateContent E n m ps) as [resp | e]
    end;
      try destruct (Gemini.extractImages E (Gemini.responseParts resp) tw []);
      intros H; injection H as _ H; symmetry; exact H.
  - intros H. injection H as H1 H2. auto.
Qed.

(** X22. [generateAllProductAngles] asks for all the views in one
    request: without a credential it fails with the missing-credential
    error and leaves the network untouched; with one, every request it
    sends is the same single request, which carries the reference files and
    one prompt listing every view asked for, and it sends at most four of
    them, paused as the back-off has it. *)
Theorem generateAllProductAngles_sends_one_request (E : Env) (referenceFiles : list File)
    (productName description : string) (views : list (string * string)) (model : string)
    (width : nat) (key : string) (w : World) :
  (truthy (orElse key (VITE_GEMINI_API_KEY E)) = false ->
   forall retryCount,
     Gemini.generateAllProductAngles E referenceFiles productName description views model
       width key retryCount w = (Throw Gemini.missingKeyError, w)) /\
  NetworkBound
    (fun ev =>
       exists parts,
         Gemini.readParts E referenceFiles = Ok parts /\
         ev = GenerateContentCall model
                (parts ++
                 [Text (AllAnglesPrompt productName (List.length referenceFiles) views
                          description width)]))
    w (snd (Gemini.generateAllProductAngles E referenceFiles productName description views
              model width key 0 w)).
Proof.
  split.
  - intros Hkey retryCount. rewrite generateAllProductAngles_withRetry, Hkey. reflexivity.
  - rewrite generateAllProductAngles_withRetry.
    destruct (truthy (orElse key (VITE_GEMINI_API_KEY E))); [ | apply NetworkBound_refl ].
    apply NetworkBound_withRetry. intros w0 res w1 Hatt.
    apply tryGenerateAllProductAngles_event in Hatt.
    destruct (Gemini.readParts E referenceFiles) as [parts | e].
    + right. eexists. split; [ exists parts; split; reflexivity | ].
      split; [ reflexivity | exact Hatt ].
    + left. apply Hatt.
Qed.

(** *** transformImage *)

Lemma transformImage_withRetry E f p model key rc w :
  Gemini.transformImage E f p model key rc w =
  if truthy (orElse key (VITE_GEMINI_API_KEY E)) then
    withRetry (Gemini.tryTransformImage E f p model) rc w
  else (Throw Gemini.missingKeyError, w).
Proof.
  funelim (Gemini.transformImage E f p model key rc w).
  - rewrite Heq. reflexivity.
  - rewrite Heq0, withRetry_step, Heq. reflexivity.
  - rewrite Heq1, withRetry_step, Heq0.
    destruct (Nat.ltb_spec retryCount 3); [ | lia ]. simpl.
    destruct (retryableStatus err); [ | reflexivity ].
    rewrite H, orElse_idem, Heq1. reflexivity.
  - rewrite Heq1, withRetry_step, Heq0.
    destruct (Nat.ltb_spec retryCount 3); [ lia | ]. reflexivity.
Qed.

Lemma tryTransformImage_event E f p model w res w1 :
  Gemini.tryTransformImage E f p model w = (res, w1) ->
  match readAsDataURL E f with
  | Throw e => res = Throw e /\ w1 = w
  | Ok dataUrl =>
      w1 = mkWorld (S (calls w))
             (trace w ++
              [GenerateContentCall model
                 [InlineData (nth_error (split "," dataUrl) 1)
                    (orElse (fileType f) "image/png");
                  Text p]])
  end.
Proof.
  unfold Gemini.tryTransformImage, Gemini.callGenerateContent.
  destruct (readAsDataURL E f) as [dataUrl | e].
  - match goal with
    | |- context [generateContent E ?n ?m ?ps] =>
        destruct (generateContent E n m ps) as [resp | e]
    end;
      try destruct (truthy (Gemini.firstInlineData (Gemini.responseParts resp)));
      intros H; injection H as _ H; symmetry; exact H.
  - intros H. injection H as H1 H2. auto.
Qed.

Lemma tryTransformImage_Ok E f p model w url w1 :
  Gemini.tryTransformImage E f p model w = (Ok url, w1) ->
  exists raw img,
    RawImage E model raw /\
    decodeImage E raw = Some img /\
    url = toDataURL E (mkCanvas 800 800 true "high" [mkDraw img 0 0 800 800]).
Proof.
  unfold Gemini.tryTransformImage, Gemini.callGenerateContent.
  destruct (readAsDataURL E f) as [dataUrl | e]; [ | discriminate ].
  match goal with
  | |- context [generateContent E ?n ?m ?ps] =>
      destruct (generateContent E n m ps) as [resp | e] eqn:Hresp
  end; [ | discriminate ].
  destruct (truthy (Gemini.firstInlineData (Gemini.responseParts resp))); [ | discriminate ].
  intros H. injection H as H _. apply resizeBase64Image_Ok in H.
  destruct H as [img [Hdecode ->]].
  eexists. exists img. split; [ eapply RawInline; exact Hresp | ].
  split; [ exact Hdecode | reflexivity ].
Qed.

(** X23. [transformImage] returns, when it returns, an image of 800 by
    800 pixels: the first image of a response of the model drawn over the
    whole of a canvas of that size, there being no parameter for the size. Without a credential
    (neither the one passed nor the build-time one) it fails with the
    missing-credential error and leaves the network untouched; otherwise
    every request it sends holds the file and the text of the caller, and it
    sends at most four, paused as the back-off has it. *)
Theorem transformImage_returns_800 (E : Env) (f : File) (text : Prompt) (model key : string)
    (w : World) :
  let out := Gemini.transformImage E f text model key 0 w in
  (forall url, fst out = Ok url ->
     exists raw img,
       RawImage E model raw /\
       decodeImage E raw = Some img /\
       url = toDataURL E (mkCanvas 800 800 true "high" [mkDraw img 0 0 800 800])) /\
  (truthy (orElse key (VITE_GEMINI_API_KEY E)) = false ->
   out = (Throw Gemini.missingKeyError, w)) /\
  NetworkBound
    (fun ev =>
       exists dataUrl,
         readAsDataURL E f = Ok dataUrl /\
         ev = GenerateContentCall model
                [InlineData (nth_error (split "," dataUrl) 1)
                   (orElse (fileType f) "image/png");
                 Text text])
    w (snd out).
Proof.
  cbn zeta. rewrite transformImage_withRetry.
  destruct (truthy (orElse key (VITE_GEMINI_API_KEY E))).
  - split; [ | split; [ discriminate | ] ].
    + intros url Hurl.
      destruct (withRetry (Gemini.tryTransformImage E f text model) 0 w) as [res w'] eqn:Hrun.
      cbn in Hurl. subst res. apply withRetry_Ok in Hrun. destruct Hrun as [w0 Hatt].
      apply tryTransformImage_Ok in Hatt. exact Hatt.
    + apply NetworkBound_withRetry. intros w0 res w1 Hatt.
      apply tryTransformImage_event in Hatt.
      destruct (readAsDataURL E f) as [dataUrl | e].
      * right. eexists. split; [ exists dataUrl; split; reflexivity | ].
        split; [ reflexivity | exact Hatt ].
      * left. apply Hatt.
  - split; [ discriminate | split; [ reflexivity | apply NetworkBound_refl ] ].
Qed.

(* ===================================================================== *)
(** ** The earlier revision: properties *)
(* ===================================================================== *)

Lemma legacy_tryGenerateWithImagen_raw E pn pd an model w url w1 :
  GeminiLegacy.tryGenerateWithImagen E pn pd an model w = (Ok url, w1) ->
  RawImage E model url.
Proof.
  unfold GeminiLegacy.tryGenerateWithImagen, Gemini.callGenerateImages.
  destruct (generateImages E (calls w) model (ImagenPrompt pn an pd))
    as [[[ | [s | b | ] rest] | ] | e] eqn:Hresp; try discriminate.
  - destruct (startsWith s "data:"); [ | discriminate ].
    intros [= <- _]. eapply RawImagenString. exact Hresp.
  - destruct (readBlobAsDataURL E b) as [s|e] eqn:Hblob; [ | discriminate ].
    intros [= <- _]. eapply RawImagenBlob; [ exact Hresp | exact Hblob ].
Qed.

Lemma legacy_tryGenerateProductAngle_raw E refs pn pd an model tw w url w1 :
  GeminiLegacy.tryGenerateProductAngle E refs pn pd an model tw w = (Ok url, w1) ->
  RawImage E model url.
Proof.
  unfold GeminiLegacy.tryGenerateProductAngle, Gemini.callGenerateContent.
  destruct (Gemini.readParts E refs) as [parts | e]; [ | discriminate ].
  match goal with
  | |- context [generateContent E ?n ?m ?ps] =>
      destruct (generateContent E n m ps) as [resp | e] eqn:Hresp
  end; [ | discriminate ].
  destruct (truthy (Gemini.firstInlineData (Gemini.responseParts resp))); [ | discriminate ].
  intros [= <- _]. eapply RawInline. exact Hresp.
Qed.

(** X26. In the revision before the transcoder, [generateProductAngle]
    hands back the image of the model as it received it: every result is the
    first image of a response of the model, as a data URL, of whatever size
    the model made it. The credential is the build-time one only: without it
    the call fails before any network activity. *)
Theorem legacy_generateProductAngle_returns_what_it_received (E : Env)
    (referenceFiles : list File) (productName description anglePrompt model : string)
    (width retryCount : nat) (w : World) :
  let out := GeminiLegacy.generateProductAngle E referenceFiles productName description
               anglePrompt model width retryCount w in
  (forall url, fst out = Ok url -> RawImage E model url) /\
  (truthy (VITE_GEMINI_API_KEY E) = false ->
   out = (Throw GeminiLegacy.missingEnvKeyError, w)).
Proof.
  cbn zeta. rewrite legacy_generateProductAngle_withRetry.
  destruct (truthy (VITE_GEMINI_API_KEY E)).
  - split; [ | discriminate ]. intros url Hurl.
    destruct (Gemini.isImagenModel model).
    + destruct (withRetry _ retryCount w) as [res w'] eqn:Hrun. cbn in Hurl. subst res.
      apply withRetry_Ok in Hrun. destruct Hrun as [w0 Hatt].
      eapply legacy_tryGenerateWithImagen_raw. exact Hatt.
    + destruct (withRetry _ retryCount w) as [res w'] eqn:Hrun. cbn in Hurl. subst res.
      apply withRetry_Ok in Hrun. destruct Hrun as [w0 Hatt].
      eapply legacy_tryGenerateProductAngle_raw. exact Hatt.
  - split; [ discriminate | reflexivity ].
Qed.

(** What the earlier folder scan makes of an image file. *)
Lemma legacy_imagesOf_entries (E : Env) (folderPath : string) (entries : list Entry) :
  Forall
    (fun img =>
       In (FileEntry (file img)) entries /\
       isImageFile (file img) = true /\
       img = mkImageFile (file img) (createObjectURL E (file img)) pending
               (fileName (file img)) (folderPath ++ "/" ++ fileName (file img))%string None)
    (AppLegacy.imagesOf E folderPath entries).
Proof.
  unfold AppLegacy.imagesOf. apply Forall_flat_map, Forall_forall.
  intros [f | n es] Hin; [ | constructor ].
  destruct (startsWith (fileType f) "image/") eqn:Himage; constructor; [ | constructor ].
  cbn. split; [ exact Hin | split; [ exact Himage | reflexivity ] ].
Qed.

Lemma Forall_mapSet {V : Type} (Q : string * V -> Prop) (k : string) (v : V)
    (m : App.JsMap V) :
  Q (k, v) -> Forall Q m -> Forall Q (App.mapSet k v m).
Proof.
  intros Hnew. induction m as [|[k1 v1] rest IH]; intros Hm; cbn.
  - constructor; [ exact Hnew | constructor ].
  - inversion Hm as [|? ? H1 Hrest]; subst.
    destruct (String.eqb k1 k) eqn:Hk.
    + apply String.eqb_eq in Hk. subst k1. constructor; assumption.
    + constructor; [ exact H1 | apply IH; exact Hrest ].
Qed.

Lemma legacy_colorFoldersOf_entries (E : Env) (productName : string) (entries : list Entry) :
  Forall
    (fun entry : string * list ImageFile =>
       snd entry <> [] /\
       exists fileEntries,
         In (DirectoryEntry (fst entry) fileEntries) entries /\
         snd entry =
           AppLegacy.imagesOf E (productName ++ "/" ++ fst entry)%string fileEntries)
    (AppLegacy.colorFoldersOf E productName entries).
Proof.
  unfold AppLegacy.colorFoldersOf.
  assert (Hgen : forall done todo acc,
             entries = done ++ todo ->
             Forall
               (fun entry : string * list ImageFile =>
                  snd entry <> [] /\
                  exists fileEntries,
                    In (DirectoryEntry (fst entry) fileEntries) entries /\
                    snd entry =
                      AppLegacy.imagesOf E (productName ++ "/" ++ fst entry)%string
                        fileEntries) acc ->
             Forall
               (fun entry : string * list ImageFile =>
                  snd entry <> [] /\
                  exists fileEntries,
                    In (DirectoryEntry (fst entry) fileEntries) entries /\
                    snd entry =
                      AppLegacy.imagesOf E (productName ++ "/" ++ fst entry)%string
                        fileEntries)
               (fold_left
                  (fun colorFolders e =>
                     match e with
                     | DirectoryEntry colorName fileEntries =>
                         let images :=
                           AppLegacy.imagesOf E (productName ++ "/" ++ colorName)%string
                             fileEntries in
                         if 0 <? List.length images
                         then App.mapSet colorName images colorFolders
                         else colorFolders
                     | FileEntry _ => colorFolders
                     end)
                  todo acc)).
  { intros done todo. revert done.
    induction todo as [|e todo IH]; intros done acc Hsplit Hacc; cbn [fold_left];
      [ exact Hacc | ].
    apply (IH (done ++ [e])); [ rewrite <- app_assoc; exact Hsplit | ].
    destruct e as [f | colorName fileEntries]; [ exact Hacc | ].
    cbn zeta.
    destruct (0 <? List.length
                     (AppLegacy.imagesOf E (productName ++ "/" ++ colorName)%string
                        fileEntries)) eqn:Hlen; [ | exact Hacc ].
    apply Forall_mapSet; [ | exact Hacc ]. cbn [fst snd]. split.
    - intros Hnil. rewrite Hnil in Hlen. discriminate.
    - exists fileEntries. split; [ | reflexivity ].
      rewrite Hsplit. apply in_or_app. right. left. reflexivity. }
  apply (Hgen [] entries []); [ reflexivity | constructor ].
Qed.

(** X27. The earlier folder scan (the directory picker) makes groups of
    folders only: every group has at least one image and no generated
    image, every image entry is an image file as read ([pending], previewed
    by its object URL, named as the file), and a group is either a product
    folder with the images lying in it, or a subfolder of a product folder,
    named [product - subfolder], with the images lying in that subfolder. *)
Theorem legacy_scan_makes_groups_of_folders (E : Env) (rootEntries : list Entry) :
  Forall
    (fun p =>
       images p <> [] /\ generatedImages p = [] /\ Forall (scannedImage E) (images p))
    (AppLegacy.scanDirectory E rootEntries) /\
  (forall p, In p (AppLegacy.scanDirectory E rootEntries) ->
     exists productName entries,
       In (DirectoryEntry productName entries) rootEntries /\
       groupOrigin E productName entries p).
Proof.
  assert (Himages : forall folderPath entries,
             Forall (scannedImage E) (AppLegacy.imagesOf E folderPath entries)).
  { intros folderPath entries.
    eapply Forall_impl; [ | apply legacy_imagesOf_entries ].
    intros img (_ & Himage & Himg). unfold scannedImage. rewrite Himg. cbn.
    rewrite Himg in Himage. cbn in Himage. auto. }
  assert (Hgroups : forall productName entries p,
             In p (AppLegacy.productGroups E (DirectoryEntry productName entries)) ->
             images p <> [] /\ generatedImages p = [] /\ groupOrigin E productName entries p).
  { intros productName entries p Hin. cbn [AppLegacy.productGroups] in Hin. cbn zeta in Hin.
    destruct (existsb AppLegacy.isDirectory entries &&
              (0 <? List.length (AppLegacy.colorFoldersOf E productName entries))).
    - apply in_map_iff in Hin. destruct Hin as [[colorName images] [<- Hin]].
      pose proof (legacy_colorFoldersOf_entries E productName entries) as Hcolors.
      rewrite Forall_forall in Hcolors. destruct (Hcolors _ Hin) as [Hne [fs [Hfs Himgs]]].
      cbn [fst snd] in *. cbn. split; [ exact Hne | split; [ reflexivity | ] ].
      right. exists colorName, fs. cbn. auto.
    - destruct (0 <? List.length (AppLegacy.imagesOf E productName entries)) eqn:Hlen;
        [ | contradiction ].
      destruct Hin as [<- | []]. cbn. split; [ | split; [ reflexivity | left; auto ] ].
      intros Hnil. rewrite Hnil in Hlen. discriminate. }
  split.
  - unfold AppLegacy.scanDirectory. apply Forall_flat_map, Forall_forall.
    intros [f | productName entries] _; [ constructor | ].
    apply Forall_forall. intros p Hin.
    destruct (Hgroups _ _ _ Hin) as [Hne [Hgen Horigin]].
    split; [ exact Hne | split; [ exact Hgen | ] ].
    destruct Horigin as [[_ ->] | [colorName [fs [_ [_ ->]]]]]; apply Himages.
  - intros p Hin. unfold AppLegacy.scanDirectory in Hin. apply in_flat_map in Hin.
    destruct Hin as [[f | productName entries] [Hroot Hin]]; [ contradiction | ].
    exists productName, entries. split; [ exact Hroot | ].
    apply (Hgroups _ _ _ Hin).
Qed.
